(** * EasyExtensions.Crypto.Tests.Charts: the benchmark-log parsers

    A verification development for the three text-to-table parsers of the
    charts scripts:

    - [parse_mylib_results]   (charts.py)
    - [parse_test_results]    (test_parser.py)
    - [parse_openssl_results] (charts.py)

    The parsers are written with Python's [re] module.  The patterns are kept
    as regular-expression terms ([regex]) that read like the source literals
    and are run by a backtracking matcher with the priorities of [re]
    (leftmost start, greedy and lazy repetition, ordered alternation, atomic
    look-ahead).

    Modelling conventions
    - text: [list ascii]; a character is a code point below 256, where [\d] is
      exactly [0-9] and [\s] is the twelve characters listed in [is_space];
    - [int(...)]: an unbounded integer, [Z]; the limit that CPython puts on
      the number of digits it converts (4300 by default) is not represented;
    - [float(...)]: the exact rational denoted by the literal, [Q] in reduced
      form; the values are not rounded to binary64, but the exceptions that
      the range of binary64 brings to the one division of an [int] by a
      [float] are kept ([py_int_div]);
    - a [DataFrame]: the list of its rows in index order; column labels are the
      fields of the row records;
    - an exception: the [Raise] outcome of [result];
    - a parser is a function of the text of its file; reading the file is
      outside the model.

    The last part of the file follows the tables into the scripts: the
    series that [plot_mylib_four_panels] draws, the best row and the middle
    chunk size of the summaries, and the [main] functions of charts.py,
    simple_charts.py and all_charts.py.  There the calls into matplotlib and
    the import of a module are parameters of the model, a run is the list of
    what it printed and called together with how it ended, and printing is
    taken not to fail.

    At the end the row pattern is read as a scan that has no choice to make
    ([occurrences]); the statements about rows, lines and the two
    implementations that hold for every text are proved from it. *)

From Stdlib Require Import String Ascii List ZArith NArith QArith Qreduction.
From Stdlib Require Import Lia Bool Arith Permutation Sorted.
Import ListNotations.

Local Close Scope Q_scope.
Local Open Scope nat_scope.
Local Open Scope list_scope.

Definition text := list ascii.

Definition T (s : string) : text := list_ascii_of_string s.

(** ** Exceptions *)

Inductive exn := ValueError | ZeroDivisionError | OverflowError.

Inductive result (A : Type) :=
| Ok (a : A)
| Raise (e : exn).
Arguments Ok {A} a.
Arguments Raise {A} e.

Definition bind {A B} (m : result A) (f : A -> result B) : result B :=
  match m with
  | Ok a => f a
  | Raise e => Raise e
  end.

Notation "x <- m ;; k" := (bind m (fun x => k))
  (at level 61, m at next level, right associativity).

(** The body of a [for] loop that may raise, run over a list. *)
Fixpoint for_each {A B} (f : A -> result B) (l : list A) : result (list B) :=
  match l with
  | [] => Ok []
  | a :: l' => b <- f a ;; bs <- for_each f l' ;; Ok (b :: bs)
  end.

(** ** The fragment of [re] the scripts use *)

Module Re.

(** Character classes. *)

Definition is_digit (a : ascii) : bool :=
  let n := nat_of_ascii a in ((48 <=? n) && (n <=? 57))%nat.

Definition is_space (a : ascii) : bool :=
  let n := nat_of_ascii a in
  (((9 <=? n) && (n <=? 13)) || ((28 <=? n) && (n <=? 32))
   || (n =? 133) || (n =? 160))%nat.

(** [[\d.]] *)
Definition is_digit_or_dot (a : ascii) : bool :=
  is_digit a || Ascii.eqb a "."%char.

Definition newline : ascii := "010"%char.

(** [.] under DOTALL, and without it. *)
Definition any_char (a : ascii) : bool := true.
Definition not_newline (a : ascii) : bool := negb (Ascii.eqb a newline).

Definition lower (a : ascii) : ascii :=
  let n := nat_of_ascii a in
  if ((65 <=? n) && (n <=? 90))%nat then ascii_of_nat (n + 32)%nat else a.

(** A literal character under IGNORECASE. *)
Definition eqb_nocase (a b : ascii) : bool := Ascii.eqb (lower a) (lower b).

Inductive regex :=
| Chr (f : ascii -> bool)            (* one character of a class *)
| Eps
| Cat (r1 r2 : regex)
| Alt (r1 r2 : regex)                (* r1|r2 *)
| Star (r : regex)                   (* r*  *)
| LazyStar (r : regex)               (* r*? *)
| Group (n : nat) (r : regex)        (* (r), the n-th group *)
| Ahead (r : regex)                  (* (?=r) *)
| EndZ                               (* \Z *)
| Dollar                             (* $ *)
| BolM                               (* ^ under MULTILINE *)
| EolM.                              (* $ under MULTILINE *)

Notation "r1 >> r2" := (Cat r1 r2) (at level 61, right associativity).

Definition Plus (r : regex) : regex := r >> Star r.
Definition LazyPlus (r : regex) : regex := r >> LazyStar r.

Fixpoint lit_chars (eq : ascii -> ascii -> bool) (s : text) : regex :=
  match s with
  | [] => Eps
  | a :: s' => Chr (eq a) >> lit_chars eq s'
  end.

Definition lit (s : string) : regex := lit_chars Ascii.eqb (T s).
Definition lit_nocase (s : string) : regex := lit_chars eqb_nocase (T s).

(** A position in the subject: the character before it and the text after. *)
Record cursor := Cursor { prev : option ascii; rest : text }.

Definition caps := list (nat * text).

Definition outcome := (caps * cursor)%type.

Definition cont := cursor -> caps -> option outcome.

Definition step (a : ascii) (s : text) : cursor := Cursor (Some a) s.

Definition orelse {A} (x y : option A) : option A :=
  match x with Some _ => x | None => y end.

Definition shorter (p' p : cursor) : bool :=
  length (rest p') <? length (rest p).

(** The text consumed between two positions of one subject. *)
Definition between (p p' : cursor) : text :=
  firstn (length (rest p) - length (rest p')) (rest p).

(** Greedy repetition: one more iteration first, the continuation second. An
    iteration that consumes nothing ends the loop. *)
Fixpoint greedy_loop (body : cont -> cont) (k : cont) (n : nat) : cont :=
  fun p c =>
    match n with
    | O => k p c
    | S n' =>
        orelse
          (body (fun p' c' =>
                   if shorter p' p then greedy_loop body k n' p' c' else None)
                p c)
          (k p c)
    end.

(** Lazy repetition: the continuation first. *)
Fixpoint lazy_loop (body : cont -> cont) (k : cont) (n : nat) : cont :=
  fun p c =>
    match n with
    | O => k p c
    | S n' =>
        orelse
          (k p c)
          (body (fun p' c' =>
                   if shorter p' p then lazy_loop body k n' p' c' else None)
                p c)
    end.

Definition final : cont := fun p c => Some (c, p).

Fixpoint run (r : regex) (k : cont) {struct r} : cont :=
  match r with
  | Chr f => fun p c =>
      match rest p with
      | a :: s => if f a then k (step a s) c else None
      | [] => None
      end
  | Eps => k
  | Cat r1 r2 => run r1 (run r2 k)
  | Alt r1 r2 => fun p c => orelse (run r1 k p c) (run r2 k p c)
  | Star r' => fun p c => greedy_loop (run r') k (length (rest p)) p c
  | LazyStar r' => fun p c => lazy_loop (run r') k (length (rest p)) p c
  | Group n r' => fun p c =>
      run r' (fun p' c' => k p' ((n, between p p') :: c')) p c
  | Ahead r' => fun p c =>
      match run r' final p c with
      | Some (c', _) => k p c'
      | None => None
      end
  | EndZ => fun p c =>
      match rest p with [] => k p c | _ => None end
  | Dollar => fun p c =>
      match rest p with
      | [] => k p c
      | [a] => if Ascii.eqb a newline then k p c else None
      | _ => None
      end
  | BolM => fun p c =>
      match prev p with
      | None => k p c
      | Some a => if Ascii.eqb a newline then k p c else None
      end
  | EolM => fun p c =>
      match rest p with
      | [] => k p c
      | a :: _ => if Ascii.eqb a newline then k p c else None
      end
  end.

Definition match_at (r : regex) (pv : option ascii) (s : text) : option outcome :=
  run r final (Cursor pv s) [].

(** [re.search]: the first start position, left to right, with a match. *)
Fixpoint search_from (r : regex) (pv : option ascii) (s : text) : option outcome :=
  match match_at r pv s with
  | Some m => Some m
  | None =>
      match s with
      | [] => None
      | a :: s' => search_from r (Some a) s'
      end
  end.

Definition search (r : regex) (s : text) : option caps :=
  option_map fst (search_from r None s).

(** [m.group(n)] *)
Fixpoint group (n : nat) (c : caps) : text :=
  match c with
  | [] => []
  | (i, t) :: c' => if Nat.eqb i n then t else group n c'
  end.

(** [re.finditer]: the successive matches, each search resuming where the
    previous match ended ([skip] counts the characters of a match still to be
    passed over). *)
Fixpoint scan (r : regex) (skip : nat) (pv : option ascii) (s : text) : list caps :=
  match skip with
  | S n =>
      match s with
      | [] => []
      | a :: s' => scan r n (Some a) s'
      end
  | O =>
      match match_at r pv s with
      | Some (c, p') =>
          c :: match s with
               | [] => []
               | a :: s' => scan r (length s - length (rest p') - 1) (Some a) s'
               end
      | None =>
          match s with
          | [] => []
          | a :: s' => scan r 0 (Some a) s'
          end
      end
  end.

Definition finditer (r : regex) (s : text) : list caps := scan r 0 None s.

(** [re.findall] for a pattern with one group, and with three. *)
Definition findall1 (r : regex) (s : text) : list text :=
  map (group 1) (finditer r s).

Definition findall3 (r : regex) (s : text) : list (text * text * text) :=
  map (fun c => (group 1 c, group 2 c, group 3 c)) (finditer r s).

End Re.

Import Re.

Local Open Scope Z_scope.

(** ** [int] and [float]

    Both are applied only to captured groups, which are strings over
    [[0-9.]]; on any other string the model raises [ValueError]. *)

Definition digit_val (a : ascii) : Z := Z.of_nat (nat_of_ascii a) - 48.

Definition digits_val (s : text) : Z :=
  fold_left (fun acc a => 10 * acc + digit_val a) s 0.

Definition all_digits (s : text) : bool := forallb is_digit s.

Definition is_nil {A} (l : list A) : bool :=
  match l with [] => true | _ => false end.

Definition py_int (s : text) : result Z :=
  if all_digits s && negb (is_nil s) then Ok (digits_val s)
  else Raise ValueError.

Fixpoint span_digits (s : text) : text * text :=
  match s with
  | a :: s' =>
      if is_digit a then let (d, r) := span_digits s' in (a :: d, r)
      else ([], s)
  | [] => ([], [])
  end.

Fixpoint pow10 (n : nat) : positive :=
  match n with
  | O => 1%positive
  | S n' => (10 * pow10 n')%positive
  end.

(** The number written [ip.fp]. *)
Definition decimal (ip fp : text) : Q :=
  Qred (digits_val (ip ++ fp) # pow10 (length fp)).

(** [float(s)]: digits with at most one point and at least one digit. *)
Definition py_float (s : text) : result Q :=
  let (ip, r) := span_digits s in
  match r with
  | [] => if is_nil ip then Raise ValueError else Ok (decimal ip [])
  | a :: fp =>
      if Ascii.eqb a "."%char && all_digits fp && negb (is_nil ip && is_nil fp)
      then Ok (decimal ip fp)
      else Raise ValueError
  end.

(** [a / b] on floats. *)
Definition py_div (a b : Q) : result Q :=
  if Qeq_bool b 0 then Raise ZeroDivisionError else Ok (Qred (a / b)).

(** [n / x] for an [int] and a [float].  The integer is converted to a float
    first, which raises [OverflowError] when it rounds to 2^1024, that is
    from 2^1024 - 2^970 on.  The divisor is a binary64 number: a literal
    whose value is at most 2^-1075 is read as 0.0, and dividing by it raises
    [ZeroDivisionError]. *)
Definition float_int_limit : Z := 2 ^ 1024 - 2 ^ 970.

Definition float_zero_bound : Q := 1 # (2 ^ 1075)%positive.

Definition is_float_zero (x : Q) : bool := Qle_bool x float_zero_bound.

Definition py_int_div (n : Z) (x : Q) : result Q :=
  if float_int_limit <=? n then Raise OverflowError
  else if is_float_zero x then Raise ZeroDivisionError
  else Ok (Qred (inject_Z n / x)).

(** ** charts.py *)

Module Charts.

Record row := Row { Threads : Z; ChunkMB : Q; Throughput : Q }.

(** r"===\s*ENCRYPTION THREAD/CHUNK SWEEP\s*===(.*?)(?===|\Z)", DOTALL *)
Definition enc_re : regex :=
  lit "===" >> Star (Chr is_space) >> lit "ENCRYPTION THREAD/CHUNK SWEEP"
  >> Star (Chr is_space) >> lit "===" >> Group 1 (LazyStar (Chr any_char))
  >> Ahead (Alt (lit "==") EndZ).

(** r"===\s*DECRYPTION THREAD/CHUNK SWEEP\s*===(.*?)(?===|\Z)", DOTALL *)
Definition dec_re : regex :=
  lit "===" >> Star (Chr is_space) >> lit "DECRYPTION THREAD/CHUNK SWEEP"
  >> Star (Chr is_space) >> lit "===" >> Group 1 (LazyStar (Chr any_char))
  >> Ahead (Alt (lit "==") EndZ).

Definition enc_sec (txt : text) : option caps := search enc_re txt.
Definition dec_sec (txt : text) : option caps := search dec_re txt.

(** r"(\d+)\s*\|\s*([\d.]+)\s*\|\s*([\d.]+)" *)
Definition pat : regex :=
  Group 1 (Plus (Chr is_digit)) >> Star (Chr is_space) >> lit "|"
  >> Star (Chr is_space) >> Group 2 (Plus (Chr is_digit_or_dot))
  >> Star (Chr is_space) >> lit "|" >> Star (Chr is_space)
  >> Group 3 (Plus (Chr is_digit_or_dot)).

Definition make_row (m : text * text * text) : result row :=
  let '(th, ch, thr) := m in
  t <- py_int th ;; c <- py_float ch ;; p <- py_float thr ;;
  Ok (Row t c p).

(** The loop of [extract] over a section body. *)
Definition rows_of_body (body : text) : result (list row) :=
  for_each make_row (findall3 pat body).

Definition extract (section : option caps) : result (list row) :=
  match section with
  | None => Ok []
  | Some m => rows_of_body (group 1 m)
  end.

Definition parse_mylib_results (txt : text) : result (list row * list row) :=
  enc_df <- extract (enc_sec txt) ;;
  dec_df <- extract (dec_sec txt) ;;
  Ok (enc_df, dec_df).

Record ossl_row :=
  OsslRow { BlockBytes : Z; ThroughputMBps : Q; Label : string }.

Definition label : string := "OpenSSL AES-128-GCM".

(** r"^type\s+((?:\d+\s+bytes\s+)+)\s*$", MULTILINE *)
Definition header_re : regex :=
  BolM >> lit "type" >> Plus (Chr is_space)
  >> Group 1 (Plus (Plus (Chr is_digit) >> Plus (Chr is_space)
                    >> lit "bytes" >> Plus (Chr is_space)))
  >> Star (Chr is_space) >> EolM.

(** r"^AES-128-GCM\s+(.+?)\s*$", MULTILINE *)
Definition row_re : regex :=
  BolM >> lit "AES-128-GCM" >> Plus (Chr is_space)
  >> Group 1 (LazyPlus (Chr not_newline)) >> Star (Chr is_space) >> EolM.

(** r"on\s+(\d+)\s+size blocks:.*? in\s+([\d.]+)s", IGNORECASE
    (the local [pat] of [parse_openssl_results]) *)
Definition blocks_pat : regex :=
  lit_nocase "on" >> Plus (Chr is_space) >> Group 1 (Plus (Chr is_digit))
  >> Plus (Chr is_space) >> lit_nocase "size blocks:"
  >> LazyStar (Chr not_newline) >> lit_nocase " in" >> Plus (Chr is_space)
  >> Group 2 (Plus (Chr is_digit_or_dot)) >> lit_nocase "s".

(** r"on\s+(\d+)\s+size blocks:\s*(\d+)\s+AES-128-GCM ops in\s+([\d.]+)s",
    IGNORECASE *)
Definition pat2 : regex :=
  lit_nocase "on" >> Plus (Chr is_space) >> Group 1 (Plus (Chr is_digit))
  >> Plus (Chr is_space) >> lit_nocase "size blocks:" >> Star (Chr is_space)
  >> Group 2 (Plus (Chr is_digit)) >> Plus (Chr is_space)
  >> lit_nocase "AES-128-GCM ops in" >> Plus (Chr is_space)
  >> Group 3 (Plus (Chr is_digit_or_dot)) >> lit_nocase "s".

(** r"(\d+)\s+bytes" and r"([\d.]+)k" *)
Definition bytes_re : regex :=
  Group 1 (Plus (Chr is_digit)) >> Plus (Chr is_space) >> lit "bytes".
Definition kval_re : regex :=
  Group 1 (Plus (Chr is_digit_or_dot)) >> lit "k".

(** [sorted(data, key=lambda r: r["BlockBytes"])]: a stable sort. *)
Fixpoint insert_by_block (x : ossl_row) (l : list ossl_row) : list ossl_row :=
  match l with
  | [] => [x]
  | y :: l' =>
      if BlockBytes y <? BlockBytes x then y :: insert_by_block x l'
      else x :: l
  end.

Definition sort_by_block (l : list ossl_row) : list ossl_row :=
  fold_right insert_by_block [] l.

(** The first loop of the fallback: it fills [sizes] and [times], which are
    not used afterwards, but its conversions run. *)
Definition size_and_time (m : caps) : result (Z * Q) :=
  s <- py_int (group 1 m) ;; t <- py_float (group 2 m) ;; Ok (s, t).

Definition block_row (m : caps) : result ossl_row :=
  block <- py_int (group 1 m) ;;
  ops <- py_int (group 2 m) ;;
  secs <- py_float (group 3 m) ;;
  bytes_per_sec <- py_int_div (ops * block) secs ;;
  mbps <- py_div bytes_per_sec (inject_Z 1000000) ;;
  Ok (OsslRow block mbps label).

Definition fallback (txt : text) : result (list ossl_row) :=
  _ <- for_each size_and_time (finditer blocks_pat txt) ;;
  data <- for_each block_row (finditer pat2 txt) ;;
  Ok (sort_by_block data).

Definition zip_rows (size_vals : list Z) (mbps : list Q) : list ossl_row :=
  map (fun sv => OsslRow (fst sv) (snd sv) label) (combine size_vals mbps).

(** [df.sort_values("BlockBytes")]: modelled by the same stable sort; pandas
    leaves the order of rows with equal keys unspecified. *)
Definition parse_openssl_results (txt : text) : result (list ossl_row) :=
  match search header_re txt, search row_re txt with
  | Some header_match, Some row_match =>
      let sizes_str := group 1 header_match in
      size_vals <- for_each py_int (findall1 bytes_re sizes_str) ;;
      row_vals <- for_each py_float (findall1 kval_re (group 1 row_match)) ;;
      let n := Nat.min (length size_vals) (length row_vals) in
      let size_vals := firstn n size_vals in
      let row_vals := firstn n row_vals in
      mbps <- for_each (fun v => py_div v (inject_Z 1000)) row_vals ;;
      Ok (sort_by_block (zip_rows size_vals mbps))
  | _, _ => fallback txt
  end.

End Charts.

(** ** test_parser.py *)

Module TestParser.

Record row := Row { Threads : Z; ChunkMB : Z; Throughput : Q }.

(** r'=== ENCRYPTION THREAD/CHUNK SWEEP ===(.*?)(?===|$)', DOTALL *)
Definition encrypt_re : regex :=
  lit "=== ENCRYPTION THREAD/CHUNK SWEEP ==="
  >> Group 1 (LazyStar (Chr any_char)) >> Ahead (Alt (lit "==") Dollar).

(** r'=== DECRYPTION THREAD/CHUNK SWEEP ===(.*?)(?===|$)', DOTALL *)
Definition decrypt_re : regex :=
  lit "=== DECRYPTION THREAD/CHUNK SWEEP ==="
  >> Group 1 (LazyStar (Chr any_char)) >> Ahead (Alt (lit "==") Dollar).

Definition encrypt_section (content : text) : option caps :=
  search encrypt_re content.
Definition decrypt_section (content : text) : option caps :=
  search decrypt_re content.

(** r'(\d+)\s*\|\s*(\d+)\s*\|\s*([\d.]+)' *)
Definition pattern : regex :=
  Group 1 (Plus (Chr is_digit)) >> Star (Chr is_space) >> lit "|"
  >> Star (Chr is_space) >> Group 2 (Plus (Chr is_digit))
  >> Star (Chr is_space) >> lit "|" >> Star (Chr is_space)
  >> Group 3 (Plus (Chr is_digit_or_dot)).

Definition make_row (m : text * text * text) : result row :=
  let '(m0, m1, m2) := m in
  threads <- py_int m0 ;; chunk_mb <- py_int m1 ;; throughput <- py_float m2 ;;
  Ok (Row threads chunk_mb throughput).

Definition extract_data (section_text : text) : result (list row) :=
  if is_nil section_text then Ok []
  else for_each make_row (findall3 pattern section_text).

Definition section_text (section : option caps) : text :=
  match section with
  | Some m => group 1 m
  | None => []
  end.

Definition parse_test_results (content : text) : result (list row * list row) :=
  encrypt_data <- extract_data (section_text (encrypt_section content)) ;;
  decrypt_data <- extract_data (section_text (decrypt_section content)) ;;
  Ok (encrypt_data, decrypt_data).

End TestParser.

(** * Facts about the matcher *)

Local Open Scope nat_scope.

(** The character before the position reached after reading [u]. *)
Definition after (pv : option ascii) (u : text) : option ascii :=
  fold_left (fun _ a => Some a) u pv.

Fixpoint strip_prefix (l s : text) : option text :=
  match l, s with
  | [], _ => Some s
  | a :: l', b :: s' => if Ascii.eqb a b then strip_prefix l' s' else None
  | _ :: _, [] => None
  end.

Fixpoint take_while (f : ascii -> bool) (s : text) : text :=
  match s with
  | a :: s' => if f a then a :: take_while f s' else []
  | [] => []
  end.

Fixpoint drop_while (f : ascii -> bool) (s : text) : text :=
  match s with
  | a :: s' => if f a then drop_while f s' else s
  | [] => []
  end.

(** Does [s] begin with a character of the class? *)
Definition starts_in (f : ascii -> bool) (s : text) : bool :=
  match s with
  | a :: _ => f a
  | [] => false
  end.

(** [f*] followed by [k], as a recursion on the subject. *)
Fixpoint greedy_chr (f : ascii -> bool) (k : cont) (pv : option ascii)
    (s : text) (c : caps) : option outcome :=
  match s with
  | a :: s' =>
      if f a then orelse (greedy_chr f k (Some a) s' c) (k (Cursor pv s) c)
      else k (Cursor pv s) c
  | [] => k (Cursor pv []) c
  end.

(** [f*?] followed by [k]. *)
Fixpoint lazy_chr (f : ascii -> bool) (k : cont) (pv : option ascii)
    (s : text) (c : caps) : option outcome :=
  match s with
  | a :: s' =>
      orelse (k (Cursor pv s) c)
             (if f a then lazy_chr f k (Some a) s' c else None)
  | [] => k (Cursor pv []) c
  end.

Lemma strip_prefix_app l s : strip_prefix l (l ++ s) = Some s.
Proof.
  induction l as [|a l IH]; simpl; [reflexivity|].
  rewrite Ascii.eqb_refl. exact IH.
Qed.

Lemma strip_prefix_Some l s s' : strip_prefix l s = Some s' -> s = l ++ s'.
Proof.
  revert s. induction l as [|a l IH]; simpl; intros s H.
  - congruence.
  - destruct s as [|b s]; [discriminate|].
    destruct (Ascii.eqb a b) eqn:E; [|discriminate].
    apply Ascii.eqb_eq in E. subst b. f_equal. auto.
Qed.

Lemma take_drop_while f s : take_while f s ++ drop_while f s = s.
Proof.
  induction s as [|a s IH]; simpl; [reflexivity|].
  destruct (f a); simpl; congruence.
Qed.

Lemma take_while_all f s : forallb f (take_while f s) = true.
Proof.
  induction s as [|a s IH]; simpl; [reflexivity|].
  destruct (f a) eqn:E; simpl; [rewrite E|]; auto.
Qed.

Lemma take_while_app f u v :
  forallb f u = true -> starts_in f v = false ->
  take_while f (u ++ v) = u.
Proof.
  intros Hu Hv. induction u as [|a u IH]; simpl in *.
  - destruct v as [|b v]; simpl in *; [reflexivity|]. now rewrite Hv.
  - apply andb_true_iff in Hu as [Ha Hu]. rewrite Ha. f_equal. auto.
Qed.

Lemma drop_while_app f u v :
  forallb f u = true -> starts_in f v = false ->
  drop_while f (u ++ v) = v.
Proof.
  intros Hu Hv. induction u as [|a u IH]; simpl in *.
  - destruct v as [|b v]; simpl in *; [reflexivity|]. now rewrite Hv.
  - apply andb_true_iff in Hu as [Ha Hu]. rewrite Ha. auto.
Qed.

Lemma between_app pv pv' u v : between (Cursor pv (u ++ v)) (Cursor pv' v) = u.
Proof.
  unfold between. simpl. rewrite length_app.
  replace (length u + length v - length v) with (length u) by lia.
  rewrite firstn_app, firstn_all, Nat.sub_diag. simpl. apply app_nil_r.
Qed.

(** Literals. *)
Lemma run_lit l k pv s c :
  run (lit_chars Ascii.eqb l) k (Cursor pv s) c =
  match strip_prefix l s with
  | Some s' => k (Cursor (after pv l) s') c
  | None => None
  end.
Proof.
  revert pv s. induction l as [|a l IH]; intros pv s; simpl; [reflexivity|].
  destruct s as [|b s]; [reflexivity|].
  destruct (Ascii.eqb a b) eqn:E; [|reflexivity].
  apply Ascii.eqb_eq in E. subst b. unfold step. apply IH.
Qed.

(** Repetition of a class. *)
Lemma greedy_loop_chr f k n pv s c :
  length s <= n ->
  greedy_loop (run (Chr f)) k n (Cursor pv s) c = greedy_chr f k pv s c.
Proof.
  revert pv s. induction n as [|n IH]; intros pv s Hn.
  - destruct s; simpl in *; [reflexivity|lia].
  - destruct s as [|a s]; simpl; [reflexivity|].
    destruct (f a); [|reflexivity].
    unfold shorter, step. simpl.
    replace (length s <? S (length s)) with true
      by (symmetry; apply Nat.ltb_lt; lia).
    rewrite IH by (simpl in Hn; lia). reflexivity.
Qed.

Lemma run_star_chr f k pv s c :
  run (Star (Chr f)) k (Cursor pv s) c = greedy_chr f k pv s c.
Proof. simpl. apply greedy_loop_chr. apply Nat.le_refl. Qed.

Lemma lazy_loop_chr f k n pv s c :
  length s <= n ->
  lazy_loop (run (Chr f)) k n (Cursor pv s) c = lazy_chr f k pv s c.
Proof.
  revert pv s. induction n as [|n IH]; intros pv s Hn.
  - destruct s; simpl in *; [reflexivity|lia].
  - destruct s as [|a s]; simpl.
    + destruct (k (Cursor pv []) c); reflexivity.
    + destruct (k (Cursor pv (a :: s)) c); simpl; [reflexivity|].
      destruct (f a); [|reflexivity].
      unfold shorter, step. simpl.
      replace (length s <? S (length s)) with true
        by (symmetry; apply Nat.ltb_lt; lia).
      apply IH. simpl in Hn. lia.
Qed.

Lemma run_lazy_chr f k pv s c :
  run (LazyStar (Chr f)) k (Cursor pv s) c = lazy_chr f k pv s c.
Proof. simpl. apply lazy_loop_chr. apply Nat.le_refl. Qed.

(** The longest run of the class is tried first. *)
Lemma greedy_chr_longest f k pv u v c o :
  forallb f u = true -> starts_in f v = false ->
  k (Cursor (after pv u) v) c = Some o ->
  greedy_chr f k pv (u ++ v) c = Some o.
Proof.
  revert pv. induction u as [|a u IH]; intros pv Hu Hv Hk; simpl in *.
  - destruct v as [|b v]; simpl in *; [exact Hk|]. rewrite Hv. exact Hk.
  - apply andb_true_iff in Hu as [Ha Hu]. rewrite Ha.
    rewrite (IH (Some a) Hu Hv Hk). reflexivity.
Qed.

(** When what follows cannot begin inside the class, only the longest run
    is possible. *)
Lemma greedy_chr_exact f k pv s c :
  (forall pv' s', starts_in f s' = true -> k (Cursor pv' s') c = None) ->
  greedy_chr f k pv s c =
  k (Cursor (after pv (take_while f s)) (drop_while f s)) c.
Proof.
  intros Hk. revert pv. induction s as [|a s IH]; intros pv; simpl.
  - reflexivity.
  - destruct (f a) eqn:E.
    + rewrite IH. simpl.
      destruct (k (Cursor _ (drop_while f s)) c) eqn:K; simpl; [reflexivity|].
      apply Hk. simpl. exact E.
    + reflexivity.
Qed.

(** * Locating a section

    What the section patterns compute, written as a scan of the text:
    [find_section strip stop] finds the first position at which [strip]
    recognises a header and returns the text after it up to the first
    position at which [stop] holds. *)

Definition starts_with (l s : text) : bool :=
  match strip_prefix l s with Some _ => true | None => false end.

Fixpoint until (stop : text -> bool) (s : text) : text :=
  match s with
  | [] => []
  | a :: s' => if stop s then [] else a :: until stop s'
  end.

Fixpoint find_section (strip : text -> option text) (stop : text -> bool)
    (s : text) : option text :=
  match strip s with
  | Some b => Some (until stop b)
  | None =>
      match s with
      | [] => None
      | _ :: s' => find_section strip stop s'
      end
  end.

(** Just before "==". *)
Definition stop_eqeq (s : text) : bool := starts_with (T "==") s.

(** Just before "==", or before a newline that ends the input. *)
Definition stop_eqeq_or_last_newline (s : text) : bool :=
  starts_with (T "==") s
  || match s with [a] => Ascii.eqb a newline | _ => false end.

(** A header "===", name, "===" with optional white space around the name. *)
Definition strip_header_ws (name : string) (s : text) : option text :=
  match strip_prefix (T "===") s with
  | Some s1 =>
      match strip_prefix (T name) (drop_while is_space s1) with
      | Some s2 => strip_prefix (T "===") (drop_while is_space s2)
      | None => None
      end
  | None => None
  end.

Definition sweep_re_ws (name : string) : regex :=
  lit "===" >> Star (Chr is_space) >> lit name
  >> Star (Chr is_space) >> lit "===" >> Group 1 (LazyStar (Chr any_char))
  >> Ahead (Alt (lit "==") EndZ).

Definition sweep_re_lit (header : string) : regex :=
  lit header
  >> Group 1 (LazyStar (Chr any_char)) >> Ahead (Alt (lit "==") Dollar).

Lemma run_cat r1 r2 k : run (r1 >> r2) k = run r1 (run r2 k).
Proof. reflexivity. Qed.

Lemma run_group n r k p c :
  run (Group n r) k p c =
  run r (fun p' c' => k p' ((n, between p p') :: c')) p c.
Proof. reflexivity. Qed.

Lemma run_ahead r k p c :
  run (Ahead r) k p c =
  match run r final p c with
  | Some (c', _) => k p c'
  | None => None
  end.
Proof. reflexivity. Qed.

Lemma run_alt r1 r2 k p c :
  run (Alt r1 r2) k p c = orelse (run r1 k p c) (run r2 k p c).
Proof. reflexivity. Qed.

Lemma ahead_eqeq_Z pv s c :
  run (Ahead (Alt (lit "==") EndZ)) final (Cursor pv s) c =
  if stop_eqeq s || is_nil s then Some (c, Cursor pv s) else None.
Proof.
  rewrite run_ahead, run_alt. unfold lit. rewrite run_lit.
  unfold stop_eqeq, starts_with.
  destruct (strip_prefix (T "==") s); simpl; [reflexivity|].
  destruct s; reflexivity.
Qed.

Lemma ahead_eqeq_dollar pv s c :
  run (Ahead (Alt (lit "==") Dollar)) final (Cursor pv s) c =
  if stop_eqeq_or_last_newline s || is_nil s then Some (c, Cursor pv s)
  else None.
Proof.
  rewrite run_ahead, run_alt. unfold lit. rewrite run_lit.
  unfold stop_eqeq_or_last_newline, starts_with.
  destruct (strip_prefix (T "==") s); simpl; [reflexivity|].
  destruct s as [|a [|b s]]; simpl; try reflexivity.
  destruct (Ascii.eqb a newline); reflexivity.
Qed.

(** The lazy [(.*?)] in front of a look-ahead stops at the first position that
    satisfies it. *)
Lemma lazy_any_until (stop : text -> bool) (k : cont) p0 pv0 u :
  (forall pv s c, k (Cursor pv s) c =
                  if stop s || is_nil s then Some (c, Cursor pv s) else None) ->
  forall s pv c, p0 = Cursor pv0 (u ++ s) ->
  exists p',
    lazy_chr any_char (fun p' c' => k p' ((1, between p0 p') :: c')) pv s c
    = Some ((1, u ++ until stop s) :: c, p').
Proof.
  intros Hk s. revert u.
  induction s as [|a s IH]; intros u pv c ->.
  - simpl. rewrite Hk. rewrite orb_true_r. eexists. f_equal. f_equal.
    f_equal. f_equal. unfold between. simpl. rewrite Nat.sub_0_r.
    apply firstn_all.
  - simpl. rewrite Hk. simpl is_nil. rewrite orb_false_r.
    destruct (stop (a :: s)) eqn:E.
    + simpl. eexists. f_equal. f_equal. f_equal. f_equal.
      rewrite app_nil_r. apply between_app.
    + simpl. destruct (IH (u ++ [a]) (Some a) c) as [p' Hp'].
      { now rewrite <- app_assoc. }
      exists p'. rewrite Hp'. now rewrite <- app_assoc.
Qed.

Lemma group_section_Z pv s c :
  exists p',
    run (Group 1 (LazyStar (Chr any_char)) >> Ahead (Alt (lit "==") EndZ))
        final (Cursor pv s) c
    = Some ((1, until stop_eqeq s) :: c, p').
Proof.
  rewrite run_cat, run_group, run_lazy_chr.
  apply (lazy_any_until stop_eqeq _ (Cursor pv s) pv []);
    [intros; apply ahead_eqeq_Z | reflexivity].
Qed.

Lemma group_section_dollar pv s c :
  exists p',
    run (Group 1 (LazyStar (Chr any_char)) >> Ahead (Alt (lit "==") Dollar))
        final (Cursor pv s) c
    = Some ((1, until stop_eqeq_or_last_newline s) :: c, p').
Proof.
  rewrite run_cat, run_group, run_lazy_chr.
  apply (lazy_any_until stop_eqeq_or_last_newline _ (Cursor pv s) pv []);
    [intros; apply ahead_eqeq_dollar | reflexivity].
Qed.

(** A literal that does not begin with white space fails on white space. *)
Lemma lit_fails_on_space a l k pv s c :
  is_space a = false -> starts_in is_space s = true ->
  run (lit_chars Ascii.eqb (a :: l)) k (Cursor pv s) c = None.
Proof.
  intros Ha Hs. rewrite run_lit. destruct s as [|b s]; [reflexivity|].
  simpl in *. destruct (Ascii.eqb a b) eqn:E; [|reflexivity].
  apply Ascii.eqb_eq in E. congruence.
Qed.

Lemma match_sweep_ws (name : string) a l pv s :
  T name = a :: l -> is_space a = false ->
  option_map fst (match_at (sweep_re_ws name) pv s) =
  option_map (fun b => [(1, until stop_eqeq b)]) (strip_header_ws name s).
Proof.
  intros Hname Ha. unfold match_at, sweep_re_ws, strip_header_ws.
  rewrite run_cat. unfold lit at 1. rewrite run_lit.
  destruct (strip_prefix (T "===") s) as [s1|]; [|reflexivity].
  rewrite run_cat, run_star_chr, greedy_chr_exact.
  2:{ intros pv' s' Hs'. rewrite run_cat. unfold lit at 1. rewrite Hname.
      now apply lit_fails_on_space. }
  rewrite run_cat. unfold lit at 1. rewrite run_lit.
  destruct (strip_prefix (T name) (drop_while is_space s1)) as [s2|];
    [|reflexivity].
  rewrite run_cat, run_star_chr, greedy_chr_exact.
  2:{ intros pv' s' Hs'. rewrite run_cat. unfold lit at 1.
      now apply lit_fails_on_space. }
  rewrite run_cat. unfold lit at 1. rewrite run_lit.
  destruct (strip_prefix (T "===") (drop_while is_space s2)) as [s3|];
    [|reflexivity].
  match goal with
  | |- context [run _ final (Cursor ?q s3) ?c] =>
      destruct (group_section_Z q s3 c) as [p' ->]
  end.
  reflexivity.
Qed.

Lemma match_sweep_lit (header : string) pv s :
  option_map fst (match_at (sweep_re_lit header) pv s) =
  option_map (fun b => [(1, until stop_eqeq_or_last_newline b)])
             (strip_prefix (T header) s).
Proof.
  unfold match_at, sweep_re_lit.
  rewrite run_cat. unfold lit at 1. rewrite run_lit.
  destruct (strip_prefix (T header) s) as [s1|]; [|reflexivity].
  match goal with
  | |- context [run _ final (Cursor ?q s1) ?c] =>
      destruct (group_section_dollar q s1 c) as [p' ->]
  end.
  reflexivity.
Qed.

Lemma search_find_section r strip stop :
  (forall pv s, option_map fst (match_at r pv s) =
                option_map (fun b => [(1, until stop b)]) (strip s)) ->
  forall s, option_map (group 1) (search r s) = find_section strip stop s.
Proof.
  intros H s. unfold search. generalize (@None ascii) as pv.
  induction s as [|a s IH]; intros pv; simpl; specialize (H pv).
  - specialize (H []). destruct (match_at r pv []) as [[c p]|];
      destruct (strip []); simpl in *; try discriminate; [|reflexivity].
    inversion H; subst. simpl. reflexivity.
  - specialize (H (a :: s)). destruct (match_at r pv (a :: s)) as [[c p]|];
      destruct (strip (a :: s)); simpl in *; try discriminate; [|apply IH].
    inversion H; subst. simpl. reflexivity.
Qed.

Definition enc_name : string := "ENCRYPTION THREAD/CHUNK SWEEP".
Definition dec_name : string := "DECRYPTION THREAD/CHUNK SWEEP".
Definition enc_header : string := "=== ENCRYPTION THREAD/CHUNK SWEEP ===".
Definition dec_header : string := "=== DECRYPTION THREAD/CHUNK SWEEP ===".

Lemma enc_sec_find txt :
  option_map (group 1) (Charts.enc_sec txt) =
  find_section (strip_header_ws enc_name) stop_eqeq txt.
Proof.
  apply (search_find_section (sweep_re_ws enc_name)). intros pv s.
  eapply match_sweep_ws; reflexivity.
Qed.

Lemma dec_sec_find txt :
  option_map (group 1) (Charts.dec_sec txt) =
  find_section (strip_header_ws dec_name) stop_eqeq txt.
Proof.
  apply (search_find_section (sweep_re_ws dec_name)). intros pv s.
  eapply match_sweep_ws; reflexivity.
Qed.

Lemma encrypt_section_find txt :
  option_map (group 1) (TestParser.encrypt_section txt) =
  find_section (strip_prefix (T enc_header)) stop_eqeq_or_last_newline txt.
Proof.
  apply (search_find_section (sweep_re_lit enc_header)). intros pv s.
  apply match_sweep_lit.
Qed.

Lemma decrypt_section_find txt :
  option_map (group 1) (TestParser.decrypt_section txt) =
  find_section (strip_prefix (T dec_header)) stop_eqeq_or_last_newline txt.
Proof.
  apply (search_find_section (sweep_re_lit dec_header)). intros pv s.
  apply match_sweep_lit.
Qed.

(** * Rows of a section body

    Both row patterns are instances of one pattern, which differ in the class
    of the second field. *)

Definition triplet_re (f2 : ascii -> bool) : regex :=
  Group 1 (Plus (Chr is_digit)) >> Star (Chr is_space) >> lit "|"
  >> Star (Chr is_space) >> Group 2 (Plus (Chr f2))
  >> Star (Chr is_space) >> lit "|" >> Star (Chr is_space)
  >> Group 3 (Plus (Chr is_digit_or_dot)).

Lemma pat_triplet : Charts.pat = triplet_re is_digit_or_dot.
Proof. reflexivity. Qed.

Lemma pattern_triplet : TestParser.pattern = triplet_re is_digit.
Proof. reflexivity. Qed.

(** A data line, field by field: threads, white space, "|", white space,
    chunk, white space, "|", white space, throughput. *)
Record line := Line {
  l_threads : text; l_w1 : text; l_w2 : text;
  l_chunk : text; l_w3 : text; l_w4 : text;
  l_throughput : text }.

Definition bar : ascii := "|"%char.

(** The line, followed by [s]. *)
Definition line_text (d : line) (s : text) : text :=
  l_threads d ++ l_w1 d ++ bar :: l_w2 d ++ l_chunk d ++ l_w3 d
  ++ bar :: l_w4 d ++ l_throughput d ++ s.

Definition fields (d : line) : text * text * text :=
  (l_threads d, l_chunk d, l_throughput d).

Definition line_ok (f2 : ascii -> bool) (d : line) : bool :=
  negb (is_nil (l_threads d)) && forallb is_digit (l_threads d)
  && forallb is_space (l_w1 d) && forallb is_space (l_w2 d)
  && negb (is_nil (l_chunk d)) && forallb f2 (l_chunk d)
  && forallb is_space (l_w3 d) && forallb is_space (l_w4 d)
  && negb (is_nil (l_throughput d)) && forallb is_digit_or_dot (l_throughput d).

(** A body is a sequence of data lines and of stretches of text that contain
    no digit. *)
Inductive item :=
| Junk (j : text)
| Data (d : line).

Fixpoint flatten (l : list item) : text :=
  match l with
  | [] => []
  | Junk j :: l' => j ++ flatten l'
  | Data d :: l' => line_text d (flatten l')
  end.

Fixpoint data_of (l : list item) : list (text * text * text) :=
  match l with
  | [] => []
  | Junk _ :: l' => data_of l'
  | Data d :: l' => fields d :: data_of l'
  end.

Definition no_digit (s : text) : bool := forallb (fun a => negb (is_digit a)) s.

(** Each data line is well formed, and its last field is not continued by the
    text that follows it. *)
Fixpoint body_ok (f2 : ascii -> bool) (l : list item) : bool :=
  match l with
  | [] => true
  | Junk j :: l' => no_digit j && body_ok f2 l'
  | Data d :: l' =>
      line_ok f2 d && negb (starts_in is_digit_or_dot (flatten l'))
      && body_ok f2 l'
  end.

(** Character classes. *)

Lemma space_not_digit_or_dot a : is_space a = true -> is_digit_or_dot a = false.
Proof.
  destruct a as [[] [] [] [] [] [] [] []]; vm_compute; congruence.
Qed.

Lemma digit_is_digit_or_dot a : is_digit a = true -> is_digit_or_dot a = true.
Proof. unfold is_digit_or_dot. intros ->. reflexivity. Qed.

Lemma space_not_digit a : is_space a = true -> is_digit a = false.
Proof.
  intros H. apply space_not_digit_or_dot in H. unfold is_digit_or_dot in H.
  now apply orb_false_iff in H.
Qed.

Lemma digit_or_dot_not_space a : is_digit_or_dot a = true -> is_space a = false.
Proof.
  intros H. destruct (is_space a) eqn:E; [|reflexivity].
  apply space_not_digit_or_dot in E. congruence.
Qed.

Lemma starts_in_app f g u v :
  forallb g u = true -> (forall a, g a = true -> f a = false) ->
  starts_in f v = false -> starts_in f (u ++ v) = false.
Proof.
  intros Hu Hd Hv. destruct u as [|a u]; simpl in *; [exact Hv|].
  apply andb_true_iff in Hu as [Ha _]. auto.
Qed.

Lemma starts_in_nonempty f g u v :
  is_nil u = false -> forallb g u = true ->
  (forall a, g a = true -> f a = false) -> starts_in f (u ++ v) = false.
Proof.
  intros Hn Hu Hd. destruct u as [|a u]; simpl in *; [discriminate|].
  apply andb_true_iff in Hu as [Ha _]. auto.
Qed.

(** Pieces of a pattern, run on a text that begins with what they read. *)

Lemma run_star_longest f k pv u v c o :
  forallb f u = true -> starts_in f v = false ->
  k (Cursor (after pv u) v) c = Some o ->
  run (Star (Chr f)) k (Cursor pv (u ++ v)) c = Some o.
Proof. intros. rewrite run_star_chr. now apply greedy_chr_longest. Qed.

Lemma run_group_plus_longest f n k pv u v c o :
  is_nil u = false -> forallb f u = true -> starts_in f v = false ->
  k (Cursor (after pv u) v) ((n, u) :: c) = Some o ->
  run (Group n (Plus (Chr f))) k (Cursor pv (u ++ v)) c = Some o.
Proof.
  intros Hn Hu Hv Hk. destruct u as [|a u]; [discriminate|].
  simpl in Hu. apply andb_true_iff in Hu as [Ha Hu].
  rewrite run_group. unfold Plus. rewrite run_cat.
  change (run (Chr f) ?k' (Cursor pv ((a :: u) ++ v)) c)
    with (if f a then k' (step a (u ++ v)) c else None).
  rewrite Ha. unfold step. apply run_star_longest; auto.
  rewrite (between_app pv _ (a :: u) v). exact Hk.
Qed.

Lemma run_bar k pv v c :
  run (lit "|") k (Cursor pv (bar :: v)) c = k (Cursor (Some bar) v) c.
Proof. reflexivity. Qed.

Section Triplet.

Variable f2 : ascii -> bool.
Hypothesis f2_sub : forall a, f2 a = true -> is_digit_or_dot a = true.

Lemma space_not_f2 a : is_space a = true -> f2 a = false.
Proof.
  intros H. destruct (f2 a) eqn:E; [|reflexivity].
  apply f2_sub in E. apply space_not_digit_or_dot in H. congruence.
Qed.

Lemma f2_not_space a : f2 a = true -> is_space a = false.
Proof. intros H. apply digit_or_dot_not_space. auto. Qed.

Lemma f2_not_bar : f2 bar = false.
Proof.
  destruct (f2 bar) eqn:E; [|reflexivity]. apply f2_sub in E. discriminate.
Qed.

(** At the first digit of a data line the pattern reads the whole line. *)
Lemma match_at_line d s pv :
  line_ok f2 d = true -> starts_in is_digit_or_dot s = false ->
  exists pv',
    match_at (triplet_re f2) pv (line_text d s) =
    Some ([(3, l_throughput d); (2, l_chunk d); (1, l_threads d)],
          Cursor pv' s).
Proof.
  destruct d as [th w1 w2 ch w3 w4 thr]. unfold line_ok, line_text. simpl.
  intros H Hs. repeat (apply andb_true_iff in H as [H ?]).
  apply negb_true_iff in H.
  repeat match goal with
         | X : negb _ = true |- _ => apply negb_true_iff in X
         end.
  eexists. unfold match_at, triplet_re. rewrite run_cat.
  apply run_group_plus_longest; auto.
  { eapply starts_in_app; eauto using space_not_digit. }
  rewrite run_cat. apply run_star_longest; auto.
  rewrite run_cat, run_bar, run_cat. apply run_star_longest; auto.
  { eapply starts_in_nonempty; eauto using f2_not_space. }
  rewrite run_cat. apply run_group_plus_longest; auto.
  { eapply starts_in_app; eauto using space_not_f2, f2_not_bar. }
  rewrite run_cat. apply run_star_longest; auto.
  rewrite run_cat, run_bar, run_cat. apply run_star_longest; auto.
  { eapply starts_in_nonempty; eauto using digit_or_dot_not_space. }
  apply run_group_plus_longest; auto.
  reflexivity.
Qed.

(** The pattern cannot begin on a character that is not a digit. *)
Lemma match_at_no_digit pv s :
  starts_in is_digit s = false -> match_at (triplet_re f2) pv s = None.
Proof.
  intros H. unfold match_at, triplet_re. rewrite run_cat, run_group.
  unfold Plus. rewrite run_cat. destruct s as [|a s]; [reflexivity|].
  simpl in H. simpl. rewrite H. reflexivity.
Qed.

Lemma scan_junk j s pv :
  no_digit j = true ->
  scan (triplet_re f2) 0 pv (j ++ s) = scan (triplet_re f2) 0 (after pv j) s.
Proof.
  revert pv. induction j as [|a j IH]; intros pv H; [reflexivity|].
  simpl in H. apply andb_true_iff in H as [Ha Hj].
  apply negb_true_iff in Ha.
  change ((a :: j) ++ s) with (a :: j ++ s).
  unfold scan at 1; fold scan.
  rewrite match_at_no_digit by exact Ha. now apply IH.
Qed.

Lemma scan_skip r u v pv :
  scan r (length u) pv (u ++ v) = scan r 0 (after pv u) v.
Proof.
  revert pv. induction u as [|a u IH]; intros pv; [reflexivity|].
  simpl. apply IH.
Qed.

Lemma line_text_cons d s :
  line_ok f2 d = true ->
  exists a u, line_text d s = a :: u ++ s.
Proof.
  destruct d as [th w1 w2 ch w3 w4 thr]. unfold line_ok, line_text. simpl.
  intros H. repeat (apply andb_true_iff in H as [H ?]).
  destruct th as [|a th]; [discriminate|].
  exists a, (th ++ w1 ++ bar :: w2 ++ ch ++ w3 ++ bar :: w4 ++ thr).
  simpl. f_equal. repeat (rewrite <- app_assoc; simpl). reflexivity.
Qed.

Definition triple (c : caps) : text * text * text :=
  (group 1 c, group 2 c, group 3 c).

(** The matches in a body are its data lines, in order. *)
Lemma scan_body l :
  body_ok f2 l = true ->
  forall pv,
    map triple (scan (triplet_re f2) 0 pv (flatten l)) = data_of l.
Proof.
  induction l as [|[j|d] l IH]; intros H pv; simpl in H.
  - reflexivity.
  - apply andb_true_iff in H as [Hj Hl]. simpl.
    rewrite scan_junk by exact Hj. now apply IH.
  - apply andb_true_iff in H as [H Hl]. apply andb_true_iff in H as [Hd Hs].
    apply negb_true_iff in Hs. simpl.
    destruct (match_at_line d (flatten l) pv Hd Hs) as [pv' Hm].
    destruct (line_text_cons d (flatten l) Hd) as (a & u & Hu).
    rewrite Hu in *. unfold scan at 1; fold scan. rewrite Hm.
    cbn [rest length]. rewrite length_app.
    replace (S (length u + length (flatten l)) - length (flatten l) - 1)
      with (length u) by lia.
    rewrite scan_skip. cbn [map]. f_equal. now apply IH.
Qed.

Lemma findall3_body l :
  body_ok f2 l = true ->
  findall3 (triplet_re f2) (flatten l) = data_of l.
Proof. intros H. apply (scan_body l H). Qed.

End Triplet.

(** * Sections of a log *)

Definition eq_sign : ascii := "="%char.

Definition no_eq (s : text) : bool :=
  forallb (fun a => negb (Ascii.eqb a eq_sign)) s.

(** [s] without the newline that ends it, if there is one. *)
Fixpoint chomp (s : text) : text :=
  match s with
  | [] => []
  | a :: s' =>
      match s' with
      | [] => if Ascii.eqb a newline then [] else [a]
      | _ :: _ => a :: chomp s'
      end
  end.

Lemma strip_prefix_neq a l b s :
  Ascii.eqb b a = false -> strip_prefix (a :: l) (b :: s) = None.
Proof.
  intros H. cbn [strip_prefix]. rewrite Ascii.eqb_sym in H. now rewrite H.
Qed.

Lemma stop_eqeq_cons a s : Ascii.eqb a eq_sign = false -> stop_eqeq (a :: s) = false.
Proof.
  intros H. unfold stop_eqeq, starts_with.
  change (T "==") with [eq_sign; eq_sign]. now rewrite strip_prefix_neq.
Qed.

Lemma no_eq_cons a u :
  no_eq (a :: u) = true -> Ascii.eqb a eq_sign = false /\ no_eq u = true.
Proof.
  unfold no_eq. cbn [forallb]. intros H.
  apply andb_true_iff in H as [Ha Hu]. apply negb_true_iff in Ha. auto.
Qed.

Lemma until_eqeq_app u v :
  no_eq u = true -> stop_eqeq v = true -> until stop_eqeq (u ++ v) = u.
Proof.
  intros Hu Hv. induction u as [|a u IH]; cbn [app until].
  - destruct v as [|b v]; [reflexivity|]. cbn [until]. now rewrite Hv.
  - apply no_eq_cons in Hu as [Ha Hu].
    rewrite (stop_eqeq_cons a (u ++ v) Ha). f_equal. auto.
Qed.

Lemma until_eqeq_all u : no_eq u = true -> until stop_eqeq u = u.
Proof.
  intros Hu. induction u as [|a u IH]; cbn [until]; [reflexivity|].
  apply no_eq_cons in Hu as [Ha Hu].
  rewrite (stop_eqeq_cons a u Ha). f_equal. auto.
Qed.

Lemma stop_dollar_cons a b s :
  Ascii.eqb a eq_sign = false ->
  stop_eqeq_or_last_newline (a :: b :: s) = false.
Proof.
  intros Ha. unfold stop_eqeq_or_last_newline.
  fold (stop_eqeq (a :: b :: s)). now rewrite stop_eqeq_cons.
Qed.

Lemma until_dollar_app u v :
  no_eq u = true -> stop_eqeq v = true ->
  until stop_eqeq_or_last_newline (u ++ v) = u.
Proof.
  intros Hu Hv. induction u as [|a u IH]; cbn [app until].
  - destruct v as [|b v]; [reflexivity|]. cbn [until].
    unfold stop_eqeq_or_last_newline. fold (stop_eqeq (b :: v)).
    now rewrite Hv.
  - apply no_eq_cons in Hu as [Ha Hu].
    destruct (u ++ v) as [|b w] eqn:E.
    + destruct u; destruct v; discriminate.
    + rewrite (stop_dollar_cons a b w Ha). f_equal. auto.
Qed.

Lemma until_dollar_all u :
  no_eq u = true -> until stop_eqeq_or_last_newline u = chomp u.
Proof.
  intros Hu. induction u as [|a u IH]; cbn [until chomp]; [reflexivity|].
  apply no_eq_cons in Hu as [Ha Hu].
  destruct u as [|b w].
  - unfold stop_eqeq_or_last_newline. fold (stop_eqeq [a]).
    rewrite (stop_eqeq_cons a [] Ha).
    destruct (Ascii.eqb a newline); reflexivity.
  - rewrite (stop_dollar_cons a b w Ha). f_equal. auto.
Qed.

Lemma find_section_step strip stop a s :
  strip (a :: s) = None ->
  find_section strip stop (a :: s) = find_section strip stop s.
Proof. intros H. simpl. now rewrite H. Qed.

Lemma find_section_here strip stop s b :
  strip s = Some b -> find_section strip stop s = Some (until stop b).
Proof. intros H. destruct s; simpl; now rewrite H. Qed.

Lemma find_section_skip strip stop u s :
  (forall a w, Ascii.eqb a eq_sign = false -> strip (a :: w) = None) ->
  no_eq u = true ->
  find_section strip stop (u ++ s) = find_section strip stop s.
Proof.
  intros Hs Hu. induction u as [|a u IH]; [reflexivity|].
  apply no_eq_cons in Hu as [Ha Hu].
  change ((a :: u) ++ s) with (a :: u ++ s).
  rewrite find_section_step by (now apply Hs). auto.
Qed.

Lemma strip_header_ws_needs_eq name a w :
  Ascii.eqb a eq_sign = false -> strip_header_ws name (a :: w) = None.
Proof.
  intros H. unfold strip_header_ws.
  change (T "===") with [eq_sign; eq_sign; eq_sign].
  now rewrite strip_prefix_neq.
Qed.

Lemma strip_enc_header_needs_eq a w :
  Ascii.eqb a eq_sign = false -> strip_prefix (T enc_header) (a :: w) = None.
Proof.
  intros H.
  change (T enc_header)
    with (eq_sign :: T "== ENCRYPTION THREAD/CHUNK SWEEP ===").
  now rewrite strip_prefix_neq.
Qed.

Lemma strip_dec_header_needs_eq a w :
  Ascii.eqb a eq_sign = false -> strip_prefix (T dec_header) (a :: w) = None.
Proof.
  intros H.
  change (T dec_header)
    with (eq_sign :: T "== DECRYPTION THREAD/CHUNK SWEEP ===").
  now rewrite strip_prefix_neq.
Qed.

(** The encryption header is recognised by its own patterns. *)
Lemma strip_ws_enc_header x :
  strip_header_ws enc_name (T enc_header ++ x) = Some x.
Proof. reflexivity. Qed.

Lemma strip_ws_dec_header x :
  strip_header_ws dec_name (T dec_header ++ x) = Some x.
Proof. reflexivity. Qed.

(** Searching for the decryption header goes past the encryption header when
    no decryption header starts at its closing "===". *)
Lemma find_past_enc_header strip stop a x :
  (forall b w, Ascii.eqb b eq_sign = false -> strip (b :: w) = None) ->
  strip (T "= ENCRYPTION THREAD/CHUNK SWEEP ===" ++ a :: x) = None ->
  strip (T "== ENCRYPTION THREAD/CHUNK SWEEP ===" ++ a :: x) = None ->
  strip (T "=== ENCRYPTION THREAD/CHUNK SWEEP ===" ++ a :: x) = None ->
  strip (T "===" ++ a :: x) = None ->
  strip (T "==" ++ a :: x) = None ->
  strip (T "=" ++ a :: x) = None ->
  find_section strip stop (T enc_header ++ a :: x) =
  find_section strip stop (a :: x).
Proof.
  intros Hs H1 H2 H3 H4 H5 H6.
  change (T enc_header ++ a :: x)
    with (T "===" ++ T " ENCRYPTION THREAD/CHUNK SWEEP " ++ T "===" ++ a :: x).
  change (T "===" ++ ?w) with (eq_sign :: eq_sign :: eq_sign :: w) at 1.
  rewrite find_section_step by exact H3.
  rewrite find_section_step by exact H2.
  rewrite find_section_step by exact H1.
  rewrite find_section_skip by (auto; reflexivity).
  change (T "===" ++ ?w) with (eq_sign :: eq_sign :: eq_sign :: w) at 1.
  rewrite find_section_step by exact H4.
  rewrite find_section_step by exact H5.
  rewrite find_section_step by exact H6.
  reflexivity.
Qed.

(** A log: some text, the encryption header and its body, the decryption
    header and its body. *)
Definition log (pre b1 b2 : text) : text :=
  pre ++ T enc_header ++ b1 ++ T dec_header ++ b2.

Lemma strip_ws_short a x :
  Ascii.eqb a eq_sign = false ->
  forall name, strip_header_ws name (T "==" ++ a :: x) = None
               /\ strip_header_ws name (T "=" ++ a :: x) = None.
Proof.
  intros Ha name. unfold strip_header_ws.
  change (T "===") with [eq_sign; eq_sign; eq_sign].
  change (T "==") with [eq_sign; eq_sign]. change (T "=") with [eq_sign].
  cbn [app strip_prefix]. rewrite !Ascii.eqb_refl.
  rewrite (Ascii.eqb_sym eq_sign a), Ha.
  split; [reflexivity|]. destruct x; [reflexivity|].
  destruct (Ascii.eqb eq_sign a0); reflexivity.
Qed.

Lemma strip_lit_short a x :
  Ascii.eqb a eq_sign = false ->
  strip_prefix (T dec_header) (T "==" ++ a :: x) = None
  /\ strip_prefix (T dec_header) (T "=" ++ a :: x) = None.
Proof.
  intros Ha.
  change (T dec_header)
    with (eq_sign :: eq_sign :: eq_sign
            :: T " DECRYPTION THREAD/CHUNK SWEEP ===").
  change (T "==") with [eq_sign; eq_sign]. change (T "=") with [eq_sign].
  cbn [app strip_prefix]. rewrite !Ascii.eqb_refl.
  rewrite (Ascii.eqb_sym eq_sign a), Ha. auto.
Qed.

Section Log.

Variables pre b1 b2 : text.
Hypothesis pre_no_eq : no_eq pre = true.
Hypothesis b1_no_eq : no_eq b1 = true.
Hypothesis b2_no_eq : no_eq b2 = true.

Lemma enc_sec_log :
  option_map (group 1) (Charts.enc_sec (log pre b1 b2)) = Some b1.
Proof.
  rewrite enc_sec_find. unfold log.
  rewrite find_section_skip
    by (auto using strip_header_ws_needs_eq).
  rewrite (find_section_here _ _ _ _ (strip_ws_enc_header _)).
  f_equal. apply until_eqeq_app; [assumption|reflexivity].
Qed.

Lemma encrypt_section_log :
  option_map (group 1) (TestParser.encrypt_section (log pre b1 b2)) = Some b1.
Proof.
  rewrite encrypt_section_find. unfold log.
  rewrite find_section_skip
    by (auto using strip_enc_header_needs_eq).
  rewrite (find_section_here _ _ _ _ (strip_prefix_app _ _)).
  f_equal. apply until_dollar_app; [assumption|reflexivity].
Qed.

Hypothesis b1_nonempty : is_nil b1 = false.

Lemma dec_sec_log :
  strip_header_ws dec_name (T "===" ++ b1 ++ T dec_header ++ b2) = None ->
  option_map (group 1) (Charts.dec_sec (log pre b1 b2)) = Some b2.
Proof.
  intros H4. rewrite dec_sec_find. unfold log.
  rewrite find_section_skip
    by (auto using strip_header_ws_needs_eq).
  destruct b1 as [|a x] eqn:E; [discriminate|].
  destruct (no_eq_cons _ _ b1_no_eq) as [Ha Hx].
  change ((a :: x) ++ ?w) with (a :: x ++ w) in *.
  destruct (strip_ws_short a (x ++ T dec_header ++ b2) Ha dec_name) as [H5 H6].
  rewrite find_past_enc_header;
    auto using strip_header_ws_needs_eq.
  change (a :: x ++ ?w) with ((a :: x) ++ w).
  rewrite find_section_skip
    by (auto using strip_header_ws_needs_eq).
  rewrite (find_section_here _ _ _ _ (strip_ws_dec_header _)).
  f_equal. now apply until_eqeq_all.
Qed.

Lemma decrypt_section_log :
  strip_prefix (T dec_header) (T "===" ++ b1 ++ T dec_header ++ b2) = None ->
  option_map (group 1) (TestParser.decrypt_section (log pre b1 b2))
  = Some (chomp b2).
Proof.
  intros H4. rewrite decrypt_section_find. unfold log.
  rewrite find_section_skip
    by (auto using strip_dec_header_needs_eq).
  destruct b1 as [|a x] eqn:E; [discriminate|].
  destruct (no_eq_cons _ _ b1_no_eq) as [Ha Hx].
  change ((a :: x) ++ ?w) with (a :: x ++ w) in *.
  destruct (strip_lit_short a (x ++ T dec_header ++ b2) Ha) as [H5 H6].
  rewrite find_past_enc_header;
    auto using strip_dec_header_needs_eq.
  change (a :: x ++ ?w) with ((a :: x) ++ w).
  rewrite find_section_skip
    by (auto using strip_dec_header_needs_eq).
  rewrite (find_section_here _ _ _ _ (strip_prefix_app _ _)).
  f_equal. now apply until_dollar_all.
Qed.

End Log.

(** ** A body that holds a digit is not mistaken for a header *)

Definition has_digit (s : text) : bool := existsb is_digit s.

Lemma first_eq_unique u v x y :
  no_eq u = true -> no_eq v = true ->
  u ++ eq_sign :: x = v ++ eq_sign :: y -> u = v.
Proof.
  revert v. induction u as [|a u IH]; intros [|b v] Hu Hv E.
  - reflexivity.
  - apply no_eq_cons in Hv as [Hb _]. inversion E; subst b.
    now rewrite Ascii.eqb_refl in Hb.
  - apply no_eq_cons in Hu as [Ha _]. inversion E; subst a.
    now rewrite Ascii.eqb_refl in Ha.
  - apply no_eq_cons in Hu as [_ Hu]. apply no_eq_cons in Hv as [_ Hv].
    inversion E; subst b. f_equal. eauto.
Qed.

Lemma no_eq_app u v : no_eq (u ++ v) = no_eq u && no_eq v.
Proof. apply forallb_app. Qed.

Lemma spaces_no_eq u : forallb is_space u = true -> no_eq u = true.
Proof.
  intros H. unfold no_eq. rewrite forallb_forall in *. intros a Ha.
  specialize (H a Ha). destruct (Ascii.eqb a eq_sign) eqn:E; [|reflexivity].
  apply Ascii.eqb_eq in E. subst a. discriminate.
Qed.

Lemma spaces_no_digit u : forallb is_space u = true -> has_digit u = false.
Proof.
  intros H. induction u as [|a u IH]; [reflexivity|].
  simpl in H. apply andb_true_iff in H as [Ha Hu].
  unfold has_digit. cbn [existsb]. rewrite (space_not_digit a Ha). auto.
Qed.

Lemma has_digit_app u v : has_digit (u ++ v) = has_digit u || has_digit v.
Proof. apply existsb_app. Qed.

Lemma strip_ws_dec_after_digit b y :
  no_eq b = true -> has_digit b = true ->
  strip_header_ws dec_name (T "===" ++ b ++ eq_sign :: y) = None.
Proof.
  intros Hb Hd.
  destruct (strip_header_ws dec_name (T "===" ++ b ++ eq_sign :: y))
    as [r|] eqn:E; [exfalso|reflexivity].
  unfold strip_header_ws in E. rewrite strip_prefix_app in E.
  set (X := b ++ eq_sign :: y) in *.
  destruct (strip_prefix (T dec_name) (drop_while is_space X)) as [s2|] eqn:E1;
    [|discriminate].
  apply strip_prefix_Some in E1, E.
  assert (HX : X = (take_while is_space X ++ T dec_name
                      ++ take_while is_space s2) ++ eq_sign :: T "==" ++ r).
  { rewrite <- (take_drop_while is_space X) at 1. rewrite E1.
    rewrite <- (take_drop_while is_space s2) at 1. rewrite E.
    rewrite <- !app_assoc. reflexivity. }
  unfold X in HX at 1. apply first_eq_unique in HX; [| assumption |].
  - rewrite HX in Hd. rewrite !has_digit_app in Hd.
    rewrite (spaces_no_digit (take_while is_space X)) in Hd
      by apply take_while_all.
    rewrite (spaces_no_digit (take_while is_space s2)) in Hd
      by apply take_while_all.
    discriminate.
  - rewrite !no_eq_app.
    rewrite (spaces_no_eq (take_while is_space X)) by apply take_while_all.
    rewrite (spaces_no_eq (take_while is_space s2)) by apply take_while_all.
    reflexivity.
Qed.

Lemma strip_lit_dec_after_digit b y :
  no_eq b = true -> has_digit b = true ->
  strip_prefix (T dec_header) (T "===" ++ b ++ eq_sign :: y) = None.
Proof.
  intros Hb Hd.
  destruct (strip_prefix (T dec_header) (T "===" ++ b ++ eq_sign :: y))
    as [r|] eqn:E; [exfalso|reflexivity].
  apply strip_prefix_Some in E.
  change (T dec_header)
    with (T "===" ++ T " DECRYPTION THREAD/CHUNK SWEEP " ++ eq_sign :: T "==")
    in E.
  rewrite <- !app_assoc in E. apply app_inv_head in E.
  change ((eq_sign :: T "==") ++ r) with (eq_sign :: T "==" ++ r) in E.
  apply first_eq_unique in E; [| assumption | reflexivity].
  rewrite E in Hd. discriminate.
Qed.

(** ** The body without its final newline is a body with the same lines *)

Lemma chomp_app u v : is_nil v = false -> chomp (u ++ v) = u ++ chomp v.
Proof.
  intros Hv. induction u as [|a u IH]; [reflexivity|].
  cbn [app chomp]. destruct (u ++ v) eqn:E.
  - destruct u; destruct v; discriminate.
  - f_equal. exact IH.
Qed.

Lemma chomp_keeps s a :
  Ascii.eqb a newline = false -> chomp (s ++ [a]) = s ++ [a].
Proof.
  intros Ha. rewrite chomp_app by reflexivity. cbn [chomp]. now rewrite Ha.
Qed.

Lemma no_digit_chomp s : no_digit s = true -> no_digit (chomp s) = true.
Proof.
  induction s as [|a s IH]; [reflexivity|]. unfold no_digit in *.
  cbn [forallb chomp]. intros H. apply andb_true_iff in H as [Ha Hs].
  destruct s as [|b s].
  - destruct (Ascii.eqb a newline); [reflexivity|]. cbn [forallb].
    now rewrite Ha.
  - cbn [forallb]. rewrite Ha. auto.
Qed.

Lemma starts_in_chomp f s : starts_in f s = false -> starts_in f (chomp s) = false.
Proof.
  destruct s as [|a [|b s]]; cbn [chomp starts_in]; auto.
  destruct (Ascii.eqb a newline); auto.
Qed.

Lemma line_text_app d s : line_text d s = line_text d [] ++ s.
Proof.
  unfold line_text. repeat (rewrite <- app_assoc; cbn [app]).
  reflexivity.
Qed.

Lemma line_text_last f2 d :
  line_ok f2 d = true ->
  exists u a, line_text d [] = u ++ [a] /\ Ascii.eqb a newline = false.
Proof.
  destruct d as [th w1 w2 ch w3 w4 thr]. unfold line_ok, line_text. simpl.
  intros H. repeat (apply andb_true_iff in H as [H ?]).
  destruct (exists_last (l := thr)) as (u & a & ->).
  { intros ->. discriminate. }
  exists (th ++ w1 ++ bar :: w2 ++ ch ++ w3 ++ bar :: w4 ++ u), a.
  split.
  - rewrite app_nil_r. repeat (rewrite <- app_assoc; cbn [app]). reflexivity.
  - rewrite forallb_app in H0. apply andb_true_iff in H0 as [_ Ha].
    cbn [forallb] in Ha. rewrite andb_true_r in Ha.
    destruct (Ascii.eqb a newline) eqn:E; [|reflexivity].
    apply Ascii.eqb_eq in E. subst a. discriminate.
Qed.

Lemma flatten_nil_data f2 l :
  body_ok f2 l = true -> flatten l = [] -> data_of l = [].
Proof.
  induction l as [|[j|d] l IH]; cbn [body_ok flatten data_of]; intros H E.
  - reflexivity.
  - apply andb_true_iff in H as [_ H]. apply app_eq_nil in E as [_ E]. auto.
  - apply andb_true_iff in H as [H _]. apply andb_true_iff in H as [H _].
    destruct (line_text_last f2 d H) as (u & a & Hu & _).
    rewrite line_text_app, Hu in E. destruct u; discriminate.
Qed.

Lemma chomp_body f2 l :
  body_ok f2 l = true ->
  exists l', flatten l' = chomp (flatten l) /\ body_ok f2 l' = true
             /\ data_of l' = data_of l.
Proof.
  induction l as [|[j|d] l IH]; cbn [body_ok flatten data_of]; intros H.
  - exists []. auto.
  - apply andb_true_iff in H as [Hj Hl].
    destruct (flatten l) as [|a w] eqn:F.
    + exists [Junk (chomp j)]. cbn [flatten body_ok data_of].
      rewrite !app_nil_r, no_digit_chomp by assumption.
      rewrite (flatten_nil_data f2 l) by assumption. auto.
    + destruct (IH Hl) as (l' & F' & Hl' & D').
      exists (Junk j :: l'). cbn [flatten body_ok data_of].
      rewrite F', Hj, Hl', D', chomp_app by reflexivity. auto.
  - apply andb_true_iff in H as [H Hl]. apply andb_true_iff in H as [Hd Hs].
    destruct (flatten l) as [|a w] eqn:F.
    + exists (Data d :: l). cbn [flatten body_ok data_of].
      rewrite F, Hd, Hl. cbn [starts_in negb andb].
      destruct (line_text_last f2 d Hd) as (u & z & Hu & Hz).
      rewrite Hu, chomp_keeps by assumption. auto.
    + destruct (IH Hl) as (l' & F' & Hl' & D').
      exists (Data d :: l'). cbn [flatten body_ok data_of].
      rewrite F', Hd, Hl', D'. apply negb_true_iff in Hs.
      rewrite (starts_in_chomp _ _ Hs). cbn [negb andb].
      rewrite (line_text_app d (chomp (a :: w))), (line_text_app d (a :: w)).
      rewrite chomp_app by reflexivity. auto.
Qed.

(** * Numbers

    [is_number] says when [float] accepts a captured field; [number_value] is
    the number the field denotes, digit by digit. *)

Local Open Scope Z_scope.

Definition is_number (s : text) : bool :=
  let (ip, r) := span_digits s in
  match r with
  | [] => negb (is_nil ip)
  | a :: fp =>
      Ascii.eqb a "."%char && all_digits fp && negb (is_nil ip && is_nil fp)
  end.

Definition float_value (s : text) : Q :=
  let (ip, r) := span_digits s in decimal ip (tl r).

Fixpoint int_value (s : text) : Z :=
  match s with
  | [] => 0
  | a :: s' => digit_val a * 10 ^ Z.of_nat (length s') + int_value s'
  end.

Fixpoint frac_value (s : text) : Q :=
  match s with
  | [] => 0%Q
  | a :: s' => ((inject_Z (digit_val a) + frac_value s') / 10)%Q
  end.

Definition number_value (s : text) : Q :=
  (inject_Z (int_value (take_while is_digit s))
   + frac_value (tl (drop_while is_digit s)))%Q.

Lemma py_float_number s :
  is_number s = true -> py_float s = Ok (float_value s).
Proof.
  unfold is_number, py_float, float_value.
  destruct (span_digits s) as [ip [|a fp]]; simpl.
  - intros H. apply negb_true_iff in H. now rewrite H.
  - intros ->. reflexivity.
Qed.

Lemma py_float_not_number s :
  is_number s = false -> py_float s = Raise ValueError.
Proof.
  unfold is_number, py_float.
  destruct (span_digits s) as [ip [|a fp]]; simpl.
  - intros H. apply negb_false_iff in H. now rewrite H.
  - intros ->. reflexivity.
Qed.

Lemma py_float_Ok s q :
  py_float s = Ok q -> is_number s = true /\ q = float_value s.
Proof.
  destruct (is_number s) eqn:E.
  - rewrite py_float_number by assumption. intros H. inversion H. auto.
  - rewrite py_float_not_number by assumption. discriminate.
Qed.

Lemma span_digits_spec s :
  span_digits s = (take_while is_digit s, drop_while is_digit s).
Proof.
  induction s as [|a s IH]; [reflexivity|]. simpl.
  destruct (is_digit a); [|reflexivity]. now rewrite IH.
Qed.

Lemma digit_val_range a : is_digit a = true -> 0 <= digit_val a <= 9.
Proof.
  unfold is_digit, digit_val. intros H.
  apply andb_true_iff in H as [H1 H2].
  apply Nat.leb_le in H1, H2. lia.
Qed.

Lemma fold_digits s acc :
  fold_left (fun acc a => 10 * acc + digit_val a) s acc
  = acc * 10 ^ Z.of_nat (length s) + int_value s.
Proof.
  revert acc. induction s as [|a s IH]; intros acc.
  - simpl. lia.
  - cbn [fold_left int_value length]. rewrite IH.
    rewrite Nat2Z.inj_succ, Z.pow_succ_r by lia. ring.
Qed.

Lemma digits_val_int_value s : digits_val s = int_value s.
Proof. unfold digits_val. rewrite fold_digits. lia. Qed.

Lemma int_value_app u v :
  int_value (u ++ v) = int_value u * 10 ^ Z.of_nat (length v) + int_value v.
Proof.
  induction u as [|a u IH]; [simpl; lia|].
  cbn [app int_value]. rewrite IH, length_app, Nat2Z.inj_add.
  rewrite Z.pow_add_r by lia. ring.
Qed.

Lemma int_value_nonneg s : all_digits s = true -> 0 <= int_value s.
Proof.
  induction s as [|a s IH]; [simpl; lia|].
  unfold all_digits. cbn [forallb int_value]. intros H.
  apply andb_true_iff in H as [Ha Hs]. apply digit_val_range in Ha.
  specialize (IH Hs).
  assert (0 <= 10 ^ Z.of_nat (length s)) by (apply Z.pow_nonneg; lia).
  nia.
Qed.

Lemma pow10_Z n : Zpos (pow10 n) = 10 ^ Z.of_nat n.
Proof.
  induction n as [|n IH]; [reflexivity|].
  cbn [pow10]. rewrite Nat2Z.inj_succ, Z.pow_succ_r by lia.
  rewrite Pos2Z.inj_mul, IH. reflexivity.
Qed.

Lemma pow10_inject_nonzero n : ~ (inject_Z (10 ^ Z.of_nat n) == 0)%Q.
Proof.
  intros H. unfold Qeq in H. cbn [Qnum Qden inject_Z] in H.
  assert (0 < 10 ^ Z.of_nat n) by (apply Z.pow_pos_nonneg; lia).
  lia.
Qed.

Lemma frac_value_spec s :
  (int_value s # pow10 (length s) == frac_value s)%Q.
Proof.
  induction s as [|a s IH]; [reflexivity|].
  cbn [int_value frac_value length pow10]. rewrite <- IH.
  rewrite !Qmake_Qdiv. rewrite Pos2Z.inj_mul, !pow10_Z.
  rewrite inject_Z_plus, !inject_Z_mult.
  change (inject_Z 10) with 10%Q. field. apply pow10_inject_nonzero.
Qed.

Lemma decimal_spec ip fp :
  (decimal ip fp == inject_Z (int_value ip) + frac_value fp)%Q.
Proof.
  unfold decimal. rewrite Qred_correct, digits_val_int_value, int_value_app.
  rewrite <- frac_value_spec, !Qmake_Qdiv, pow10_Z.
  rewrite inject_Z_plus, inject_Z_mult.
  field. apply pow10_inject_nonzero.
Qed.

(** The value [float] returns is the number the field denotes. *)
Lemma float_value_spec s : (float_value s == number_value s)%Q.
Proof.
  unfold float_value, number_value. rewrite span_digits_spec.
  apply decimal_spec.
Qed.

Lemma take_while_digits s : all_digits (take_while is_digit s) = true.
Proof. apply take_while_all. Qed.

Lemma is_number_frac_digits s :
  is_number s = true -> all_digits (tl (drop_while is_digit s)) = true.
Proof.
  unfold is_number. rewrite span_digits_spec.
  destruct (drop_while is_digit s) as [|a fp]; [reflexivity|].
  intros H. apply andb_true_iff in H as [H _].
  apply andb_true_iff in H as [_ H]. exact H.
Qed.

Lemma frac_value_nonneg s : all_digits s = true -> (0 <= frac_value s)%Q.
Proof.
  intros H. rewrite <- frac_value_spec. unfold Qle. simpl.
  apply int_value_nonneg in H. lia.
Qed.

Lemma float_value_nonneg s : is_number s = true -> (0 <= float_value s)%Q.
Proof.
  intros H. rewrite float_value_spec. unfold number_value.
  assert (H1 := int_value_nonneg _ (take_while_digits s)).
  assert (H2 := frac_value_nonneg _ (is_number_frac_digits s H)).
  assert (0 <= inject_Z (int_value (take_while is_digit s)))%Q.
  { unfold Qle. simpl. lia. }
  change 0%Q with (0 + 0)%Q. now apply Qplus_le_compat.
Qed.

Lemma py_int_digits s :
  all_digits s = true -> is_nil s = false -> py_int s = Ok (int_value s).
Proof.
  intros H1 H2. unfold py_int. rewrite H1, H2, digits_val_int_value.
  reflexivity.
Qed.

Lemma py_int_Ok s z :
  py_int s = Ok z -> all_digits s = true /\ z = int_value s.
Proof.
  unfold py_int. destruct (all_digits s); simpl; [|discriminate].
  destruct (is_nil s); simpl; [discriminate|]. intros H. inversion H.
  now rewrite digits_val_int_value.
Qed.

Lemma take_while_id f s : forallb f s = true -> take_while f s = s.
Proof.
  induction s as [|a s IH]; [reflexivity|]. cbn [forallb take_while].
  intros H. apply andb_true_iff in H as [-> H]. f_equal. auto.
Qed.

Lemma drop_while_id f s : forallb f s = true -> drop_while f s = [].
Proof.
  induction s as [|a s IH]; [reflexivity|]. cbn [forallb drop_while].
  intros H. apply andb_true_iff in H as [-> H]. auto.
Qed.

Lemma digits_number_value s :
  all_digits s = true -> (number_value s == inject_Z (int_value s))%Q.
Proof.
  intros H. unfold number_value.
  rewrite drop_while_id, take_while_id by assumption. simpl. ring.
Qed.

(** * From matches to rows *)

Definition mylib_row (m : text * text * text) : Charts.row :=
  let '(th, ch, thr) := m in
  Charts.Row (int_value th) (float_value ch) (float_value thr).

Definition test_row (m : text * text * text) : TestParser.row :=
  let '(th, ch, thr) := m in
  TestParser.Row (int_value th) (int_value ch) (float_value thr).

(** The numeric fields of every data line are numbers. *)
Definition numbers_ok (l : list item) : bool :=
  forallb (fun m : text * text * text =>
             let '(_, ch, thr) := m in is_number ch && is_number thr)
          (data_of l).

Lemma for_each_map {A B} (f : A -> result B) (g : A -> B) l :
  (forall a, In a l -> f a = Ok (g a)) -> for_each f l = Ok (map g l).
Proof.
  induction l as [|a l IH]; intros H; [reflexivity|].
  cbn [for_each map]. rewrite (H a) by (now left). cbn [bind].
  rewrite IH by (intros; apply H; now right). reflexivity.
Qed.

Lemma for_each_Ok {A B} (f : A -> result B) l bs :
  for_each f l = Ok bs -> Forall2 (fun a b => f a = Ok b) l bs.
Proof.
  revert bs. induction l as [|a l IH]; intros bs H; cbn [for_each] in H.
  - inversion H. constructor.
  - destruct (f a) as [b|] eqn:E; [|discriminate]. cbn [bind] in H.
    destruct (for_each f l) as [bs'|]; [|discriminate]. cbn [bind] in H.
    inversion H. constructor; auto.
Qed.

Lemma data_of_line_ok f2 l m :
  body_ok f2 l = true -> In m (data_of l) ->
  exists d, m = fields d /\ line_ok f2 d = true.
Proof.
  induction l as [|[j|d] l IH]; cbn [body_ok data_of]; intros H Hin.
  - destruct Hin.
  - apply andb_true_iff in H as [_ H]. auto.
  - apply andb_true_iff in H as [H Hl]. apply andb_true_iff in H as [Hd _].
    destruct Hin as [<-|Hin]; eauto.
Qed.

Lemma line_ok_threads f2 d :
  line_ok f2 d = true ->
  all_digits (l_threads d) = true /\ is_nil (l_threads d) = false
  /\ forallb f2 (l_chunk d) = true /\ is_nil (l_chunk d) = false.
Proof.
  unfold line_ok. intros H. repeat (apply andb_true_iff in H as [H ?]).
  apply negb_true_iff in H.
  repeat match goal with
         | X : negb _ = true |- _ => apply negb_true_iff in X
         end.
  auto.
Qed.

Lemma numbers_ok_In l m :
  numbers_ok l = true -> In m (data_of l) ->
  is_number (snd (fst m)) = true /\ is_number (snd m) = true.
Proof.
  unfold numbers_ok. rewrite forallb_forall. intros H Hin.
  specialize (H m Hin). destruct m as [[th ch] thr]. simpl.
  now apply andb_true_iff in H.
Qed.

Lemma rows_of_body_flatten l :
  body_ok is_digit_or_dot l = true -> numbers_ok l = true ->
  Charts.rows_of_body (flatten l) = Ok (map mylib_row (data_of l)).
Proof.
  intros Hb Hn. unfold Charts.rows_of_body.
  rewrite pat_triplet, findall3_body by auto.
  apply for_each_map. intros m Hin.
  destruct (data_of_line_ok _ _ _ Hb Hin) as (d & -> & Hd).
  destruct (numbers_ok_In _ _ Hn Hin) as [Hc Ht].
  destruct (line_ok_threads _ _ Hd) as (H1 & H2 & _).
  unfold fields in *. simpl in Hc, Ht. unfold Charts.make_row, mylib_row.
  rewrite py_int_digits, !py_float_number by assumption. reflexivity.
Qed.

Lemma extract_data_all s :
  TestParser.extract_data s =
  for_each TestParser.make_row (findall3 TestParser.pattern s).
Proof. destruct s; reflexivity. Qed.

Lemma extract_data_flatten l :
  body_ok is_digit l = true -> numbers_ok l = true ->
  TestParser.extract_data (flatten l) = Ok (map test_row (data_of l)).
Proof.
  intros Hb Hn. rewrite extract_data_all.
  rewrite pattern_triplet, findall3_body by auto using digit_is_digit_or_dot.
  apply for_each_map. intros m Hin.
  destruct (data_of_line_ok _ _ _ Hb Hin) as (d & -> & Hd).
  destruct (numbers_ok_In _ _ Hn Hin) as [Hc Ht].
  destruct (line_ok_threads _ _ Hd) as (H1 & H2 & H3 & H4).
  unfold fields in *. simpl in Hc, Ht. unfold TestParser.make_row, test_row.
  rewrite !py_int_digits, py_float_number by assumption. reflexivity.
Qed.

Lemma extract_group sec b :
  option_map (group 1) sec = Some b ->
  Charts.extract sec = Charts.rows_of_body b.
Proof. destruct sec; simpl; intros H; inversion H. reflexivity. Qed.

Lemma section_text_group sec b :
  option_map (group 1) sec = Some b -> TestParser.section_text sec = b.
Proof. destruct sec; simpl; intros H; inversion H. reflexivity. Qed.

(** A body made for the pattern with an integer second field is also one for
    the pattern with a decimal second field. *)
Lemma line_ok_weaken d : line_ok is_digit d = true -> line_ok is_digit_or_dot d = true.
Proof.
  unfold line_ok. intros H. repeat (apply andb_true_iff in H as [H ?]).
  repeat (apply andb_true_iff; split); auto.
  rewrite forallb_forall in *. auto using digit_is_digit_or_dot.
Qed.

Lemma line_has_digit f2 d s :
  line_ok f2 d = true -> has_digit (line_text d s) = true.
Proof.
  intros H. destruct (line_ok_threads _ _ H) as (H1 & H2 & _).
  unfold line_text. destruct (l_threads d) as [|a th]; [discriminate|].
  unfold all_digits in H1. cbn [forallb] in H1.
  apply andb_true_iff in H1 as [Ha _].
  unfold has_digit. cbn [app existsb]. now rewrite Ha.
Qed.

Lemma body_has_digit f2 l :
  body_ok f2 l = true -> is_nil (data_of l) = false ->
  has_digit (flatten l) = true.
Proof.
  induction l as [|[j|d] l IH]; cbn [body_ok data_of flatten]; intros H Hd.
  - discriminate.
  - apply andb_true_iff in H as [_ H]. rewrite has_digit_app, IH by auto.
    apply orb_true_r.
  - apply andb_true_iff in H as [H _]. apply andb_true_iff in H as [H _].
    eapply line_has_digit; eauto.
Qed.

Lemma has_digit_nonempty s : has_digit s = true -> is_nil s = false.
Proof. destruct s; [discriminate|reflexivity]. Qed.

(** ** The parsers on a log *)

Section ParsedLog.

Variable pre : text.
Variables l1 l2 : list item.
Hypothesis pre_no_eq : no_eq pre = true.
Hypothesis l1_no_eq : no_eq (flatten l1) = true.
Hypothesis l2_no_eq : no_eq (flatten l2) = true.
Hypothesis l1_numbers : numbers_ok l1 = true.
Hypothesis l2_numbers : numbers_ok l2 = true.
Hypothesis l1_nonempty : is_nil (flatten l1) = false.

Lemma mylib_log :
  body_ok is_digit_or_dot l1 = true -> body_ok is_digit_or_dot l2 = true ->
  strip_header_ws dec_name
    (T "===" ++ flatten l1 ++ T dec_header ++ flatten l2) = None ->
  Charts.parse_mylib_results (log pre (flatten l1) (flatten l2))
  = Ok (map mylib_row (data_of l1), map mylib_row (data_of l2)).
Proof.
  intros H1 H2 H4. unfold Charts.parse_mylib_results.
  rewrite (extract_group _ _ (enc_sec_log _ _ _ pre_no_eq l1_no_eq)).
  rewrite (extract_group _ _
             (dec_sec_log _ _ _ pre_no_eq l1_no_eq l2_no_eq l1_nonempty H4)).
  rewrite !rows_of_body_flatten by assumption. reflexivity.
Qed.

Lemma test_log :
  body_ok is_digit l1 = true -> body_ok is_digit l2 = true ->
  strip_prefix (T dec_header)
    (T "===" ++ flatten l1 ++ T dec_header ++ flatten l2) = None ->
  TestParser.parse_test_results (log pre (flatten l1) (flatten l2))
  = Ok (map test_row (data_of l1), map test_row (data_of l2)).
Proof.
  intros H1 H2 H4. unfold TestParser.parse_test_results.
  rewrite (section_text_group _ _
             (encrypt_section_log _ _ _ pre_no_eq l1_no_eq)).
  rewrite (section_text_group _ _
             (decrypt_section_log _ _ _ pre_no_eq l1_no_eq l2_no_eq
                l1_nonempty H4)).
  destruct (chomp_body _ _ H2) as (l2' & F & B & D).
  rewrite <- F. rewrite !extract_data_flatten; auto.
  - now rewrite D.
  - unfold numbers_ok. rewrite D. exact l2_numbers.
Qed.

End ParsedLog.

(** * The claims *)

Local Open Scope string_scope.
Local Open Scope list_scope.

(** The text made of the given lines, each ended by a newline. *)
Fixpoint unlines (l : list string) : text :=
  match l with
  | [] => []
  | s :: l' => T s ++ newline :: unlines l'
  end.

(** ** Section bodies *)

(** The reading of the specification: a body ends just before the next
    "===". *)
Definition stop_marker (s : text) : bool := starts_with (T "===") s.

Definition spec_section (header : string) (txt : text) : option text :=
  find_section (strip_prefix (T header)) stop_marker txt.

Definition log_with_double_eq : text :=
  unlines [enc_header; "1 | 2 | 3"; "a == b"; "4 | 5 | 6"].

(** C6, as stated, fails: two "=" signs inside a section end its body, so the
    body captured by [parse_mylib_results] is shorter than the text up to the
    next "==="-marker (here: up to the end of the input). *)
Lemma C6_body_ends_at_double_eq :
  option_map (group 1) (Charts.enc_sec log_with_double_eq)
  <> spec_section enc_header log_with_double_eq.
Proof. vm_compute. discriminate. Qed.

(** C6, amended: for every input, the body captured for a section is the text
    after the first occurrence of its header up to the first "==" or the end
    of the input; in [parse_mylib_results] a header may have any white space
    around its name, in [parse_test_results] it is the literal header and a
    newline that ends the input is left out of the body. *)
Theorem C6_section_body (txt : text) :
  option_map (group 1) (Charts.enc_sec txt)
    = find_section (strip_header_ws enc_name) stop_eqeq txt
  /\ option_map (group 1) (Charts.dec_sec txt)
    = find_section (strip_header_ws dec_name) stop_eqeq txt
  /\ option_map (group 1) (TestParser.encrypt_section txt)
    = find_section (strip_prefix (T enc_header)) stop_eqeq_or_last_newline txt
  /\ option_map (group 1) (TestParser.decrypt_section txt)
    = find_section (strip_prefix (T dec_header)) stop_eqeq_or_last_newline txt.
Proof.
  auto using enc_sec_find, dec_sec_find, encrypt_section_find,
    decrypt_section_find.
Qed.

(** ** The row invariant *)

(** The invariant of the data model: threads >= 1, chunk size > 0,
    throughput >= 0. *)
Definition row_invariant (r : Charts.row) : Prop :=
  (1 <= Charts.Threads r)%Z /\ (0 < Charts.ChunkMB r)%Q
  /\ (0 <= Charts.Throughput r)%Q.

Definition log_of_zeros : text := unlines [enc_header; "0 | 0 | 0"].

(** C5, as stated, fails: the fields are converted and stored as they are, so
    a line of zeros gives a row with zero threads and a zero chunk size. *)
Lemma C5_zero_row :
  Charts.parse_mylib_results log_of_zeros = Ok ([Charts.Row 0 0 0], [])
  /\ ~ row_invariant (Charts.Row 0 0 0).
Proof.
  split; [vm_compute; reflexivity|].
  intros (H & _). simpl in H. lia.
Qed.

Definition mylib_nonneg (r : Charts.row) : Prop :=
  (0 <= Charts.Threads r)%Z /\ (0 <= Charts.ChunkMB r)%Q
  /\ (0 <= Charts.Throughput r)%Q.

Definition test_nonneg (r : TestParser.row) : Prop :=
  (0 <= TestParser.Threads r)%Z /\ (0 <= TestParser.ChunkMB r)%Z
  /\ (0 <= TestParser.Throughput r)%Q.

Lemma py_int_nonneg s z : py_int s = Ok z -> (0 <= z)%Z.
Proof.
  intros H. apply py_int_Ok in H as [H ->]. now apply int_value_nonneg.
Qed.

Lemma py_float_nonneg s q : py_float s = Ok q -> (0 <= q)%Q.
Proof.
  intros H. apply py_float_Ok in H as [H ->]. now apply float_value_nonneg.
Qed.

Lemma for_each_Forall {A B} (f : A -> result B) (P : B -> Prop) l bs :
  (forall a b, f a = Ok b -> P b) -> for_each f l = Ok bs -> Forall P bs.
Proof.
  intros Hf H. apply for_each_Ok in H.
  induction H; constructor; eauto.
Qed.

Lemma mylib_make_row_nonneg m r : Charts.make_row m = Ok r -> mylib_nonneg r.
Proof.
  destruct m as [[th ch] thr]. unfold Charts.make_row.
  destruct (py_int th) as [t|] eqn:E1; [|discriminate].
  destruct (py_float ch) as [c|] eqn:E2; [|discriminate].
  destruct (py_float thr) as [p|] eqn:E3; [|discriminate].
  cbn [bind]. intros H. inversion H. unfold mylib_nonneg. simpl.
  repeat split; eauto using py_int_nonneg, py_float_nonneg.
Qed.

Lemma test_make_row_nonneg m r : TestParser.make_row m = Ok r -> test_nonneg r.
Proof.
  destruct m as [[th ch] thr]. unfold TestParser.make_row.
  destruct (py_int th) as [t|] eqn:E1; [|discriminate].
  destruct (py_int ch) as [c|] eqn:E2; [|discriminate].
  destruct (py_float thr) as [p|] eqn:E3; [|discriminate].
  cbn [bind]. intros H. inversion H. unfold test_nonneg. simpl.
  repeat split; eauto using py_int_nonneg, py_float_nonneg.
Qed.

Lemma extract_nonneg sec rows :
  Charts.extract sec = Ok rows -> Forall mylib_nonneg rows.
Proof.
  destruct sec as [m|]; simpl.
  - apply for_each_Forall. apply mylib_make_row_nonneg.
  - intros H. inversion H. constructor.
Qed.

Lemma extract_data_nonneg s rows :
  TestParser.extract_data s = Ok rows -> Forall test_nonneg rows.
Proof.
  rewrite extract_data_all. apply for_each_Forall.
  apply test_make_row_nonneg.
Qed.

(** C5, amended: every row either parser returns has threads >= 0, chunk
    size >= 0 and throughput >= 0. *)
Theorem C5_rows_nonneg (txt : text) :
  (forall enc dec,
      Charts.parse_mylib_results txt = Ok (enc, dec) ->
      Forall mylib_nonneg (enc ++ dec))
  /\ (forall enc dec,
         TestParser.parse_test_results txt = Ok (enc, dec) ->
         Forall test_nonneg (enc ++ dec)).
Proof.
  split; intros enc dec H.
  - unfold Charts.parse_mylib_results in H.
    destruct (Charts.extract (Charts.enc_sec txt)) as [e|] eqn:E1;
      [|discriminate].
    destruct (Charts.extract (Charts.dec_sec txt)) as [d|] eqn:E2;
      [|discriminate].
    cbn [bind] in H. inversion H; subst.
    apply Forall_app. eauto using extract_nonneg.
  - unfold TestParser.parse_test_results in H.
    destruct (TestParser.extract_data _) as [e|] eqn:E1 in H; [|discriminate].
    cbn [bind] in H.
    destruct (TestParser.extract_data _) as [d|] eqn:E2 in H; [|discriminate].
    cbn [bind] in H. inversion H; subst.
    apply Forall_app. eauto using extract_data_nonneg.
Qed.

Definition small_log : text :=
  unlines [enc_header; "1 | 4 | 120.5"; "2 | 4 | 230.1";
           dec_header; "1 | 4 | 150.0"].

Lemma C5_rows_nonneg_witness :
  Charts.parse_mylib_results small_log
  = Ok ([Charts.Row 1 4 (241 # 2); Charts.Row 2 4 (2301 # 10)],
        [Charts.Row 1 4 150])
  /\ Forall mylib_nonneg
       ([Charts.Row 1 4 (241 # 2); Charts.Row 2 4 (2301 # 10)]
          ++ [Charts.Row 1 4 150]).
Proof.
  split; [vm_compute; reflexivity|].
  apply (proj1 (C5_rows_nonneg small_log)). vm_compute. reflexivity.
Defined.

(** ** Well-formed logs *)

(** A log whose sections are bodies in the sense of [body_ok], with numbers
    in the numeric fields, no "=" outside the headers, and at least one data
    line in the encryption section. *)
Definition log_ok (f2 : ascii -> bool) (pre : text) (l1 l2 : list item) : bool :=
  no_eq pre && no_eq (flatten l1) && no_eq (flatten l2)
  && body_ok f2 l1 && body_ok f2 l2 && numbers_ok l1 && numbers_ok l2
  && negb (is_nil (data_of l1)).

Definition log_text (pre : text) (l1 l2 : list item) : text :=
  log pre (flatten l1) (flatten l2).

Lemma dec_header_eq x :
  T dec_header ++ x
  = eq_sign :: T "== DECRYPTION THREAD/CHUNK SWEEP ===" ++ x.
Proof. reflexivity. Qed.

Lemma mylib_log_ok pre l1 l2 :
  log_ok is_digit_or_dot pre l1 l2 = true ->
  Charts.parse_mylib_results (log_text pre l1 l2)
  = Ok (map mylib_row (data_of l1), map mylib_row (data_of l2)).
Proof.
  unfold log_ok. intros H. repeat (apply andb_true_iff in H as [H ?]).
  match goal with X : negb _ = true |- _ => apply negb_true_iff in X end.
  assert (Hd : has_digit (flatten l1) = true) by eauto using body_has_digit.
  apply mylib_log; auto using has_digit_nonempty.
  rewrite dec_header_eq. now apply strip_ws_dec_after_digit.
Qed.

Lemma test_log_ok pre l1 l2 :
  log_ok is_digit pre l1 l2 = true ->
  TestParser.parse_test_results (log_text pre l1 l2)
  = Ok (map test_row (data_of l1), map test_row (data_of l2)).
Proof.
  unfold log_ok. intros H. repeat (apply andb_true_iff in H as [H ?]).
  match goal with X : negb _ = true |- _ => apply negb_true_iff in X end.
  assert (Hd : has_digit (flatten l1) = true) by eauto using body_has_digit.
  apply test_log; auto using has_digit_nonempty.
  rewrite dec_header_eq. now apply strip_lit_dec_after_digit.
Qed.

(** What a row must hold for a data line: the numbers written in it. *)
Definition mylib_denotes (m : text * text * text) (r : Charts.row) : Prop :=
  let '(th, ch, thr) := m in
  Charts.Threads r = int_value th
  /\ (Charts.ChunkMB r == number_value ch)%Q
  /\ (Charts.Throughput r == number_value thr)%Q.

Definition test_denotes (m : text * text * text) (r : TestParser.row) : Prop :=
  let '(th, ch, thr) := m in
  TestParser.Threads r = int_value th
  /\ (inject_Z (TestParser.ChunkMB r) == number_value ch)%Q
  /\ (TestParser.Throughput r == number_value thr)%Q.

Lemma mylib_row_denotes m : mylib_denotes m (mylib_row m).
Proof.
  destruct m as [[th ch] thr]. unfold mylib_denotes, mylib_row. simpl.
  auto using float_value_spec.
Qed.

Definition nl : text := [newline].

Definition sample_enc : list item :=
  [Junk nl;
   Data (Line (T "2") (T " ") (T " ") (T "0.5") (T " ") (T " ") (T "100.0"));
   Junk nl].

Definition sample_dec : list item :=
  [Junk nl;
   Data (Line (T "1") (T " ") (T " ") (T "4") (T " ") (T " ") (T "150.0"));
   Junk nl].

Definition sample_int_enc : list item :=
  [Junk (newline :: T "Threads | ChunkMB | Avg MB/s" ++ nl);
   Data (Line (T "1") (T " ") (T " ") (T "4") (T " ") (T " ") (T "120.5"));
   Junk nl;
   Data (Line (T "2") (T " ") (T " ") (T "4") (T " ") (T " ") (T "230.1"));
   Junk nl].

(** ** Numeric fields *)

Definition test_reads_numbers (pre : text) (l1 l2 : list item) : Prop :=
  exists enc dec,
    TestParser.parse_test_results (log_text pre l1 l2) = Ok (enc, dec)
    /\ Forall2 test_denotes (data_of l1) enc
    /\ Forall2 test_denotes (data_of l2) dec.

(** C4, as stated, fails for [parse_test_results]: its pattern takes an
    integer as the chunk size, so the line "2 | 0.5 | 100.0" gives no row.
    It fails for [parse_mylib_results] too when the line before a triplet
    line ends in a bar: the pattern then reads the first number of the
    triplet line as the end of that line, and no row holds the chunk size
    0.5 of the line "4 | 0.5 | 6". *)
Lemma C4_decimal_chunk_test_parser :
  log_ok is_digit_or_dot [] sample_enc sample_dec = true
  /\ log_text [] sample_enc sample_dec
     = unlines [enc_header; "2 | 0.5 | 100.0"; dec_header; "1 | 4 | 150.0"]
  /\ TestParser.parse_test_results (log_text [] sample_enc sample_dec)
     = Ok ([], [TestParser.Row 1 4 150])
  /\ ~ test_reads_numbers [] sample_enc sample_dec
  /\ Charts.parse_mylib_results
       (unlines [enc_header; "1 | 2 |"; "4 | 0.5 | 6"])
     = Ok ([Charts.Row 1 2 4], []).
Proof.
  repeat split; try (vm_compute; reflexivity).
  intros (enc & dec & H & H1 & _).
  assert (E : TestParser.parse_test_results (log_text [] sample_enc sample_dec)
              = Ok ([], [TestParser.Row 1 4 150]))
    by (vm_compute; reflexivity).
  rewrite E in H. inversion H; subst. inversion H1.
Qed.

(** ** Row counts *)

Fixpoint lines_of (s : text) : list text :=
  match s with
  | [] => [[]]
  | a :: s' =>
      if Ascii.eqb a newline then [] :: lines_of s'
      else match lines_of s' with
           | l :: ls => (a :: l) :: ls
           | [] => [[a]]
           end
  end.

(** The number of lines in which the pattern has a match. *)
Definition matching_lines (r : regex) (s : text) : nat :=
  length (filter (fun l => match search r l with
                           | Some _ => true
                           | None => false
                           end)
                 (lines_of s)).

(** The claim at one input: with both sections present and a matching line
    in each, two non-empty tables come back, with as many rows as there are
    matching lines. *)
Definition row_count_claim (txt : text) : Prop :=
  forall be bd,
    option_map (group 1) (Charts.enc_sec txt) = Some be ->
    option_map (group 1) (Charts.dec_sec txt) = Some bd ->
    (1 <= matching_lines Charts.pat be)%nat ->
    (1 <= matching_lines Charts.pat bd)%nat ->
    exists enc dec,
      Charts.parse_mylib_results txt = Ok (enc, dec)
      /\ enc <> [] /\ dec <> []
      /\ (length enc + length dec
          = matching_lines Charts.pat be + matching_lines Charts.pat bd)%nat.

Definition log_two_on_a_line : text :=
  unlines [enc_header; "1 | 2 | 3 4 | 5 | 6"; dec_header; "7 | 8 | 9"].

Definition log_bad_field : text :=
  unlines [enc_header; "1 | 2 | 3"; "1 | 1.2.3 | 4"; dec_header; "7 | 8 | 9"].

(** C1, as stated, fails: every occurrence of the pattern gives a row, so a
    line that holds two triplets gives two rows; and a field that is not a
    number, such as "1.2.3", makes the parser raise although each section
    holds a valid row. *)
Lemma C1_two_triplets_on_a_line :
  ~ row_count_claim log_two_on_a_line /\ ~ row_count_claim log_bad_field.
Proof.
  split; intros H.
  - edestruct H as (enc & dec & Hp & _ & _ & Hl);
      [vm_compute; reflexivity | vm_compute; reflexivity
       | vm_compute; lia | vm_compute; lia |].
    assert (E : Charts.parse_mylib_results log_two_on_a_line
                = Ok ([Charts.Row 1 2 3; Charts.Row 4 5 6],
                      [Charts.Row 7 8 9]))
      by (vm_compute; reflexivity).
    rewrite E in Hp. inversion Hp; subst. vm_compute in Hl. discriminate.
  - edestruct H as (enc & dec & Hp & _);
      [vm_compute; reflexivity | vm_compute; reflexivity
       | vm_compute; lia | vm_compute; lia |].
    assert (E : Charts.parse_mylib_results log_bad_field = Raise ValueError)
      by (vm_compute; reflexivity).
    rewrite E in Hp. discriminate.
Qed.

(** ** The two implementations *)







(** ** Malformed lines *)

(** The claim at one section body: the rows of the lines before and after
    the line [bad] are returned, in order, as if the line were not there. *)
Definition skips_line (before bad after : text) : Prop :=
  forall rb ra,
    Charts.rows_of_body before = Ok rb ->
    Charts.rows_of_body after = Ok ra ->
    Charts.rows_of_body (before ++ bad ++ newline :: after) = Ok (rb ++ ra).

(** C3, as stated, fails: white space in the pattern includes the newline, so
    a line that ends after a "|" is completed with the first number of the
    next line; the row of that line is lost and a row that no line holds is
    returned.  In the same way a line without bars that ends in a number is
    completed by a next line that begins with a "|". *)
Lemma C3_line_ending_in_bar :
  search Charts.pat (T "1 | 2 |") = None
  /\ Charts.rows_of_body (unlines ["4 | 5 | 6"]) = Ok [Charts.Row 4 5 6]
  /\ Charts.parse_mylib_results (unlines [enc_header; "1 | 2 |"; "4 | 5 | 6"])
     = Ok ([Charts.Row 1 2 4], [])
  /\ ~ skips_line [] (T "1 | 2 |") (unlines ["4 | 5 | 6"])
  /\ search Charts.pat (T "1 4 120.5") = None
  /\ Charts.rows_of_body (unlines ["| 2 | 3"]) = Ok []
  /\ Charts.rows_of_body (unlines ["1 4 120.5"; "| 2 | 3"])
     = Ok [Charts.Row 5 2 3]
  /\ ~ skips_line [] (T "1 4 120.5") (unlines ["| 2 | 3"]).
Proof.
  repeat split; try (vm_compute; reflexivity).
  - intros H. specialize (H [] [Charts.Row 4 5 6] eq_refl).
    assert (E : Charts.rows_of_body (unlines ["4 | 5 | 6"])
                = Ok [Charts.Row 4 5 6]) by (vm_compute; reflexivity).
    specialize (H E). vm_compute in H. discriminate.
  - intros H. specialize (H [] [] eq_refl).
    assert (E : Charts.rows_of_body (unlines ["| 2 | 3"]) = Ok [])
      by (vm_compute; reflexivity).
    specialize (H E). vm_compute in H. discriminate.
Qed.

(** ** Missing sections *)

(** [txt] holds a header: "===", the name, "===", with optional white space
    around the name. *)
Definition has_header_ws (name : string) (txt : text) : Prop :=
  exists pre w1 w2 post,
    forallb is_space w1 = true /\ forallb is_space w2 = true
    /\ txt = pre ++ T "===" ++ w1 ++ T name ++ w2 ++ T "===" ++ post.

(** [txt] holds the literal header. *)
Definition has_header (header : string) (txt : text) : Prop :=
  exists pre post, txt = pre ++ T header ++ post.

Lemma find_section_Some strip stop s b :
  find_section strip stop s = Some b ->
  exists pre s' b', s = pre ++ s' /\ strip s' = Some b'.
Proof.
  induction s as [|a s IH]; cbn [find_section].
  - destruct (strip []) eqn:E; [|discriminate]. intros _.
    exists [], [], t. auto.
  - destruct (strip (a :: s)) eqn:E.
    + intros _. exists [], (a :: s), t. auto.
    + intros H. destruct (IH H) as (pre & s' & b' & -> & Hs).
      exists (a :: pre), s', b'. auto.
Qed.

Lemma find_section_found strip stop pre s b :
  strip s = Some b -> find_section strip stop (pre ++ s) <> None.
Proof.
  intros H. induction pre as [|a pre IH]; cbn [app].
  - rewrite (find_section_here _ _ _ _ H). discriminate.
  - cbn [find_section]. destruct (strip (a :: pre ++ s)); [discriminate|].
    exact IH.
Qed.

Lemma strip_header_ws_Some name s b :
  strip_header_ws name s = Some b ->
  exists w1 w2,
    forallb is_space w1 = true /\ forallb is_space w2 = true
    /\ s = T "===" ++ w1 ++ T name ++ w2 ++ T "===" ++ b.
Proof.
  unfold strip_header_ws.
  destruct (strip_prefix (T "===") s) as [s1|] eqn:E1; [|discriminate].
  destruct (strip_prefix (T name) (drop_while is_space s1)) as [s2|] eqn:E2;
    [|discriminate].
  intros E3. apply strip_prefix_Some in E1, E2, E3.
  exists (take_while is_space s1), (take_while is_space s2).
  repeat split; try apply take_while_all.
  rewrite E1. f_equal. rewrite <- (take_drop_while is_space s1) at 1.
  f_equal. rewrite E2. f_equal.
  rewrite <- (take_drop_while is_space s2) at 1. now rewrite E3.
Qed.

Lemma strip_header_ws_here name a l w1 w2 post :
  T name = a :: l -> is_space a = false ->
  forallb is_space w1 = true -> forallb is_space w2 = true ->
  strip_header_ws name (T "===" ++ w1 ++ T name ++ w2 ++ T "===" ++ post)
  = Some post.
Proof.
  intros Hn Ha H1 H2. unfold strip_header_ws.
  rewrite strip_prefix_app.
  rewrite drop_while_app by (auto; rewrite Hn; exact Ha).
  rewrite strip_prefix_app.
  rewrite drop_while_app by (auto; reflexivity).
  apply strip_prefix_app.
Qed.

Lemma header_ws_found name a l stop txt :
  T name = a :: l -> is_space a = false ->
  has_header_ws name txt <->
  find_section (strip_header_ws name) stop txt <> None.
Proof.
  intros Hn Ha. split.
  - intros (pre & w1 & w2 & post & H1 & H2 & ->).
    eapply find_section_found, strip_header_ws_here; eauto.
  - destruct (find_section (strip_header_ws name) stop txt) as [b|] eqn:E;
      [intros _|congruence].
    apply find_section_Some in E as (pre & s' & b' & -> & Hs).
    apply strip_header_ws_Some in Hs as (w1 & w2 & H1 & H2 & ->).
    exists pre, w1, w2, b'. auto.
Qed.

Lemma header_found header stop txt :
  has_header header txt <->
  find_section (strip_prefix (T header)) stop txt <> None.
Proof.
  split.
  - intros (pre & post & ->).
    eapply find_section_found, strip_prefix_app.
  - destruct (find_section (strip_prefix (T header)) stop txt) as [b|] eqn:E;
      [intros _|congruence].
    apply find_section_Some in E as (pre & s' & b' & -> & Hs).
    apply strip_prefix_Some in Hs. subst s'. exists pre, b'. auto.
Qed.

Lemma option_map_None {A B} (f : A -> B) o : option_map f o = None -> o = None.
Proof. destruct o; [discriminate|reflexivity]. Qed.

Lemma enc_sec_absent txt :
  ~ has_header_ws enc_name txt <-> Charts.enc_sec txt = None.
Proof.
  rewrite (header_ws_found enc_name _ _ stop_eqeq txt eq_refl eq_refl).
  rewrite <- enc_sec_find. destruct (Charts.enc_sec txt); simpl; split;
    intros H; try congruence. exfalso. apply H. discriminate.
Qed.

Lemma dec_sec_absent txt :
  ~ has_header_ws dec_name txt <-> Charts.dec_sec txt = None.
Proof.
  rewrite (header_ws_found dec_name _ _ stop_eqeq txt eq_refl eq_refl).
  rewrite <- dec_sec_find. destruct (Charts.dec_sec txt); simpl; split;
    intros H; try congruence. exfalso. apply H. discriminate.
Qed.

Lemma encrypt_section_absent txt :
  ~ has_header enc_header txt <-> TestParser.encrypt_section txt = None.
Proof.
  rewrite (header_found enc_header stop_eqeq_or_last_newline txt).
  rewrite <- encrypt_section_find.
  destruct (TestParser.encrypt_section txt); simpl; split;
    intros H; try congruence. exfalso. apply H. discriminate.
Qed.

Lemma decrypt_section_absent txt :
  ~ has_header dec_header txt <-> TestParser.decrypt_section txt = None.
Proof.
  rewrite (header_found dec_header stop_eqeq_or_last_newline txt).
  rewrite <- decrypt_section_find.
  destruct (TestParser.decrypt_section txt); simpl; split;
    intros H; try congruence. exfalso. apply H. discriminate.
Qed.

(** No match anywhere: nothing to iterate over. *)
Lemma scan_no_match r pv s : search_from r pv s = None -> scan r 0 pv s = [].
Proof.
  revert pv. induction s as [|a s IH]; intros pv; cbn [search_from scan].
  - destruct (match_at r pv []); [discriminate|reflexivity].
  - destruct (match_at r pv (a :: s)); [discriminate|]. apply IH.
Qed.

Lemma findall3_no_match r s : search r s = None -> findall3 r s = [].
Proof.
  unfold search, findall3, finditer. intros H.
  apply option_map_None in H. now rewrite scan_no_match.
Qed.

(** A section that is absent, or whose body holds no match of the row
    pattern. *)
Definition no_rows (r : regex) (sec : option caps) : Prop :=
  sec = None \/ exists m, sec = Some m /\ search r (group 1 m) = None.

Lemma extract_no_rows sec :
  no_rows Charts.pat sec -> Charts.extract sec = Ok [].
Proof.
  intros [->|(m & -> & H)]; [reflexivity|].
  unfold Charts.extract, Charts.rows_of_body.
  now rewrite findall3_no_match.
Qed.

Lemma extract_data_no_rows sec :
  no_rows TestParser.pattern sec ->
  TestParser.extract_data (TestParser.section_text sec) = Ok [].
Proof.
  intros [->|(m & -> & H)]; [reflexivity|].
  rewrite extract_data_all. unfold TestParser.section_text.
  now rewrite findall3_no_match.
Qed.

(** A section that is present, with no match of the row pattern in its
    body. *)
Definition empty_body (r : regex) (sec : option caps) : Prop :=
  exists m, sec = Some m /\ search r (group 1 m) = None.

(** The claim at one input, for the encryption section of
    [parse_mylib_results]. *)
Definition missing_enc_claim (txt : text) : Prop :=
  ~ has_header_ws enc_name txt ->
  exists dec, Charts.parse_mylib_results txt = Ok ([], dec).

Definition log_bad_number : text := unlines [dec_header; "1 | 1.2.3 | 4"].

(** C2, as stated, fails: with the encryption header absent the parser still
    raises when a field captured in the decryption section is not a number. *)
Lemma C2_other_section_raises :
  ~ has_header_ws enc_name log_bad_number
  /\ Charts.parse_mylib_results log_bad_number = Raise ValueError
  /\ ~ missing_enc_claim log_bad_number.
Proof.
  assert (H : ~ has_header_ws enc_name log_bad_number).
  { apply enc_sec_absent. vm_compute. reflexivity. }
  repeat split; auto. intros C. destruct (C H) as [dec Hd].
  vm_compute in Hd. discriminate.
Qed.

(** C2, amended: a section whose header is absent, or whose body holds no
    match of the row pattern, gives the empty table and raises nothing; the
    outcome of the parser is the outcome of the other section with the empty
    table beside it, so the other section is parsed as it is without this one
    (and the parser raises only when a field captured there is not a
    number). *)
Theorem C2_missing_section (txt : text) :
  (~ has_header_ws enc_name txt \/ empty_body Charts.pat (Charts.enc_sec txt) ->
   Charts.extract (Charts.enc_sec txt) = Ok []
   /\ Charts.parse_mylib_results txt
      = (dec_df <- Charts.extract (Charts.dec_sec txt) ;; Ok ([], dec_df)))
  /\ (~ has_header_ws dec_name txt
      \/ empty_body Charts.pat (Charts.dec_sec txt) ->
      Charts.extract (Charts.dec_sec txt) = Ok []
      /\ Charts.parse_mylib_results txt
         = (enc_df <- Charts.extract (Charts.enc_sec txt) ;; Ok (enc_df, [])))
  /\ (~ has_header enc_header txt
      \/ empty_body TestParser.pattern (TestParser.encrypt_section txt) ->
      TestParser.extract_data
        (TestParser.section_text (TestParser.encrypt_section txt)) = Ok []
      /\ TestParser.parse_test_results txt
         = (decrypt_data <-
              TestParser.extract_data
                (TestParser.section_text (TestParser.decrypt_section txt)) ;;
            Ok ([], decrypt_data)))
  /\ (~ has_header dec_header txt
      \/ empty_body TestParser.pattern (TestParser.decrypt_section txt) ->
      TestParser.extract_data
        (TestParser.section_text (TestParser.decrypt_section txt)) = Ok []
      /\ TestParser.parse_test_results txt
         = (encrypt_data <-
              TestParser.extract_data
                (TestParser.section_text (TestParser.encrypt_section txt)) ;;
            Ok (encrypt_data, []))).
Proof.
  assert (E1 : ~ has_header_ws enc_name txt
               \/ empty_body Charts.pat (Charts.enc_sec txt) ->
               Charts.extract (Charts.enc_sec txt) = Ok []).
  { intros [H|H]; apply extract_no_rows; [left|right; exact H].
    now apply enc_sec_absent. }
  assert (E2 : ~ has_header_ws dec_name txt
               \/ empty_body Charts.pat (Charts.dec_sec txt) ->
               Charts.extract (Charts.dec_sec txt) = Ok []).
  { intros [H|H]; apply extract_no_rows; [left|right; exact H].
    now apply dec_sec_absent. }
  assert (E3 : ~ has_header enc_header txt
               \/ empty_body TestParser.pattern
                    (TestParser.encrypt_section txt) ->
               TestParser.extract_data
                 (TestParser.section_text (TestParser.encrypt_section txt))
               = Ok []).
  { intros [H|H]; apply extract_data_no_rows; [left|right; exact H].
    now apply encrypt_section_absent. }
  assert (E4 : ~ has_header dec_header txt
               \/ empty_body TestParser.pattern
                    (TestParser.decrypt_section txt) ->
               TestParser.extract_data
                 (TestParser.section_text (TestParser.decrypt_section txt))
               = Ok []).
  { intros [H|H]; apply extract_data_no_rows; [left|right; exact H].
    now apply decrypt_section_absent. }
  split; [|split; [|split]]; intros H; (split; [auto|]).
  - unfold Charts.parse_mylib_results. now rewrite (E1 H).
  - unfold Charts.parse_mylib_results. rewrite (E2 H).
    destruct (Charts.extract (Charts.enc_sec txt)); reflexivity.
  - unfold TestParser.parse_test_results. now rewrite (E3 H).
  - unfold TestParser.parse_test_results. rewrite (E4 H).
    destruct (TestParser.extract_data
                (TestParser.section_text (TestParser.encrypt_section txt)));
      reflexivity.
Qed.

Definition log_only_dec : text := unlines [dec_header; "1 | 4 | 150.0"].

Definition log_only_enc : text :=
  unlines [enc_header; "1 | 4 | 120.5"; "2 | 4 | 230.1"].

Lemma C2_missing_section_witness :
  Charts.parse_mylib_results log_only_dec = Ok ([], [Charts.Row 1 4 150])
  /\ Charts.parse_mylib_results log_only_enc
     = Ok ([Charts.Row 1 4 (241 # 2); Charts.Row 2 4 (2301 # 10)], [])
  /\ TestParser.parse_test_results log_only_dec
     = Ok ([], [TestParser.Row 1 4 150])
  /\ TestParser.parse_test_results log_only_enc
     = Ok ([TestParser.Row 1 4 (241 # 2); TestParser.Row 2 4 (2301 # 10)], []).
Proof.
  destruct (C2_missing_section log_only_dec) as (H1 & _ & H3 & _).
  destruct (C2_missing_section log_only_enc) as (_ & H2 & _ & H4).
  split; [|split; [|split]].
  - rewrite (proj2 (H1 (or_introl
                          (proj2 (enc_sec_absent log_only_dec) eq_refl)))).
    reflexivity.
  - rewrite (proj2 (H2 (or_introl
                          (proj2 (dec_sec_absent log_only_enc) eq_refl)))).
    reflexivity.
  - rewrite (proj2 (H3 (or_introl
                          (proj2 (encrypt_section_absent log_only_dec)
                             eq_refl)))).
    reflexivity.
  - rewrite (proj2 (H4 (or_introl
                          (proj2 (decrypt_section_absent log_only_enc)
                             eq_refl)))).
    reflexivity.
Defined.

(** ** Round trip *)

(** A row written as text: three fields, numbers in any decimal notation. *)
Definition written_ok (m : text * text * text) : bool :=
  let '(th, ch, thr) := m in
  all_digits th && negb (is_nil th) && is_number ch && is_number thr.

(** The fields [m] are a way of writing the row [r]. *)
Definition writes (m : text * text * text) (r : Charts.row) : Prop :=
  written_ok m = true /\ mylib_denotes m r.

(** "<threads> | <chunk> | <throughput>" and a newline. *)
Definition render_line (m : text * text * text) : text :=
  let '(th, ch, thr) := m in
  th ++ T " | " ++ ch ++ T " | " ++ thr ++ nl.

Definition render_lines (w : list (text * text * text)) : text :=
  concat (map render_line w).

(** The two tables under their headers. *)
Definition render (wenc wdec : list (text * text * text)) : text :=
  T enc_header ++ nl ++ render_lines wenc
  ++ T dec_header ++ nl ++ render_lines wdec.

Definition item_of (m : text * text * text) : list item :=
  let '(th, ch, thr) := m in
  [Data (Line th (T " ") (T " ") ch (T " ") (T " ") thr); Junk nl].

Definition items_of (w : list (text * text * text)) : list item :=
  Junk nl :: flat_map item_of w.

Lemma is_number_chars s :
  is_number s = true ->
  forallb is_digit_or_dot s = true /\ is_nil s = false.
Proof.
  unfold is_number. rewrite span_digits_spec. intros H.
  rewrite <- (take_drop_while is_digit s).
  assert (Hd : forallb is_digit_or_dot (take_while is_digit s) = true).
  { assert (H0 := take_while_all is_digit s). rewrite forallb_forall in *.
    auto using digit_is_digit_or_dot. }
  destruct (drop_while is_digit s) as [|a fp].
  - rewrite app_nil_r. split; [exact Hd|]. now apply negb_true_iff.
  - apply andb_true_iff in H as [H _]. apply andb_true_iff in H as [Ha Hf].
    apply Ascii.eqb_eq in Ha. subst a. split.
    + rewrite forallb_app, Hd. cbn [forallb]. unfold all_digits in Hf.
      simpl. rewrite forallb_forall in *. auto using digit_is_digit_or_dot.
    + destruct (take_while is_digit s); reflexivity.
Qed.

Lemma digit_or_dot_no_eq s : forallb is_digit_or_dot s = true -> no_eq s = true.
Proof.
  unfold no_eq. rewrite !forallb_forall. intros H a Ha. specialize (H a Ha).
  destruct (Ascii.eqb a eq_sign) eqn:E; [|reflexivity].
  apply Ascii.eqb_eq in E. subst a. discriminate.
Qed.

Lemma written_ok_fields th ch thr :
  written_ok (th, ch, thr) = true ->
  all_digits th = true /\ is_nil th = false
  /\ is_number ch = true /\ is_number thr = true.
Proof.
  unfold written_ok. intros H. repeat (apply andb_true_iff in H as [H ?]).
  match goal with X : negb _ = true |- _ => apply negb_true_iff in X end.
  auto.
Qed.

Lemma flatten_items_of w : flatten (items_of w) = nl ++ render_lines w.
Proof.
  unfold items_of, render_lines. cbn [flatten]. f_equal.
  induction w as [|[[th ch] thr] w IH]; [reflexivity|].
  cbn [flat_map map concat item_of app flatten]. rewrite IH.
  unfold render_line, line_text. cbn [l_threads l_w1 l_w2 l_chunk l_w3 l_w4
    l_throughput]. repeat (rewrite <- app_assoc; cbn [app]). reflexivity.
Qed.

Lemma data_items_of w : data_of (items_of w) = w.
Proof.
  unfold items_of. cbn [data_of].
  induction w as [|[[th ch] thr] w IH]; [reflexivity|].
  cbn [flat_map item_of app data_of]. unfold fields. simpl. now rewrite IH.
Qed.

Lemma body_items_of w :
  forallb written_ok w = true -> body_ok is_digit_or_dot (items_of w) = true.
Proof.
  unfold items_of. cbn [body_ok]. intros H.
  induction w as [|[[th ch] thr] w IH]; [reflexivity|].
  cbn [forallb] in H. apply andb_true_iff in H as [Hm Hw].
  apply written_ok_fields in Hm as (H1 & H2 & H3 & H4).
  apply is_number_chars in H3 as [H3 H3']. apply is_number_chars in H4 as [H4 H4'].
  specialize (IH Hw). cbn [andb no_digit forallb] in IH.
  cbn [flat_map item_of app body_ok flatten starts_in].
  unfold line_ok. cbn [l_threads l_w1 l_w2 l_chunk l_w3 l_w4 l_throughput].
  unfold all_digits in H1. rewrite H1, H2, H3, H3', H4, H4'. exact IH.
Qed.

Lemma no_eq_render_lines w :
  forallb written_ok w = true -> no_eq (render_lines w) = true.
Proof.
  intros H. induction w as [|[[th ch] thr] w IH]; [reflexivity|].
  cbn [forallb] in H. apply andb_true_iff in H as [Hm Hw].
  apply written_ok_fields in Hm as (H1 & H2 & H3 & H4).
  apply is_number_chars in H3 as [H3 _]. apply is_number_chars in H4 as [H4 _].
  unfold render_lines. cbn [map concat]. fold (render_lines w).
  unfold render_line. rewrite !no_eq_app, (IH Hw).
  rewrite (digit_or_dot_no_eq ch), (digit_or_dot_no_eq thr) by assumption.
  rewrite (digit_or_dot_no_eq th); [reflexivity|].
  unfold all_digits in H1. rewrite forallb_forall in *.
  auto using digit_is_digit_or_dot.
Qed.

Lemma numbers_items_of w :
  forallb written_ok w = true -> numbers_ok (items_of w) = true.
Proof.
  unfold numbers_ok. rewrite data_items_of, !forallb_forall.
  intros H [[th ch] thr] Hin. apply H in Hin.
  apply written_ok_fields in Hin as (_ & _ & -> & ->). reflexivity.
Qed.

(** After the encryption header of a rendered log comes a newline and then a
    digit or "=": no decryption header starts at its closing "===". *)
Lemma render_no_early_dec w x :
  forallb written_ok w = true ->
  strip_header_ws dec_name
    (T "===" ++ (nl ++ render_lines w) ++ T dec_header ++ x) = None.
Proof.
  intros H. unfold strip_header_ws. rewrite strip_prefix_app.
  destruct w as [|[[th ch] thr] w].
  - reflexivity.
  - cbn [forallb] in H. apply andb_true_iff in H as [Hm _].
    apply written_ok_fields in Hm as (H1 & H2 & _).
    destruct th as [|a th]; [discriminate|].
    unfold all_digits in H1. cbn [forallb] in H1.
    apply andb_true_iff in H1 as [Ha _].
    unfold render_lines. cbn [map concat render_line app nl].
    cbn [drop_while]. change (is_space newline) with true. cbv iota.
    cbn [drop_while].
    assert (Hs : is_space a = false)
      by (apply digit_or_dot_not_space, digit_is_digit_or_dot, Ha).
    rewrite Hs.
    change (T dec_name) with ("D"%char :: T "ECRYPTION THREAD/CHUNK SWEEP").
    rewrite strip_prefix_neq; [reflexivity|].
    destruct (Ascii.eqb a "D") eqn:E; [|reflexivity].
    apply Ascii.eqb_eq in E. subst a. discriminate.
Qed.

(** Parsing a rendered log gives the rows that were written. *)
Lemma parse_render wenc wdec :
  forallb written_ok wenc = true -> forallb written_ok wdec = true ->
  Charts.parse_mylib_results (render wenc wdec)
  = Ok (map mylib_row wenc, map mylib_row wdec).
Proof.
  intros H1 H2.
  assert (E : render wenc wdec
              = log [] (flatten (items_of wenc)) (flatten (items_of wdec))).
  { unfold render, log. rewrite !flatten_items_of.
    repeat (rewrite <- app_assoc; cbn [app]). reflexivity. }
  rewrite E. rewrite mylib_log.
  - now rewrite !data_items_of.
  - reflexivity.
  - rewrite flatten_items_of. now apply no_eq_render_lines.
  - rewrite flatten_items_of. now apply no_eq_render_lines.
  - now apply numbers_items_of.
  - now apply numbers_items_of.
  - reflexivity.
  - now apply body_items_of.
  - now apply body_items_of.
  - rewrite flatten_items_of. now apply render_no_early_dec.
Qed.

(** The numbers a parser returns are fractions in lowest terms. *)
Definition canonical_row (r : Charts.row) : Prop :=
  Qred (Charts.ChunkMB r) = Charts.ChunkMB r
  /\ Qred (Charts.Throughput r) = Charts.Throughput r.

Lemma float_value_canonical s : Qred (float_value s) = float_value s.
Proof.
  unfold float_value. destruct (span_digits s) as [ip r].
  unfold decimal. apply Qred_complete, Qred_correct.
Qed.

Lemma py_int_Ok_nonempty s z : py_int s = Ok z -> is_nil s = false.
Proof.
  unfold py_int. destruct (all_digits s); simpl; [|discriminate].
  destruct (is_nil s); simpl; [discriminate|reflexivity].
Qed.

Lemma make_row_writes m r :
  Charts.make_row m = Ok r -> writes m r /\ canonical_row r.
Proof.
  destruct m as [[th ch] thr]. unfold Charts.make_row.
  destruct (py_int th) as [t|] eqn:E1; [|discriminate].
  destruct (py_float ch) as [c|] eqn:E2; [|discriminate].
  destruct (py_float thr) as [p|] eqn:E3; [|discriminate].
  cbn [bind]. intros H. inversion H; subst r.
  assert (N := py_int_Ok_nonempty _ _ E1).
  apply py_int_Ok in E1 as [D ->].
  apply py_float_Ok in E2 as [N2 ->]. apply py_float_Ok in E3 as [N3 ->].
  unfold writes, written_ok, mylib_denotes, canonical_row. simpl.
  rewrite D, N, N2, N3, !float_value_canonical.
  repeat split; auto using float_value_spec.
Qed.

Lemma extract_writes sec rows :
  Charts.extract sec = Ok rows ->
  exists w, Forall2 writes w rows /\ Forall canonical_row rows.
Proof.
  destruct sec as [m|]; simpl.
  - intros H. apply for_each_Ok in H.
    exists (findall3 Charts.pat (group 1 m)).
    induction H as [|a r l rs Ha _ [IH1 IH2]]; [split; constructor|].
    apply make_row_writes in Ha as [Ha Hc]. split; constructor; auto.
  - intros H. inversion H. exists []. split; constructor.
Qed.

Lemma writes_canonical m r : writes m r -> canonical_row r -> mylib_row m = r.
Proof.
  destruct m as [[th ch] thr], r as [t c p].
  unfold writes, mylib_denotes, canonical_row, mylib_row. simpl.
  intros (_ & -> & Hc & Hp) (Cc & Cp). f_equal.
  - rewrite <- Cc, <- float_value_canonical. apply Qred_complete.
    now rewrite float_value_spec, Hc.
  - rewrite <- Cp, <- float_value_canonical. apply Qred_complete.
    now rewrite float_value_spec, Hp.
Qed.

Lemma writes_all w rows :
  Forall2 writes w rows -> Forall canonical_row rows ->
  forallb written_ok w = true /\ map mylib_row w = rows.
Proof.
  induction 1 as [|m r w rows Hm _ IH]; intros Hc; [auto|].
  inversion Hc; subst. destruct (IH H2) as [IH1 IH2].
  cbn [forallb map]. rewrite IH1, IH2, (writes_canonical m r) by assumption.
  destruct Hm as [-> _]. auto.
Qed.

(** C9: whatever [parse_mylib_results] returns can be written back as triplet
    lines, and for every way of writing the rows (any decimal notation of the
    same numbers), parsing the lines under the two headers gives back the
    same two tables, row for row. *)
Theorem C9_round_trip (txt : text) (enc dec : list Charts.row) :
  Charts.parse_mylib_results txt = Ok (enc, dec) ->
  (exists wenc wdec, Forall2 writes wenc enc /\ Forall2 writes wdec dec)
  /\ (forall wenc wdec,
         Forall2 writes wenc enc -> Forall2 writes wdec dec ->
         Charts.parse_mylib_results (render wenc wdec) = Ok (enc, dec)).
Proof.
  unfold Charts.parse_mylib_results at 1. intros H.
  destruct (Charts.extract (Charts.enc_sec txt)) as [e|] eqn:E1;
    [|discriminate].
  destruct (Charts.extract (Charts.dec_sec txt)) as [d|] eqn:E2;
    [|discriminate].
  cbn [bind] in H. inversion H; subst e d.
  apply extract_writes in E1 as (w1 & W1 & C1).
  apply extract_writes in E2 as (w2 & W2 & C2).
  split; [eauto|]. intros wenc wdec We Wd.
  destruct (writes_all _ _ We C1) as [O1 <-].
  destruct (writes_all _ _ Wd C2) as [O2 <-].
  now apply parse_render.
Qed.

Definition written_small_enc : list (text * text * text) :=
  [(T "1", T "4.0", T "120.50"); (T "2", T "4.0", T "230.1")].

Definition written_small_dec : list (text * text * text) :=
  [(T "01", T "4", T "150")].

Lemma C9_round_trip_witness :
  Charts.parse_mylib_results small_log
  = Ok ([Charts.Row 1 4 (241 # 2); Charts.Row 2 4 (2301 # 10)],
        [Charts.Row 1 4 150])
  /\ Charts.parse_mylib_results (render written_small_enc written_small_dec)
     = Ok ([Charts.Row 1 4 (241 # 2); Charts.Row 2 4 (2301 # 10)],
           [Charts.Row 1 4 150]).
Proof.
  split; [reflexivity|].
  apply (proj2 (C9_round_trip small_log _ _ eq_refl)).
  - repeat constructor.
  - repeat constructor.
Defined.

(** ** The OpenSSL table *)

Import Charts.

Definition block_le (a b : ossl_row) : Prop := (BlockBytes a <= BlockBytes b)%Z.
Definition block_lt (a b : ossl_row) : Prop := (BlockBytes a < BlockBytes b)%Z.

Lemma insert_by_block_perm x l : Permutation (insert_by_block x l) (x :: l).
Proof.
  induction l as [|y l IH]; cbn [insert_by_block]; [reflexivity|].
  destruct (BlockBytes y <? BlockBytes x)%Z; [|reflexivity].
  rewrite IH. apply perm_swap.
Qed.

Lemma sort_by_block_perm l : Permutation (sort_by_block l) l.
Proof.
  induction l as [|x l IH]; [reflexivity|].
  unfold sort_by_block. cbn [fold_right]. fold (sort_by_block l).
  rewrite insert_by_block_perm. now constructor.
Qed.

Lemma insert_by_block_sorted x l :
  Sorted block_le l -> Sorted block_le (insert_by_block x l).
Proof.
  induction l as [|y l IH]; intros H; cbn [insert_by_block].
  - repeat constructor.
  - destruct (BlockBytes y <? BlockBytes x)%Z eqn:E.
    + apply Z.ltb_lt in E. inversion H as [|? ? Hs Hh]; subst.
      constructor; [auto|].
      destruct l as [|z l]; cbn [insert_by_block].
      * constructor. unfold block_le. lia.
      * destruct (BlockBytes z <? BlockBytes x)%Z.
        -- inversion Hh; subst. now constructor.
        -- constructor. unfold block_le. lia.
    + apply Z.ltb_ge in E. constructor; [exact H|]. now constructor.
Qed.

Lemma sort_by_block_sorted l : Sorted block_le (sort_by_block l).
Proof.
  induction l as [|x l IH]; [constructor|].
  unfold sort_by_block. cbn [fold_right]. now apply insert_by_block_sorted.
Qed.

Lemma sort_by_block_id l : Sorted block_lt l -> sort_by_block l = l.
Proof.
  induction 1 as [|x l Hs IH Hh]; [reflexivity|].
  unfold sort_by_block. cbn [fold_right]. fold (sort_by_block l). rewrite IH.
  destruct Hh as [|y l Hxy]; [reflexivity|]. cbn [insert_by_block].
  unfold block_lt in Hxy.
  replace (BlockBytes y <? BlockBytes x)%Z with false; [reflexivity|].
  symmetry. apply Z.ltb_ge. lia.
Qed.

Lemma zip_rows_sorted sizes qs :
  Sorted Z.lt sizes -> Sorted block_lt (zip_rows sizes qs).
Proof.
  intros H. revert qs.
  induction H as [|x l Hs IH Hh]; intros qs; [constructor|].
  destruct qs as [|q qs]; [constructor|].
  unfold zip_rows. cbn [combine map]. constructor; [apply IH|].
  destruct Hh as [|y l Hxy]; [constructor|].
  destruct qs as [|q' qs]; constructor. exact Hxy.
Qed.

Lemma combine_firstn {A B C} (f : B -> C) (a : list A) (b : list B) :
  let n := Nat.min (length a) (length b) in
  combine (firstn n a) (map f (firstn n b)) = combine a (map f b).
Proof.
  revert b. induction a as [|x a IH]; intros [|y b]; try reflexivity.
  cbn [length Nat.min firstn map combine]. f_equal. apply IH.
Qed.

Lemma for_each_div1000 l :
  for_each (fun v => py_div v (inject_Z 1000)) l
  = Ok (map (fun v => Qred (v / inject_Z 1000)) l).
Proof. apply for_each_map. reflexivity. Qed.

(** The parser on a text in which the header and the row are recognised. *)
Lemma parse_openssl_structured txt hm rm sizes vals :
  search header_re txt = Some hm -> search row_re txt = Some rm ->
  for_each py_int (findall1 bytes_re (group 1 hm)) = Ok sizes ->
  for_each py_float (findall1 kval_re (group 1 rm)) = Ok vals ->
  parse_openssl_results txt
  = Ok (sort_by_block
          (zip_rows sizes (map (fun v => Qred (v / inject_Z 1000)) vals))).
Proof.
  intros H1 H2 H3 H4. unfold parse_openssl_results.
  rewrite H1, H2, H3, H4. cbn [bind]. rewrite for_each_div1000. cbn [bind].
  unfold zip_rows. now rewrite combine_firstn.
Qed.

Definition openssl_plain : text :=
  unlines ["type 16 bytes 64 bytes"; "AES-128-GCM 103872.58k 205000.00k"].

Definition openssl_trailing_space : text :=
  unlines ["type 16 bytes 64 bytes "; "AES-128-GCM 103872.58k 205000.00k"].

(** The rows of the example in the specification; 5193629/50000 is
    103.87258. *)
Definition claimed_rows : list ossl_row :=
  [OsslRow 16 (5193629 # 50000) "AES-128-GCM";
   OsslRow 64 205 "AES-128-GCM"].

(** C7, as stated, fails on its example: every row is labelled
    "OpenSSL AES-128-GCM", not "AES-128-GCM"; and when the header line ends
    right after its last "bytes" the header is not recognised and no row is
    returned. *)
Lemma C7_example_rows :
  parse_openssl_results openssl_trailing_space
  = Ok [OsslRow 16 (5193629 # 50000) "OpenSSL AES-128-GCM";
        OsslRow 64 205 "OpenSSL AES-128-GCM"]
  /\ parse_openssl_results openssl_trailing_space <> Ok claimed_rows
  /\ parse_openssl_results openssl_plain = Ok []
  /\ parse_openssl_results openssl_plain <> Ok claimed_rows.
Proof.
  repeat split; try (vm_compute; reflexivity); vm_compute; discriminate.
Qed.

(** The row reported for a block-report line: its numbers convert, the
    product ops * block is below the limit of the conversion to a float, the
    seconds are not read as 0.0, and the throughput is
    (ops * block) / seconds / 1000000. *)
Definition reported (m : caps) (r : ossl_row) : Prop :=
  exists block ops secs,
    py_int (group 1 m) = Ok block /\ py_int (group 2 m) = Ok ops
    /\ py_float (group 3 m) = Ok secs
    /\ (ops * block < float_int_limit)%Z /\ is_float_zero secs = false
    /\ BlockBytes r = block
    /\ (ThroughputMBps r
        == inject_Z (ops * block) / secs / inject_Z 1000000)%Q
    /\ Label r = label.

Lemma py_div_Ok a b q :
  py_div a b = Ok q -> ~ (b == 0)%Q /\ (q == a / b)%Q.
Proof.
  unfold py_div. destruct (Qeq_bool b 0) eqn:E; [discriminate|].
  intros H. assert (Hq : q = Qred (a / b)) by congruence. subst q.
  split; [|apply Qred_correct].
  intros Hb. apply Qeq_bool_neq in E. contradiction.
Qed.

Lemma py_div_nonzero a b :
  ~ (b == 0)%Q -> py_div a b = Ok (Qred (a / b)).
Proof.
  intros H. unfold py_div. destruct (Qeq_bool b 0) eqn:E; [|reflexivity].
  apply Qeq_bool_eq in E. contradiction.
Qed.

Lemma py_int_div_Ok n x q :
  py_int_div n x = Ok q ->
  (n < float_int_limit)%Z /\ is_float_zero x = false
  /\ (q == inject_Z n / x)%Q.
Proof.
  unfold py_int_div. destruct (float_int_limit <=? n)%Z eqn:L; [discriminate|].
  destruct (is_float_zero x) eqn:E; [discriminate|].
  intros H. assert (Hq : q = Qred (inject_Z n / x)) by congruence. subst q.
  apply Z.leb_gt in L. auto using Qred_correct.
Qed.

Lemma py_int_div_in_range n x :
  (n < float_int_limit)%Z -> is_float_zero x = false ->
  py_int_div n x = Ok (Qred (inject_Z n / x)).
Proof.
  intros L E. unfold py_int_div. apply Z.leb_gt in L. now rewrite L, E.
Qed.

Lemma block_row_reported m r : block_row m = Ok r -> reported m r.
Proof.
  unfold block_row.
  destruct (py_int (group 1 m)) as [block|] eqn:E1; [|discriminate].
  destruct (py_int (group 2 m)) as [ops|] eqn:E2; [|discriminate].
  destruct (py_float (group 3 m)) as [secs|] eqn:E3; [|discriminate].
  cbn [bind].
  destruct (py_int_div (ops * block) secs) as [bps|] eqn:E4; [|discriminate].
  cbn [bind].
  destruct (py_div bps (inject_Z 1000000)) as [mbps|] eqn:E5; [|discriminate].
  cbn [bind]. intros H. inversion H; subst r.
  apply py_int_div_Ok in E4 as (Hl & Hs & Hb). apply py_div_Ok in E5 as [_ Hm].
  exists block, ops, secs. repeat split; auto. simpl. now rewrite Hm, Hb.
Qed.

Lemma reported_block_row m r : reported m r -> exists r', block_row m = Ok r'.
Proof.
  intros (block & ops & secs & E1 & E2 & E3 & Hl & Hs & _).
  unfold block_row. rewrite E1, E2, E3. cbn [bind].
  rewrite (py_int_div_in_range _ _ Hl Hs). cbn [bind].
  rewrite py_div_nonzero by discriminate. cbn [bind]. eauto.
Qed.

Lemma for_each_total {A B} (f : A -> result B) l :
  (forall a, In a l -> exists b, f a = Ok b) -> exists bs, for_each f l = Ok bs.
Proof.
  induction l as [|a l IH]; intros H; [exists []; reflexivity|].
  destruct (H a (or_introl eq_refl)) as [b Hb].
  destruct IH as [bs Hbs]; [intros; apply H; now right|].
  exists (b :: bs). cbn [for_each]. now rewrite Hb, Hbs.
Qed.

Definition report_zero_seconds : text :=
  T "on 16 size blocks: 5 AES-128-GCM ops in 0s".

Definition report_no_number : text := T "on 1 size blocks: in .s".

(** A block size of 401 digits, and seconds written 0.00...01 with 400
    zeros after the point. *)
Definition report_huge_block : text :=
  T "on 1" ++ repeat "0"%char 400
    ++ T " size blocks: 1 AES-128-GCM ops in 1s".

Definition report_tiny_seconds : text :=
  T "on 16 size blocks: 5 AES-128-GCM ops in 0." ++ repeat "0"%char 400
    ++ T "1s".

(** The claim at one input without the header/row shape: a table comes
    back, with one row for each block-report line. *)
Definition fallback_claim (txt : text) : Prop :=
  search header_re txt = None ->
  exists rows,
    parse_openssl_results txt = Ok rows
    /\ length rows = length (finditer pat2 txt).

(** C8, as stated, fails: a report line with zero seconds makes the division
    raise, and a line that is no block report but ends in " in .s" makes the
    conversion of the first scan raise although there is no row to return.
    The division also raises when ops * block is too large to be converted
    to a float, and when the seconds are so small that [float] reads them
    as 0.0. *)
Lemma C8_fallback_raises :
  search header_re report_zero_seconds = None
  /\ parse_openssl_results report_zero_seconds = Raise ZeroDivisionError
  /\ ~ fallback_claim report_zero_seconds
  /\ search header_re report_no_number = None
  /\ finditer pat2 report_no_number = []
  /\ parse_openssl_results report_no_number = Raise ValueError
  /\ ~ fallback_claim report_no_number
  /\ search header_re report_huge_block = None
  /\ parse_openssl_results report_huge_block = Raise OverflowError
  /\ ~ fallback_claim report_huge_block
  /\ search header_re report_tiny_seconds = None
  /\ parse_openssl_results report_tiny_seconds = Raise ZeroDivisionError
  /\ ~ fallback_claim report_tiny_seconds.
Proof.
  assert (E1 : parse_openssl_results report_zero_seconds
               = Raise ZeroDivisionError) by (vm_compute; reflexivity).
  assert (E2 : parse_openssl_results report_no_number = Raise ValueError)
    by (vm_compute; reflexivity).
  assert (E3 : parse_openssl_results report_huge_block = Raise OverflowError)
    by (vm_compute; reflexivity).
  assert (E4 : parse_openssl_results report_tiny_seconds
               = Raise ZeroDivisionError) by (vm_compute; reflexivity).
  repeat split; try (vm_compute; reflexivity).
  - intros C. destruct C as (rows & H & _); [vm_compute; reflexivity|].
    rewrite E1 in H. discriminate.
  - intros C. destruct C as (rows & H & _); [vm_compute; reflexivity|].
    rewrite E2 in H. discriminate.
  - intros C. destruct C as (rows & H & _); [vm_compute; reflexivity|].
    rewrite E3 in H. discriminate.
  - intros C. destruct C as (rows & H & _); [vm_compute; reflexivity|].
    rewrite E4 in H. discriminate.
Qed.

Lemma Forall2_length_eq {A B} (P : A -> B -> Prop) l l' :
  Forall2 P l l' -> length l = length l'.
Proof. induction 1; simpl; congruence. Qed.

(** C8, amended: when the header line or the row is not recognised, the table
    is made from the block-report lines ("on N size blocks: M AES-128-GCM ops
    in Ss", any letter case).  Whenever the parser returns, the table holds
    one row per report line, with throughput (ops * block) / seconds / 1000000,
    in ascending order of block size.  It returns when the numbers of every
    line of the first, looser scan convert and every report line has numbers
    that convert, a product ops * block below 2^1024 - 2^970 (from there on
    the conversion of the product to a float raises [OverflowError]) and
    seconds above 2^-1075 (up to there [float] reads them as 0.0 and the
    division raises [ZeroDivisionError]); in particular, with no match of
    either scan the table is empty. *)
Theorem C8_fallback (txt : text) :
  search header_re txt = None \/ search row_re txt = None ->
  parse_openssl_results txt = fallback txt
  /\ (forall rows,
         parse_openssl_results txt = Ok rows ->
         Sorted block_le rows
         /\ exists data,
              Forall2 reported (finditer pat2 txt) data
              /\ Permutation rows data)
  /\ ((forall m, In m (finditer blocks_pat txt) ->
                 exists s t, py_int (group 1 m) = Ok s
                             /\ py_float (group 2 m) = Ok t) ->
      (forall m, In m (finditer pat2 txt) -> exists r, reported m r) ->
      exists rows,
        parse_openssl_results txt = Ok rows
        /\ length rows = length (finditer pat2 txt))
  /\ (finditer blocks_pat txt = [] -> finditer pat2 txt = [] ->
      parse_openssl_results txt = Ok []).
Proof.
  intros H.
  assert (E : parse_openssl_results txt = fallback txt).
  { unfold parse_openssl_results.
    destruct H as [-> | ->]; [reflexivity|].
    destruct (search header_re txt); reflexivity. }
  rewrite E. split; [reflexivity|]. split; [|split].
  - intros rows Hr. unfold fallback in Hr.
    destruct (for_each size_and_time _) as [st|]; [|discriminate].
    cbn [bind] in Hr.
    destruct (for_each block_row (finditer pat2 txt)) as [data|] eqn:D;
      [|discriminate].
    cbn [bind] in Hr. inversion Hr; subst rows. split.
    + apply sort_by_block_sorted.
    + exists data. split; [|apply sort_by_block_perm].
      apply for_each_Ok in D. clear - D.
      induction D; constructor; auto using block_row_reported.
  - intros H1 H2. unfold fallback.
    destruct (for_each_total size_and_time (finditer blocks_pat txt))
      as [st ->].
    { intros m Hm. destruct (H1 m Hm) as (s & t & Hs & Ht).
      unfold size_and_time. rewrite Hs, Ht. cbn [bind]. eauto. }
    destruct (for_each_total block_row (finditer pat2 txt)) as [data D].
    { intros m Hm. destruct (H2 m Hm) as [r Hr].
      eapply reported_block_row; eauto. }
    rewrite D. cbn [bind]. eexists. split; [reflexivity|].
    rewrite (Permutation_length (sort_by_block_perm data)).
    symmetry. eapply Forall2_length_eq. apply for_each_Ok. exact D.
  - intros H1 H2. unfold fallback. rewrite H1, H2. reflexivity.
Qed.

Definition report_line : text :=
  unlines ["Doing AES-128-GCM ops for 3s on 16 size blocks: 19070356 AES-128-GCM ops in 2.94s"].

Lemma C8_fallback_witness :
  parse_openssl_results report_line = fallback report_line
  /\ (exists rows,
        parse_openssl_results report_line = Ok rows
        /\ length rows = length (finditer pat2 report_line))
  /\ parse_openssl_results [] = Ok [].
Proof.
  split; [|split].
  - apply (C8_fallback report_line). left. reflexivity.
  - destruct (C8_fallback report_line (or_introl eq_refl)) as (_ & _ & H & _).
    apply H.
    + intros m Hm. vm_compute in Hm. destruct Hm as [<-|[]].
      exists 16, (147 # 50)%Q. split; reflexivity.
    + intros m Hm. vm_compute in Hm. destruct Hm as [<-|[]].
      exists (OsslRow 16 (9535178 # 91875) label), 16, 19070356, (147 # 50)%Q.
      repeat split; vm_compute; reflexivity.
  - apply (C8_fallback []); [left|..]; reflexivity.
Defined.

(** * What the patterns capture

    Every success of the matcher reads a text of the shape of the pattern;
    the groups of the row patterns are therefore non-empty strings of their
    classes, whatever the input. *)

Lemma run_chr_sound f k pv s c o :
  run (Chr f) k (Cursor pv s) c = Some o ->
  exists a s', s = a :: s' /\ f a = true /\ k (Cursor (Some a) s') c = Some o.
Proof.
  cbn [run rest]. destruct s as [|a s']; [discriminate|].
  destruct (f a) eqn:E; [|discriminate]. intros H. exists a, s'. auto.
Qed.

Lemma greedy_chr_sound f k pv s c o :
  greedy_chr f k pv s c = Some o ->
  exists u v pv', s = u ++ v /\ forallb f u = true
                  /\ k (Cursor pv' v) c = Some o.
Proof.
  revert pv. induction s as [|a s IH]; intros pv H; cbn [greedy_chr] in H.
  - exists [], [], pv. auto.
  - destruct (f a) eqn:E.
    + destruct (greedy_chr f k (Some a) s c) as [o'|] eqn:G; cbn [orelse] in H.
      * assert (o' = o) by congruence. subst o'.
        destruct (IH _ G) as (u & v & pv' & -> & Hu & Hk).
        exists (a :: u), v, pv'. cbn [forallb app]. rewrite E, Hu. auto.
      * exists [], (a :: s), pv. auto.
    + exists [], (a :: s), pv. auto.
Qed.

Lemma run_star_sound f k pv s c o :
  run (Star (Chr f)) k (Cursor pv s) c = Some o ->
  exists u v pv', s = u ++ v /\ forallb f u = true
                  /\ k (Cursor pv' v) c = Some o.
Proof. rewrite run_star_chr. apply greedy_chr_sound. Qed.

Lemma run_group_plus_sound f n k pv s c o :
  run (Group n (Plus (Chr f))) k (Cursor pv s) c = Some o ->
  exists u v pv',
    s = u ++ v /\ is_nil u = false /\ forallb f u = true
    /\ k (Cursor pv' v) ((n, u) :: c) = Some o.
Proof.
  rewrite run_group. unfold Plus. rewrite run_cat. intros H.
  apply run_chr_sound in H as (a & s' & -> & Ha & H).
  apply run_star_sound in H as (u & v & pv' & -> & Hu & H).
  exists (a :: u), v, pv'. cbn [forallb]. rewrite Ha, Hu.
  pose proof (between_app pv pv' (a :: u) v) as B. cbn [app] in B.
  cbv beta in H. rewrite B in H. auto.
Qed.

Lemma run_lit_sound l k pv s c o :
  run (lit_chars Ascii.eqb l) k (Cursor pv s) c = Some o ->
  exists v, s = l ++ v /\ k (Cursor (after pv l) v) c = Some o.
Proof.
  rewrite run_lit. destruct (strip_prefix l s) as [v|] eqn:E; [|discriminate].
  apply strip_prefix_Some in E. eauto.
Qed.

(** A captured field: not empty, all of its characters in the class. *)
Definition field_of (f : ascii -> bool) (g : text) : Prop :=
  is_nil g = false /\ forallb f g = true.

Lemma triplet_sound f2 pv s c p :
  match_at (triplet_re f2) pv s = Some (c, p) ->
  exists g1 g2 g3,
    c = [(3%nat, g3); (2%nat, g2); (1%nat, g1)]
    /\ field_of is_digit g1 /\ field_of f2 g2 /\ field_of is_digit_or_dot g3.
Proof.
  unfold match_at, triplet_re. rewrite run_cat. intros H.
  apply run_group_plus_sound in H as (g1 & s1 & pv1 & _ & N1 & F1 & H).
  rewrite run_cat in H.
  apply run_star_sound in H as (w1 & s2 & pv2 & _ & _ & H).
  rewrite run_cat in H. unfold lit at 1 in H.
  apply run_lit_sound in H as (s3 & _ & H). rewrite run_cat in H.
  apply run_star_sound in H as (w2 & s4 & pv4 & _ & _ & H).
  rewrite run_cat in H.
  apply run_group_plus_sound in H as (g2 & s5 & pv5 & _ & N2 & F2 & H).
  rewrite run_cat in H.
  apply run_star_sound in H as (w3 & s6 & pv6 & _ & _ & H).
  rewrite run_cat in H. unfold lit at 1 in H.
  apply run_lit_sound in H as (s7 & _ & H). rewrite run_cat in H.
  apply run_star_sound in H as (w4 & s8 & pv8 & _ & _ & H).
  apply run_group_plus_sound in H as (g3 & s9 & pv9 & _ & N3 & F3 & H).
  unfold final in H. inversion H; subst.
  exists g1, g2, g3. unfold field_of. auto.
Qed.

Lemma scan_In r c s :
  forall skip pv,
    In c (scan r skip pv s) ->
    exists pv' s' p, match_at r pv' s' = Some (c, p).
Proof.
  induction s as [|a s IH]; intros skip pv H.
  - destruct skip; cbn [scan] in H; [|destruct H].
    destruct (match_at r pv []) as [[c' p']|] eqn:E; [|destruct H].
    destruct H as [<-|[]]. eauto.
  - destruct skip; cbn [scan] in H; [|eauto].
    destruct (match_at r pv (a :: s)) as [[c' p']|] eqn:E; [|eauto].
    destruct H as [<-|H]; eauto.
Qed.

Lemma findall3_fields f2 s th ch thr :
  In (th, ch, thr) (findall3 (triplet_re f2) s) ->
  field_of is_digit th /\ field_of f2 ch /\ field_of is_digit_or_dot thr.
Proof.
  unfold findall3, finditer. intros H. apply in_map_iff in H as (c & E & H).
  apply scan_In in H as (pv' & s' & p & H).
  apply triplet_sound in H as (g1 & g2 & g3 & -> & H1 & H2 & H3).
  cbn in E. inversion E; subst. auto.
Qed.

(** ** When the row parsers raise *)

(** A match whose chunk size or throughput [float] refuses. *)
Definition bad_float (m : text * text * text) : bool :=
  let '(_, ch, thr) := m in negb (is_number ch && is_number thr).

(** A match whose throughput [float] refuses. *)
Definition bad_throughput (m : text * text * text) : bool :=
  let '(_, _, thr) := m in negb (is_number thr).

Lemma for_each_rows {A} (make : text * text * text -> result A)
    (bad : text * text * text -> bool) (row_of : text * text * text -> A) l :
  (forall m, In m l ->
             make m = if bad m then Raise ValueError else Ok (row_of m)) ->
  for_each make l
  = if existsb bad l then Raise ValueError else Ok (map row_of l).
Proof.
  induction l as [|m l IH]; intros H; [reflexivity|].
  cbn [for_each existsb map]. rewrite (H m) by (now left).
  destruct (bad m); [reflexivity|]. cbn [bind orb].
  rewrite IH by (intros; apply H; now right).
  destruct (existsb bad l); reflexivity.
Qed.

Lemma mylib_make_row_cases s m :
  In m (findall3 pat s) ->
  make_row m = if bad_float m then Raise ValueError else Ok (mylib_row m).
Proof.
  destruct m as [[th ch] thr]. rewrite pat_triplet. intros H.
  apply findall3_fields in H as ([N1 D1] & _ & _).
  unfold make_row, bad_float, mylib_row. rewrite py_int_digits by assumption.
  cbn [bind]. destruct (is_number ch) eqn:Ec.
  - rewrite py_float_number by assumption. cbn [bind andb].
    destruct (is_number thr) eqn:Et.
    + rewrite py_float_number by assumption. reflexivity.
    + rewrite py_float_not_number by assumption. reflexivity.
  - rewrite py_float_not_number by assumption. reflexivity.
Qed.

Lemma test_make_row_cases s m :
  In m (findall3 TestParser.pattern s) ->
  TestParser.make_row m
  = if bad_throughput m then Raise ValueError else Ok (test_row m).
Proof.
  destruct m as [[th ch] thr]. rewrite pattern_triplet. intros H.
  apply findall3_fields in H as ([N1 D1] & [N2 D2] & _).
  unfold TestParser.make_row, bad_throughput, test_row.
  rewrite !py_int_digits by assumption. cbn [bind].
  destruct (is_number thr) eqn:Et.
  - rewrite py_float_number by assumption. reflexivity.
  - rewrite py_float_not_number by assumption. reflexivity.
Qed.

(** The matches of the row pattern in a section, none for a missing one. *)
Definition mylib_matches (sec : option caps) : list (text * text * text) :=
  match sec with
  | Some m => findall3 pat (group 1 m)
  | None => []
  end.

Definition test_matches (sec : option caps) : list (text * text * text) :=
  findall3 TestParser.pattern (TestParser.section_text sec).

Lemma extract_cases sec :
  extract sec
  = if existsb bad_float (mylib_matches sec) then Raise ValueError
    else Ok (map mylib_row (mylib_matches sec)).
Proof.
  destruct sec as [m|]; [|reflexivity]. cbn [extract mylib_matches].
  unfold rows_of_body. apply for_each_rows. apply mylib_make_row_cases.
Qed.

Lemma extract_data_cases sec :
  TestParser.extract_data (TestParser.section_text sec)
  = if existsb bad_throughput (test_matches sec) then Raise ValueError
    else Ok (map test_row (test_matches sec)).
Proof.
  rewrite extract_data_all. apply for_each_rows. apply test_make_row_cases.
Qed.

(** Two loops run one after the other raise when one of them does. *)
Lemma both_cases {A B} (x : result A) (y : result B) (bx bY : bool) a b :
  x = (if bx then Raise ValueError else Ok a) ->
  y = (if bY then Raise ValueError else Ok b) ->
  (p <- x ;; q <- y ;; Ok (p, q))
  = if bx || bY then Raise ValueError else Ok (a, b).
Proof. intros -> ->. destruct bx, bY; reflexivity. Qed.

(** X1: for every input, [parse_mylib_results] raises exactly when a chunk
    size or a throughput captured in one of the two sections is not a number
    [float] accepts, and what it raises is [ValueError]; otherwise it returns
    one row per match of the pattern, in order.  The thread count never makes
    it raise. *)
Theorem mylib_raises_on_bad_float (txt : text) :
  parse_mylib_results txt
  = if existsb bad_float
         (mylib_matches (enc_sec txt) ++ mylib_matches (dec_sec txt))
    then Raise ValueError
    else Ok (map mylib_row (mylib_matches (enc_sec txt)),
             map mylib_row (mylib_matches (dec_sec txt))).
Proof.
  unfold parse_mylib_results. rewrite existsb_app.
  apply both_cases; apply extract_cases.
Qed.

(** X2: for every input, [parse_test_results] raises exactly when a
    throughput captured in one of the two sections is not a number [float]
    accepts, and what it raises is [ValueError]; thread count and chunk size
    never make it raise. *)
Theorem test_raises_on_bad_throughput (txt : text) :
  TestParser.parse_test_results txt
  = if existsb bad_throughput
         (test_matches (TestParser.encrypt_section txt)
            ++ test_matches (TestParser.decrypt_section txt))
    then Raise ValueError
    else Ok (map test_row (test_matches (TestParser.encrypt_section txt)),
             map test_row (test_matches (TestParser.decrypt_section txt))).
Proof.
  unfold TestParser.parse_test_results. rewrite existsb_app.
  apply both_cases; apply extract_data_cases.
Qed.

(** ** When the OpenSSL parser raises on a summary table *)

Lemma run_plus_sound f k pv s c o :
  run (Plus (Chr f)) k (Cursor pv s) c = Some o ->
  exists u v pv', s = u ++ v /\ is_nil u = false /\ forallb f u = true
                  /\ k (Cursor pv' v) c = Some o.
Proof.
  unfold Plus. rewrite run_cat. intros H.
  apply run_chr_sound in H as (a & s' & -> & Ha & H).
  apply run_star_sound in H as (u & v & pv' & -> & Hu & H).
  exists (a :: u), v, pv'. cbn [forallb]. rewrite Ha, Hu. auto.
Qed.

Lemma bytes_sound pv s c p :
  match_at bytes_re pv s = Some (c, p) ->
  exists g, c = [(1%nat, g)] /\ field_of is_digit g.
Proof.
  unfold match_at, bytes_re. rewrite run_cat. intros H.
  apply run_group_plus_sound in H as (g & s1 & pv1 & _ & N & F & H).
  rewrite run_cat in H.
  apply run_plus_sound in H as (w & s2 & pv2 & _ & _ & _ & H).
  unfold lit in H. apply run_lit_sound in H as (s3 & _ & H).
  unfold final in H. inversion H; subst. exists g. unfold field_of. auto.
Qed.

Lemma findall1_bytes_digits s g :
  In g (findall1 bytes_re s) -> field_of is_digit g.
Proof.
  unfold findall1, finditer. intros H. apply in_map_iff in H as (c & E & H).
  apply scan_In in H as (pv' & s' & p & H).
  apply bytes_sound in H as (g' & -> & H). cbn in E. now subst g'.
Qed.

Lemma for_each_py_float ks :
  for_each py_float ks
  = if forallb is_number ks then Ok (map float_value ks)
    else Raise ValueError.
Proof.
  induction ks as [|k ks IH]; [reflexivity|]. cbn [for_each forallb map].
  destruct (is_number k) eqn:E.
  - rewrite py_float_number by assumption. cbn [bind andb]. rewrite IH.
    destruct (forallb is_number ks); reflexivity.
  - rewrite py_float_not_number by assumption. reflexivity.
Qed.

(** X3: when the header line and the AES-128-GCM row are recognised, the
    sizes of the header always convert and no division fails: the parser
    raises exactly when one of the values before a "k" in the row is not a
    number [float] accepts (such as "1.2.3"), and then it is [ValueError];
    otherwise it returns the sorted pairing of sizes and values over 1000. *)
Theorem openssl_table_raises_on_bad_value (txt : text) (hm rm : caps) :
  search header_re txt = Some hm -> search row_re txt = Some rm ->
  parse_openssl_results txt
  = if forallb is_number (findall1 kval_re (group 1 rm))
    then Ok (sort_by_block
               (zip_rows
                  (map int_value (findall1 bytes_re (group 1 hm)))
                  (map (fun k => Qred (float_value k / inject_Z 1000))
                       (findall1 kval_re (group 1 rm)))))
    else Raise ValueError.
Proof.
  intros Hh Hr.
  assert (Hs : for_each py_int (findall1 bytes_re (group 1 hm))
               = Ok (map int_value (findall1 bytes_re (group 1 hm)))).
  { apply for_each_map. intros g Hg.
    apply findall1_bytes_digits in Hg as [N D]. now apply py_int_digits. }
  destruct (forallb is_number (findall1 kval_re (group 1 rm))) eqn:E.
  - rewrite (parse_openssl_structured txt hm rm _ _ Hh Hr Hs
               (eq_trans (for_each_py_float _)
                         ltac:(rewrite E; reflexivity))).
    now rewrite map_map.
  - unfold parse_openssl_results. rewrite Hh, Hr, Hs. cbn [bind].
    rewrite for_each_py_float, E. reflexivity.
Qed.

Definition openssl_bad_value : text :=
  unlines ["type 16 bytes 64 bytes "; "AES-128-GCM 103872.58k 1.2.3k"].

Lemma openssl_table_raises_on_bad_value_witness :
  parse_openssl_results openssl_bad_value
  = if forallb is_number [T "103872.58"; T "1.2.3"]
    then Ok (sort_by_block
               (zip_rows
                  (map int_value [T "16"; T "64"])
                  (map (fun k => Qred (float_value k / inject_Z 1000))
                       [T "103872.58"; T "1.2.3"])))
    else Raise ValueError.
Proof.
  apply (openssl_table_raises_on_bad_value openssl_bad_value
           [(1%nat, T "16 bytes 64 bytes ")]
           [(1%nat, T "103872.58k 1.2.3k")]);
    vm_compute; reflexivity.
Defined.

(** ** Only the first section of a kind is read *)

Lemma find_section_first name a l pre w1 w2 b tail :
  T name = a :: l -> is_space a = false ->
  no_eq pre = true ->
  forallb is_space w1 = true -> forallb is_space w2 = true ->
  no_eq b = true ->
  find_section (strip_header_ws name) stop_eqeq
    (pre ++ T "===" ++ w1 ++ T name ++ w2 ++ T "===" ++ b ++ T "==" ++ tail)
  = Some b.
Proof.
  intros Hn Ha Hp H1 H2 Hb.
  rewrite find_section_skip by (auto using strip_header_ws_needs_eq).
  rewrite (find_section_here _ _ _ _
             (strip_header_ws_here name a l w1 w2 _ Hn Ha H1 H2)).
  f_equal. apply until_eqeq_app; [assumption|reflexivity].
Qed.

(** X4: [parse_mylib_results] reads the first section of a kind only.  When
    nothing before the header holds an "=", the table is made of the text
    between the header, written with any white space around its name, and
    the next "=="; whatever follows that "==", a second section of the same
    kind included, adds no row. *)
Theorem mylib_first_section_only (pre w1 w2 b tail : text) :
  no_eq pre = true ->
  forallb is_space w1 = true -> forallb is_space w2 = true ->
  no_eq b = true ->
  extract (enc_sec (pre ++ T "===" ++ w1 ++ T enc_name ++ w2 ++ T "==="
                        ++ b ++ T "==" ++ tail))
  = rows_of_body b
  /\ extract (dec_sec (pre ++ T "===" ++ w1 ++ T dec_name ++ w2 ++ T "==="
                           ++ b ++ T "==" ++ tail))
     = rows_of_body b.
Proof.
  intros Hp H1 H2 Hb. split; apply extract_group.
  - rewrite enc_sec_find.
    now apply (find_section_first enc_name _ _ pre w1 w2 b tail eq_refl).
  - rewrite dec_sec_find.
    now apply (find_section_first dec_name _ _ pre w1 w2 b tail eq_refl).
Qed.

Lemma mylib_first_section_only_witness :
  extract (enc_sec (T "log " ++ T "===" ++ T "  " ++ T enc_name ++ nl
                      ++ T "===" ++ T " 1 | 4 | 120.5 " ++ T "=="
                      ++ T "= ENCRYPTION THREAD/CHUNK SWEEP === 2 | 4 | 9 "))
  = rows_of_body (T " 1 | 4 | 120.5 ")
  /\ extract (dec_sec (T "log " ++ T "===" ++ T "  " ++ T dec_name ++ nl
                         ++ T "===" ++ T " 1 | 4 | 120.5 " ++ T "=="
                         ++ T "= ENCRYPTION THREAD/CHUNK SWEEP === 2 | 4 | 9 "))
     = rows_of_body (T " 1 | 4 | 120.5 ").
Proof.
  apply (mylib_first_section_only (T "log ") (T "  ") nl
           (T " 1 | 4 | 120.5 ")
           (T "= ENCRYPTION THREAD/CHUNK SWEEP === 2 | 4 | 9 "));
    reflexivity.
Defined.

(** ** The order of the two sections *)

(** The log with the decryption section first. *)
Definition log_swapped (pre b1 b2 : text) : text :=
  pre ++ T dec_header ++ b2 ++ T enc_header ++ b1.

Lemma find_past_dec_header strip stop a x :
  (forall b w, Ascii.eqb b eq_sign = false -> strip (b :: w) = None) ->
  strip (T "= DECRYPTION THREAD/CHUNK SWEEP ===" ++ a :: x) = None ->
  strip (T "== DECRYPTION THREAD/CHUNK SWEEP ===" ++ a :: x) = None ->
  strip (T "=== DECRYPTION THREAD/CHUNK SWEEP ===" ++ a :: x) = None ->
  strip (T "===" ++ a :: x) = None ->
  strip (T "==" ++ a :: x) = None ->
  strip (T "=" ++ a :: x) = None ->
  find_section strip stop (T dec_header ++ a :: x) =
  find_section strip stop (a :: x).
Proof.
  intros Hs H1 H2 H3 H4 H5 H6.
  change (T dec_header ++ a :: x)
    with (T "===" ++ T " DECRYPTION THREAD/CHUNK SWEEP " ++ T "===" ++ a :: x).
  change (T "===" ++ ?w) with (eq_sign :: eq_sign :: eq_sign :: w) at 1.
  rewrite find_section_step by exact H3.
  rewrite find_section_step by exact H2.
  rewrite find_section_step by exact H1.
  rewrite find_section_skip by (auto; reflexivity).
  change (T "===" ++ ?w) with (eq_sign :: eq_sign :: eq_sign :: w) at 1.
  rewrite find_section_step by exact H4.
  rewrite find_section_step by exact H5.
  rewrite find_section_step by exact H6.
  reflexivity.
Qed.

Lemma strip_ws_enc_after_digit b y :
  no_eq b = true -> has_digit b = true ->
  strip_header_ws enc_name (T "===" ++ b ++ eq_sign :: y) = None.
Proof.
  intros Hb Hd.
  destruct (strip_header_ws enc_name (T "===" ++ b ++ eq_sign :: y))
    as [r|] eqn:E; [exfalso|reflexivity].
  apply strip_header_ws_Some in E as (w1 & w2 & H1 & H2 & E).
  apply app_inv_head in E.
  assert (HX : b ++ eq_sign :: y
               = (w1 ++ T enc_name ++ w2) ++ eq_sign :: T "==" ++ r).
  { rewrite E, <- !app_assoc. reflexivity. }
  apply first_eq_unique in HX; [| assumption |].
  - rewrite HX in Hd. rewrite !has_digit_app in Hd.
    rewrite (spaces_no_digit w1), (spaces_no_digit w2) in Hd by assumption.
    discriminate.
  - rewrite !no_eq_app.
    rewrite (spaces_no_eq w1), (spaces_no_eq w2) by assumption. reflexivity.
Qed.

Lemma strip_lit_enc_after_digit b y :
  no_eq b = true -> has_digit b = true ->
  strip_prefix (T enc_header) (T "===" ++ b ++ eq_sign :: y) = None.
Proof.
  intros Hb Hd.
  destruct (strip_prefix (T enc_header) (T "===" ++ b ++ eq_sign :: y))
    as [r|] eqn:E; [exfalso|reflexivity].
  apply strip_prefix_Some in E.
  change (T enc_header)
    with (T "===" ++ T " ENCRYPTION THREAD/CHUNK SWEEP " ++ eq_sign :: T "==")
    in E.
  rewrite <- !app_assoc in E. apply app_inv_head in E.
  change ((eq_sign :: T "==") ++ r) with (eq_sign :: T "==" ++ r) in E.
  apply first_eq_unique in E; [| assumption | reflexivity].
  rewrite E in Hd. discriminate.
Qed.

Lemma strip_lit_enc_short a x :
  Ascii.eqb a eq_sign = false ->
  strip_prefix (T enc_header) (T "==" ++ a :: x) = None
  /\ strip_prefix (T enc_header) (T "=" ++ a :: x) = None.
Proof.
  intros Ha.
  change (T enc_header)
    with (eq_sign :: eq_sign :: eq_sign
            :: T " ENCRYPTION THREAD/CHUNK SWEEP ===").
  change (T "==") with [eq_sign; eq_sign]. change (T "=") with [eq_sign].
  cbn [app strip_prefix]. rewrite !Ascii.eqb_refl.
  rewrite (Ascii.eqb_sym eq_sign a), Ha. auto.
Qed.

Lemma enc_header_eq x :
  T enc_header ++ x
  = eq_sign :: T "== ENCRYPTION THREAD/CHUNK SWEEP ===" ++ x.
Proof. reflexivity. Qed.

Section SwappedLog.

Variables pre b1 b2 : text.
Hypothesis pre_no_eq : no_eq pre = true.
Hypothesis b1_no_eq : no_eq b1 = true.
Hypothesis b2_no_eq : no_eq b2 = true.
Hypothesis b2_digit : has_digit b2 = true.

Lemma dec_sec_swapped :
  option_map (group 1) (dec_sec (log_swapped pre b1 b2)) = Some b2.
Proof.
  rewrite dec_sec_find. unfold log_swapped.
  rewrite find_section_skip by (auto using strip_header_ws_needs_eq).
  rewrite (find_section_here _ _ _ _ (strip_ws_dec_header _)).
  f_equal. apply until_eqeq_app; [assumption|reflexivity].
Qed.

Lemma decrypt_section_swapped :
  option_map (group 1) (TestParser.decrypt_section (log_swapped pre b1 b2))
  = Some b2.
Proof.
  rewrite decrypt_section_find. unfold log_swapped.
  rewrite find_section_skip by (auto using strip_dec_header_needs_eq).
  rewrite (find_section_here _ _ _ _ (strip_prefix_app _ _)).
  f_equal. apply until_dollar_app; [assumption|reflexivity].
Qed.

Lemma enc_sec_swapped :
  option_map (group 1) (enc_sec (log_swapped pre b1 b2)) = Some b1.
Proof.
  rewrite enc_sec_find. unfold log_swapped.
  rewrite find_section_skip by (auto using strip_header_ws_needs_eq).
  assert (H4 : strip_header_ws enc_name (T "===" ++ b2 ++ T enc_header ++ b1)
               = None).
  { rewrite enc_header_eq. now apply strip_ws_enc_after_digit. }
  destruct b2 as [|a x] eqn:E; [discriminate|].
  destruct (no_eq_cons _ _ b2_no_eq) as [Ha Hx].
  change ((a :: x) ++ ?w) with (a :: x ++ w) in *.
  destruct (strip_ws_short a (x ++ T enc_header ++ b1) Ha enc_name) as [H5 H6].
  rewrite find_past_dec_header; auto using strip_header_ws_needs_eq.
  change (a :: x ++ ?w) with ((a :: x) ++ w).
  rewrite find_section_skip by (auto using strip_header_ws_needs_eq).
  rewrite (find_section_here _ _ _ _ (strip_ws_enc_header _)).
  f_equal. now apply until_eqeq_all.
Qed.

Lemma encrypt_section_swapped :
  option_map (group 1) (TestParser.encrypt_section (log_swapped pre b1 b2))
  = Some (chomp b1).
Proof.
  rewrite encrypt_section_find. unfold log_swapped.
  rewrite find_section_skip by (auto using strip_enc_header_needs_eq).
  assert (H4 : strip_prefix (T enc_header)
                 (T "===" ++ b2 ++ T enc_header ++ b1) = None).
  { rewrite enc_header_eq. now apply strip_lit_enc_after_digit. }
  destruct b2 as [|a x] eqn:E; [discriminate|].
  destruct (no_eq_cons _ _ b2_no_eq) as [Ha Hx].
  change ((a :: x) ++ ?w) with (a :: x ++ w) in *.
  destruct (strip_lit_enc_short a (x ++ T enc_header ++ b1) Ha) as [H5 H6].
  rewrite find_past_dec_header; auto using strip_enc_header_needs_eq.
  change (a :: x ++ ?w) with ((a :: x) ++ w).
  rewrite find_section_skip by (auto using strip_enc_header_needs_eq).
  rewrite (find_section_here _ _ _ _ (strip_prefix_app _ _)).
  f_equal. now apply until_dollar_all.
Qed.

End SwappedLog.

(** X5: the order of the two sections does not matter to
    [parse_mylib_results]: on a well-formed log in which both sections hold a
    data line, the log with the decryption section written first gives the
    same two tables. *)
Theorem mylib_section_order (pre : text) (l1 l2 : list item) :
  log_ok is_digit_or_dot pre l1 l2 = true ->
  is_nil (data_of l2) = false ->
  parse_mylib_results (log_swapped pre (flatten l1) (flatten l2))
  = parse_mylib_results (log_text pre l1 l2)
  /\ parse_mylib_results (log_text pre l1 l2)
     = Ok (map mylib_row (data_of l1), map mylib_row (data_of l2)).
Proof.
  intros H Hd. rewrite (mylib_log_ok _ _ _ H). split; [|reflexivity].
  unfold log_ok in H. repeat (apply andb_true_iff in H as [H ?]).
  assert (Hd2 : has_digit (flatten l2) = true) by eauto using body_has_digit.
  unfold parse_mylib_results.
  rewrite (extract_group _ (flatten l1))
    by (now apply enc_sec_swapped).
  rewrite (extract_group _ (flatten l2))
    by (now apply dec_sec_swapped).
  rewrite !rows_of_body_flatten by assumption. reflexivity.
Qed.

Lemma mylib_section_order_witness :
  parse_mylib_results
    (log_swapped [] (flatten sample_enc) (flatten sample_dec))
  = parse_mylib_results (log_text [] sample_enc sample_dec)
  /\ parse_mylib_results (log_text [] sample_enc sample_dec)
     = Ok (map mylib_row (data_of sample_enc),
           map mylib_row (data_of sample_dec)).
Proof.
  apply (mylib_section_order [] sample_enc sample_dec); reflexivity.
Defined.

(** X6: the order of the two sections does not matter to
    [parse_test_results] either: the newline that may end the input is left
    out of whichever section comes last, and it is part of no data line. *)
Theorem test_section_order (pre : text) (l1 l2 : list item) :
  log_ok is_digit pre l1 l2 = true ->
  is_nil (data_of l2) = false ->
  TestParser.parse_test_results
    (log_swapped pre (flatten l1) (flatten l2))
  = TestParser.parse_test_results (log_text pre l1 l2)
  /\ TestParser.parse_test_results (log_text pre l1 l2)
     = Ok (map test_row (data_of l1), map test_row (data_of l2)).
Proof.
  intros H Hd. rewrite (test_log_ok _ _ _ H). split; [|reflexivity].
  unfold log_ok in H. repeat (apply andb_true_iff in H as [H ?]).
  assert (Hd2 : has_digit (flatten l2) = true) by eauto using body_has_digit.
  unfold TestParser.parse_test_results.
  rewrite (section_text_group _ (chomp (flatten l1)))
    by (now apply encrypt_section_swapped).
  rewrite (section_text_group _ (flatten l2))
    by (now apply decrypt_section_swapped).
  match goal with X : body_ok is_digit l1 = true |- _ =>
    destruct (chomp_body _ _ X) as (l1' & F & B & D) end.
  rewrite <- F. rewrite !extract_data_flatten; auto.
  - now rewrite D.
  - unfold numbers_ok. rewrite D. assumption.
Qed.

Lemma test_section_order_witness :
  TestParser.parse_test_results
    (log_swapped [] (flatten sample_int_enc) (flatten sample_dec))
  = TestParser.parse_test_results (log_text [] sample_int_enc sample_dec)
  /\ TestParser.parse_test_results (log_text [] sample_int_enc sample_dec)
     = Ok (map test_row (data_of sample_int_enc),
           map test_row (data_of sample_dec)).
Proof.
  apply (test_section_order [] sample_int_enc sample_dec); reflexivity.
Defined.

(** * When the fallback of the OpenSSL parser raises *)

(** A pattern without groups. *)
Fixpoint groupless (r : regex) : bool :=
  match r with
  | Group _ _ => false
  | Cat r1 r2 | Alt r1 r2 => groupless r1 && groupless r2
  | Star r' | LazyStar r' | Ahead r' => groupless r'
  | _ => true
  end.

Lemma greedy_loop_passes (body : cont -> cont) k c o :
  (forall k' p, body k' p c = Some o -> exists p', k' p' c = Some o) ->
  forall n p, greedy_loop body k n p c = Some o ->
              exists p', k p' c = Some o.
Proof.
  intros Hb. induction n as [|n IH]; intros p H; cbn [greedy_loop] in H.
  - eauto.
  - unfold orelse in H.
    destruct (body _ p c) as [o'|] eqn:E; [|eauto].
    assert (o' = o) by congruence. subst o'.
    apply Hb in E as (p' & E). destruct (shorter p' p); [eauto|discriminate].
Qed.

Lemma lazy_loop_passes (body : cont -> cont) k c o :
  (forall k' p, body k' p c = Some o -> exists p', k' p' c = Some o) ->
  forall n p, lazy_loop body k n p c = Some o ->
              exists p', k p' c = Some o.
Proof.
  intros Hb. induction n as [|n IH]; intros p H; cbn [lazy_loop] in H.
  - eauto.
  - unfold orelse in H. destruct (k p c) as [o'|] eqn:E.
    + exists p. congruence.
    + apply Hb in H as (p' & H).
      destruct (shorter p' p); [eauto|discriminate].
Qed.

(** A pattern without groups leaves the captures as they are. *)
Lemma run_passes r :
  groupless r = true ->
  forall k p c o, run r k p c = Some o -> exists p', k p' c = Some o.
Proof.
  induction r as [f| |r1 IH1 r2 IH2|r1 IH1 r2 IH2|r IH|r IH|n r IH|r IH| | | |];
    cbn [groupless]; intros G k p c o H; cbn [run] in H.
  - destruct (rest p) as [|a s]; [discriminate|].
    destruct (f a); [eauto|discriminate].
  - eauto.
  - apply andb_true_iff in G as [G1 G2].
    apply (IH1 G1) in H as (p1 & H). eauto.
  - apply andb_true_iff in G as [G1 G2]. unfold orelse in H.
    destruct (run r1 k p c) eqn:E; [|eauto].
    apply (IH1 G1 k p c o). congruence.
  - eapply greedy_loop_passes; eauto.
  - eapply lazy_loop_passes; eauto.
  - discriminate.
  - destruct (run r final p c) as [[c' p'']|] eqn:E; [|discriminate].
    apply (IH G) in E as (p' & E). unfold final in E.
    assert (c' = c) by congruence. subst c'. eauto.
  - destruct (rest p); [eauto|discriminate].
  - destruct (rest p) as [|a [|b s]]; [eauto| |discriminate].
    destruct (Ascii.eqb a newline); [eauto|discriminate].
  - destruct (prev p) as [a|]; [|eauto].
    destruct (Ascii.eqb a newline); [eauto|discriminate].
  - destruct (rest p) as [|a s]; [eauto|].
    destruct (Ascii.eqb a newline); [eauto|discriminate].
Qed.

Ltac pass H :=
  rewrite run_cat in H;
  let p := fresh "p" in
  apply run_passes in H as ([? ?] & H); [|reflexivity].

Ltac capture H g N F :=
  first [rewrite run_cat in H | idtac];
  apply run_group_plus_sound in H as (g & ? & ? & _ & N & F & H).

Lemma pat2_sound pv s c p :
  match_at pat2 pv s = Some (c, p) ->
  exists g1 g2 g3,
    c = [(3%nat, g3); (2%nat, g2); (1%nat, g1)]
    /\ field_of is_digit g1 /\ field_of is_digit g2
    /\ field_of is_digit_or_dot g3.
Proof.
  unfold match_at, pat2. intros H.
  pass H. pass H. capture H g1 N1 F1. pass H. pass H. pass H.
  capture H g2 N2 F2. pass H. pass H. pass H. capture H g3 N3 F3.
  apply run_passes in H as (p' & H); [|reflexivity].
  unfold final in H. inversion H; subst.
  exists g1, g2, g3. unfold field_of. auto.
Qed.

Lemma blocks_pat_sound pv s c p :
  match_at blocks_pat pv s = Some (c, p) ->
  exists g1 g2,
    c = [(2%nat, g2); (1%nat, g1)]
    /\ field_of is_digit g1 /\ field_of is_digit_or_dot g2.
Proof.
  unfold match_at, blocks_pat. intros H.
  pass H. pass H. capture H g1 N1 F1. pass H. pass H. pass H. pass H.
  pass H. capture H g2 N2 F2.
  apply run_passes in H as (p' & H); [|reflexivity].
  unfold final in H. inversion H; subst.
  exists g1, g2. unfold field_of. auto.
Qed.

(** The exception of the first element that has one. *)
Fixpoint first_error {A} (err : A -> option exn) (l : list A) : option exn :=
  match l with
  | [] => None
  | a :: l' =>
      match err a with
      | Some e => Some e
      | None => first_error err l'
      end
  end.

Lemma for_each_first_error {A B} (f : A -> result B) (err : A -> option exn)
    (val : A -> B) l :
  (forall a, In a l ->
             f a = match err a with Some e => Raise e | None => Ok (val a) end)
  -> for_each f l
     = match first_error err l with
       | Some e => Raise e
       | None => Ok (map val l)
       end.
Proof.
  induction l as [|a l IH]; intros H; [reflexivity|].
  cbn [for_each first_error map]. rewrite (H a) by (now left).
  destruct (err a); [reflexivity|]. cbn [bind].
  rewrite IH by (intros; apply H; now right).
  destruct (first_error err l); reflexivity.
Qed.

(** What a line found by the first, looser scan makes the parser raise:
    [ValueError] when [float] refuses its seconds. *)
Definition time_error (m : caps) : option exn :=
  if is_number (group 2 m) then None else Some ValueError.

(** What a report line makes the parser raise, in the order of the
    statements: [ValueError] when [float] refuses the seconds,
    [OverflowError] when ops * block is too large to be converted to a float,
    [ZeroDivisionError] when the seconds are read as 0.0. *)
Definition report_error (m : caps) : option exn :=
  if negb (is_number (group 3 m)) then Some ValueError
  else if (float_int_limit <=? int_value (group 2 m) * int_value (group 1 m))%Z
       then Some OverflowError
  else if is_float_zero (float_value (group 3 m)) then Some ZeroDivisionError
  else None.

(** The row of a report line whose numbers convert. *)
Definition report_row (m : caps) : ossl_row :=
  OsslRow (int_value (group 1 m))
          (Qred (Qred (inject_Z (int_value (group 2 m) * int_value (group 1 m))
                       / float_value (group 3 m))
                 / inject_Z 1000000))
          label.

Lemma size_and_time_cases txt m :
  In m (finditer blocks_pat txt) ->
  size_and_time m
  = match time_error m with
    | Some e => Raise e
    | None => Ok (int_value (group 1 m), float_value (group 2 m))
    end.
Proof.
  intros H. apply scan_In in H as (pv & s & p & H).
  apply blocks_pat_sound in H as (g1 & g2 & -> & [N1 D1] & _).
  unfold size_and_time, time_error. cbn [group Nat.eqb].
  rewrite py_int_digits by assumption. cbn [bind andb].
  destruct (is_number g2) eqn:E.
  - now rewrite py_float_number.
  - now rewrite py_float_not_number.
Qed.

Lemma block_row_cases txt m :
  In m (finditer pat2 txt) ->
  block_row m
  = match report_error m with
    | Some e => Raise e
    | None => Ok (report_row m)
    end.
Proof.
  intros H. apply scan_In in H as (pv & s & p & H).
  apply pat2_sound in H as (g1 & g2 & g3 & -> & [N1 D1] & [N2 D2] & _).
  unfold block_row, report_error, report_row. cbn [group Nat.eqb].
  rewrite !py_int_digits by assumption. cbn [bind andb].
  destruct (is_number g3) eqn:E; cbn [negb].
  - rewrite py_float_number by assumption. cbn [bind]. unfold py_int_div.
    destruct (float_int_limit <=? int_value g2 * int_value g1)%Z;
      [reflexivity|].
    destruct (is_float_zero (float_value g3)); reflexivity.
  - now rewrite py_float_not_number.
Qed.

(** X16: in the fallback of [parse_openssl_results] the block size and the
    number of operations of a line always convert.  The parser raises
    exactly when the seconds of a line found by the first, looser scan are
    not a number [float] accepts ([ValueError]), or when a report line has
    seconds that are not a number ([ValueError]), a product ops * block of
    2^1024 - 2^970 or more, which cannot be converted to a float
    ([OverflowError]), or seconds of at most 2^-1075, which are 0.0 as a
    float ([ZeroDivisionError]); the first such line decides, and within a
    line the first of these in this order.  Otherwise it returns one row per
    report line, sorted by block size. *)
Theorem fallback_outcome (txt : text) :
  search header_re txt = None \/ search row_re txt = None ->
  parse_openssl_results txt
  = match first_error time_error (finditer blocks_pat txt) with
    | Some e => Raise e
    | None =>
        match first_error report_error (finditer pat2 txt) with
        | Some e => Raise e
        | None => Ok (sort_by_block (map report_row (finditer pat2 txt)))
        end
    end.
Proof.
  intros H.
  assert (E : parse_openssl_results txt = fallback txt).
  { unfold parse_openssl_results.
    destruct H as [-> | ->]; [reflexivity|].
    destruct (search header_re txt); reflexivity. }
  rewrite E. unfold fallback.
  rewrite (for_each_first_error _ _ _ _ (size_and_time_cases txt)).
  destruct (first_error _ (finditer blocks_pat txt)); [reflexivity|].
  cbn [bind].
  rewrite (for_each_first_error _ _ _ _ (block_row_cases txt)).
  destruct (first_error _ (finditer pat2 txt)); reflexivity.
Qed.

Lemma fallback_outcome_witness :
  parse_openssl_results report_huge_block
  = match first_error time_error (finditer blocks_pat report_huge_block) with
    | Some e => Raise e
    | None =>
        match first_error report_error (finditer pat2 report_huge_block) with
        | Some e => Raise e
        | None =>
            Ok (sort_by_block
                  (map report_row (finditer pat2 report_huge_block)))
        end
    end.
Proof.
  apply (fallback_outcome report_huge_block).
  left. vm_compute. reflexivity.
Defined.

(** * The four panels of the library figure

    What [plot_mylib_four_panels] hands to matplotlib: the series of each
    panel, with their data, legend and colour.  A table is the list of its
    rows; the styling calls and the file that [savefig] writes are left
    out. *)

Module Frame.

Section Keyed.

Context {A K : Type}.
Variable key : A -> K.
Variable ltb : K -> K -> bool.

(** [sort_values] and [sorted]: a stable sort on the key; pandas leaves the
    order of rows with equal keys unspecified. *)
Fixpoint insert_by (x : A) (l : list A) : list A :=
  match l with
  | [] => [x]
  | y :: l' => if ltb (key y) (key x) then y :: insert_by x l' else x :: l
  end.

Definition sort_values (l : list A) : list A := fold_right insert_by [] l.

End Keyed.

(** [Series.unique]: the values in the order of their first occurrence. *)
Fixpoint unique {K} (eqb : K -> K -> bool) (l : list K) : list K :=
  match l with
  | [] => []
  | x :: l' => x :: filter (fun y => negb (eqb y x)) (unique eqb l')
  end.

Fixpoint enumerate_from {A} (i : nat) (l : list A) : list (nat * A) :=
  match l with
  | [] => []
  | x :: l' => (i, x) :: enumerate_from (S i) l'
  end.

Definition enumerate {A} (l : list A) : list (nat * A) := enumerate_from 0 l.

Definition Qlt_bool (a b : Q) : bool := negb (Qle_bool b a).

(** [int] of a float: towards zero. *)
Definition int_of_float (q : Q) : Z := Z.quot (Qnum q) (Z.pos (Qden q)).

End Frame.

Module Plots.

Import Frame.

(** The legend of a series: f"{t} threads" or f"{int(ch)}MB". *)
Inductive legend :=
| ThreadsLegend (t : Z)
| ChunkLegend (mb : Z).

(** One call of [ax.plot]. *)
Record series :=
  Series { s_x : list Q; s_y : list Q; s_label : legend; s_color : string }.

Record figure :=
  Figure { ax1 : list series; ax2 : list series;
           ax3 : list series; ax4 : list series;
           chunk_ticks : list Q; thread_ticks : list Z }.

Definition thread_colors : list string :=
  ["#1f77b4"; "#ff7f0e"; "#2ca02c"; "#d62728"; "#9467bd"; "#8c564b"].

Definition chunk_colors : list string :=
  ["#e41a1c"; "#377eb8"; "#4daf4a"; "#984ea3"; "#ff7f00"; "#a65628";
   "#f781bf"].

(** [palette[i % len(palette)]] *)
Definition color (palette : list string) (i : nat) : string :=
  nth (i mod length palette) palette "#".

(** [tbl[tbl["Threads"] == t].sort_values("ChunkMB")], plotted against the
    chunk size. *)
Definition rows_of_threads (tbl : list row) (t : Z) : list row :=
  sort_values ChunkMB Qlt_bool (filter (fun r => (Threads r =? t)%Z) tbl).

Definition threads_series (tbl : list row) (it : nat * Z) : series :=
  let d := rows_of_threads tbl (snd it) in
  Series (map ChunkMB d) (map Throughput d) (ThreadsLegend (snd it))
         (color thread_colors (fst it)).

(** [tbl[tbl["ChunkMB"] == ch].sort_values("Threads")], plotted against the
    number of threads. *)
Definition rows_of_chunk (tbl : list row) (ch : Q) : list row :=
  sort_values Threads Z.ltb (filter (fun r => Qeq_bool (ChunkMB r) ch) tbl).

Definition chunk_series (tbl : list row) (ic : nat * Q) : series :=
  let d := rows_of_chunk tbl (snd ic) in
  Series (map (fun r => inject_Z (Threads r)) d) (map Throughput d)
         (ChunkLegend (int_of_float (snd ic)))
         (color chunk_colors (fst ic)).

(** [sorted(enc["Threads"].unique())] and [sorted(enc["ChunkMB"].unique())] *)
Definition unique_threads (enc : list row) : list Z :=
  sort_values id Z.ltb (unique Z.eqb (map Threads enc)).

Definition unique_chunks (enc : list row) : list Q :=
  sort_values id Qlt_bool (unique Qeq_bool (map ChunkMB enc)).

(** [None]: the warning is printed and nothing is drawn or saved. *)
Definition plot_mylib_four_panels (enc dec : list row) : option figure :=
  if is_nil enc || is_nil dec then None
  else
    Some (Figure (map (threads_series enc) (enumerate (unique_threads enc)))
                 (map (threads_series dec) (enumerate (unique_threads enc)))
                 (map (chunk_series enc) (enumerate (unique_chunks enc)))
                 (map (chunk_series dec) (enumerate (unique_chunks enc)))
                 (unique_chunks enc) (unique_threads enc)).

(** The points of a panel: those of its series, one after the other. *)
Definition points (s : series) : list (Q * Q) := combine (s_x s) (s_y s).

Definition panel_points (ax : list series) : list (Q * Q) :=
  flat_map points ax.

Definition chunk_point (r : row) : Q * Q := (ChunkMB r, Throughput r).
Definition threads_point (r : row) : Q * Q :=
  (inject_Z (Threads r), Throughput r).

(** The thread count, or the chunk size, of the row occurs in the table. *)
Definition threads_in (tbl : list row) (r : row) : bool :=
  existsb (fun r' => (Threads r =? Threads r')%Z) tbl.

Definition chunk_in (tbl : list row) (r : row) : bool :=
  existsb (fun r' => Qeq_bool (ChunkMB r) (ChunkMB r')) tbl.

End Plots.

Import Frame Plots.

Section KeyedFacts.

Context {A K : Type}.
Variable key : A -> K.
Variable ltb : K -> K -> bool.

Lemma insert_by_perm x l : Permutation (insert_by key ltb x l) (x :: l).
Proof.
  induction l as [|y l IH]; cbn [insert_by]; [reflexivity|].
  destruct (ltb (key y) (key x)); [|reflexivity].
  rewrite IH. apply perm_swap.
Qed.

Lemma sort_values_perm l : Permutation (sort_values key ltb l) l.
Proof.
  induction l as [|x l IH]; [reflexivity|].
  unfold sort_values. cbn [fold_right]. fold (sort_values key ltb l).
  rewrite insert_by_perm. now constructor.
Qed.

End KeyedFacts.

Section Groups.

Context {A K : Type}.
Variable key : A -> K.
Variable eqb : K -> K -> bool.
Hypothesis eqb_refl : forall a, eqb a a = true.
Hypothesis eqb_sym : forall a b, eqb a b = eqb b a.
Hypothesis eqb_trans :
  forall a b c, eqb a b = true -> eqb b c = true -> eqb a c = true.

(** No two of the keys are equal. *)
Fixpoint distinct (ks : list K) : bool :=
  match ks with
  | [] => true
  | k :: ks' => negb (existsb (eqb k) ks') && distinct ks'
  end.

Lemma existsb_filter_false (p : K -> bool) k ks :
  existsb (eqb k) ks = false -> existsb (eqb k) (filter p ks) = false.
Proof.
  induction ks as [|a ks IH]; [reflexivity|]. cbn [existsb filter].
  intros H. apply orb_false_iff in H as [H1 H2].
  destruct (p a); cbn [existsb]; rewrite ?H1; auto.
Qed.

Lemma distinct_filter (p : K -> bool) ks :
  distinct ks = true -> distinct (filter p ks) = true.
Proof.
  induction ks as [|a ks IH]; [reflexivity|]. cbn [distinct filter].
  intros H. apply andb_true_iff in H as [H1 H2].
  destruct (p a); cbn [distinct]; auto.
  apply negb_true_iff in H1. rewrite existsb_filter_false by assumption.
  now rewrite IH.
Qed.

Lemma existsb_filter_others x u :
  existsb (eqb x) (filter (fun y => negb (eqb y x)) u) = false.
Proof.
  induction u as [|a u IH]; [reflexivity|]. cbn [filter].
  destruct (eqb a x) eqn:E; cbn [negb existsb]; [assumption|].
  now rewrite eqb_sym, E.
Qed.

Lemma unique_distinct l : distinct (unique eqb l) = true.
Proof.
  induction l as [|x l IH]; [reflexivity|]. cbn [unique distinct].
  rewrite distinct_filter by assumption.
  now rewrite existsb_filter_others.
Qed.

Lemma existsb_eqb_trans a b l :
  eqb a b = true -> existsb (eqb b) l = true -> existsb (eqb a) l = true.
Proof.
  intros H. induction l as [|x l IH]; [discriminate|]. cbn [existsb].
  intros H'. apply orb_true_iff in H' as [H'|H'].
  - rewrite (eqb_trans _ _ _ H H'). reflexivity.
  - rewrite IH by assumption. apply orb_true_r.
Qed.

Lemma existsb_unique k l :
  existsb (eqb k) (unique eqb l) = existsb (eqb k) l.
Proof.
  induction l as [|x l IH]; [reflexivity|]. cbn [unique existsb].
  rewrite <- IH. destruct (eqb k x) eqn:E; [reflexivity|]. cbn [orb].
  clear IH. generalize (unique eqb l). intros u.
  induction u as [|a u IHu]; [reflexivity|]. cbn [filter existsb].
  destruct (eqb a x) eqn:Ea; cbn [negb existsb]; rewrite IHu.
  - destruct (eqb k a) eqn:Ek; [|reflexivity].
    now rewrite (eqb_trans _ _ _ Ek Ea) in E.
  - reflexivity.
Qed.

Lemma existsb_perm (p : K -> bool) l l' :
  Permutation l l' -> existsb p l = existsb p l'.
Proof.
  induction 1; cbn [existsb]; try congruence.
  now rewrite !orb_assoc, (orb_comm (p y)).
Qed.

Lemma distinct_perm l l' :
  Permutation l l' -> distinct l = distinct l'.
Proof.
  induction 1; cbn [distinct existsb].
  - reflexivity.
  - now rewrite IHPermutation, (existsb_perm _ _ _ H).
  - rewrite (eqb_sym y x).
    destruct (eqb x y), (existsb (eqb x) l), (existsb (eqb y) l);
      reflexivity.
  - congruence.
Qed.

Lemma filter_split (p q : A -> bool) (l : list A) :
  (forall a, p a = true -> q a = true -> False) ->
  Permutation (filter p l ++ filter q l) (filter (fun a => p a || q a) l).
Proof.
  intros D. induction l as [|a l IH]; [reflexivity|]. cbn [filter].
  destruct (p a) eqn:Ep, (q a) eqn:Eq; cbn [orb app].
  - destruct (D a Ep Eq).
  - now constructor.
  - rewrite <- Permutation_middle. now constructor.
  - assumption.
Qed.

(** The groups of distinct keys split the rows whose key is among them. *)
Lemma groups_split (ks : list K) (l : list A) :
  distinct ks = true ->
  Permutation (flat_map (fun k => filter (fun a => eqb (key a) k) l) ks)
              (filter (fun a => existsb (eqb (key a)) ks) l).
Proof.
  induction ks as [|k ks IH]; intros H; cbn [flat_map existsb distinct] in *.
  - induction l; [reflexivity|assumption].
  - apply andb_true_iff in H as [H1 H2]. apply negb_true_iff in H1.
    rewrite (IH H2). apply filter_split. intros a E1 E2.
    rewrite eqb_sym in E1.
    rewrite (existsb_eqb_trans _ _ _ E1 E2) in H1. discriminate.
Qed.

End Groups.

(** ** Every measurement is drawn once *)

Lemma combine_map {A B C} (f : A -> B) (g : A -> C) (l : list A) :
  combine (map f l) (map g l) = map (fun a => (f a, g a)) l.
Proof. induction l as [|a l IH]; cbn [map combine]; congruence. Qed.

Lemma flat_map_enumerate {A B} (f : nat * A -> list B) (g : A -> list B) l :
  (forall i a, f (i, a) = g a) ->
  forall i, flat_map f (enumerate_from i l) = flat_map g l.
Proof.
  intros H. induction l as [|a l IH]; intros i; [reflexivity|].
  cbn [enumerate_from flat_map]. now rewrite H, IH.
Qed.

Lemma flat_map_map {A B C} (h : A -> B) (f : B -> list C) l :
  flat_map f (map h l) = flat_map (fun a => f (h a)) l.
Proof. induction l as [|a l IH]; cbn [map flat_map]; congruence. Qed.

Lemma map_flat_map {A B C} (h : B -> C) (f : A -> list B) l :
  map h (flat_map f l) = flat_map (fun a => map h (f a)) l.
Proof.
  induction l as [|a l IH]; cbn [flat_map]; [reflexivity|].
  now rewrite map_app, IH.
Qed.

Lemma flat_map_perm {A B} (f g : A -> list B) l :
  (forall a, Permutation (f a) (g a)) ->
  Permutation (flat_map f l) (flat_map g l).
Proof.
  intros H. induction l as [|a l IH]; cbn [flat_map]; [reflexivity|].
  now apply Permutation_app.
Qed.

Lemma filter_all {A} (p : A -> bool) l :
  (forall a, In a l -> p a = true) -> filter p l = l.
Proof.
  induction l as [|a l IH]; intros H; [reflexivity|]. cbn [filter].
  rewrite (H a) by (now left). f_equal. apply IH. intros; apply H. now right.
Qed.

Lemma existsb_map {A B} (p : B -> bool) (h : A -> B) l :
  existsb p (map h l) = existsb (fun a => p (h a)) l.
Proof. induction l as [|a l IH]; cbn [map existsb]; congruence. Qed.

Section PanelPoints.

Context {A K : Type}.
Variable key : A -> K.
Variable eqb : K -> K -> bool.
Variable ltb : K -> K -> bool.
Hypothesis eqb_refl : forall a, eqb a a = true.
Hypothesis eqb_sym : forall a b, eqb a b = eqb b a.
Hypothesis eqb_trans :
  forall a b c, eqb a b = true -> eqb b c = true -> eqb a c = true.

Variable B : Type.
Variable point : A -> B.
Variable rows_of : list A -> K -> list A.
Hypothesis rows_of_perm :
  forall tbl k,
    Permutation (rows_of tbl k) (filter (fun r => eqb (key r) k) tbl).

(** The groups of a table by the sorted distinct keys of another one. *)
Lemma groups_of_keys (enc tbl : list A) :
  Permutation
    (flat_map (fun k => map point (rows_of tbl k))
              (sort_values id ltb (unique eqb (map key enc))))
    (map point
         (filter (fun r => existsb (fun r' => eqb (key r) (key r')) enc)
                 tbl)).
Proof.
  set (ks := sort_values id ltb (unique eqb (map key enc))).
  assert (Hp : Permutation ks (unique eqb (map key enc)))
    by apply sort_values_perm.
  rewrite (flat_map_perm _ (fun k => map point
                                   (filter (fun r => eqb (key r) k) tbl)))
    by (intros; apply Permutation_map, rows_of_perm).
  rewrite <- map_flat_map. apply Permutation_map.
  rewrite (groups_split key eqb eqb_sym eqb_trans ks tbl).
  - erewrite filter_ext; [reflexivity|]. intros r. cbv beta.
    rewrite (existsb_perm _ _ _ Hp), (existsb_unique eqb eqb_trans).
    apply existsb_map.
  - rewrite (distinct_perm eqb eqb_sym _ _ Hp).
    apply (unique_distinct eqb eqb_sym).
Qed.

Lemma groups_of_own_keys (enc : list A) :
  Permutation
    (flat_map (fun k => map point (rows_of enc k))
              (sort_values id ltb (unique eqb (map key enc))))
    (map point enc).
Proof.
  rewrite groups_of_keys. rewrite filter_all; [reflexivity|].
  intros r Hr. apply existsb_exists. exists r. auto.
Qed.

End PanelPoints.

Lemma Qeq_bool_trans' a b c :
  Qeq_bool a b = true -> Qeq_bool b c = true -> Qeq_bool a c = true.
Proof.
  rewrite !Qeq_bool_iff. intros H1 H2. now rewrite H1.
Qed.

Lemma Z_eqb_trans a b c :
  (a =? b)%Z = true -> (b =? c)%Z = true -> (a =? c)%Z = true.
Proof. rewrite !Z.eqb_eq. congruence. Qed.

Lemma panel_points_threads tbl ks :
  panel_points (map (threads_series tbl) (enumerate ks))
  = flat_map (fun t => map chunk_point (rows_of_threads tbl t)) ks.
Proof.
  unfold panel_points, enumerate. rewrite flat_map_map.
  apply flat_map_enumerate. intros i t. unfold points, threads_series.
  cbn [s_x s_y snd]. apply combine_map.
Qed.

Lemma panel_points_chunk tbl ks :
  panel_points (map (chunk_series tbl) (enumerate ks))
  = flat_map (fun ch => map threads_point (rows_of_chunk tbl ch)) ks.
Proof.
  unfold panel_points, enumerate. rewrite flat_map_map.
  apply flat_map_enumerate. intros i t. unfold points, chunk_series.
  cbn [s_x s_y snd]. apply combine_map.
Qed.

(** X7: when both tables hold a row, [plot_mylib_four_panels] draws every
    encryption measurement exactly once in the panel by chunk size and once
    in the panel by threads; of the decryption measurements it draws those
    whose thread count (second panel) or chunk size (fourth panel) occurs in
    the encryption table, each once, and leaves the others out. *)
Theorem four_panels_points (enc dec : list row) :
  is_nil enc = false -> is_nil dec = false ->
  exists fig,
    plot_mylib_four_panels enc dec = Some fig
    /\ Permutation (panel_points (ax1 fig)) (map chunk_point enc)
    /\ Permutation (panel_points (ax2 fig))
                   (map chunk_point (filter (threads_in enc) dec))
    /\ Permutation (panel_points (ax3 fig)) (map threads_point enc)
    /\ Permutation (panel_points (ax4 fig))
                   (map threads_point (filter (chunk_in enc) dec)).
Proof.
  intros He Hd. unfold plot_mylib_four_panels. rewrite He, Hd. cbn [orb].
  eexists. split; [reflexivity|]. cbn [ax1 ax2 ax3 ax4].
  rewrite !panel_points_threads, !panel_points_chunk.
  unfold unique_threads, unique_chunks.
  assert (Ht : forall tbl t,
             Permutation (rows_of_threads tbl t)
                         (filter (fun r => (Threads r =? t)%Z) tbl))
    by (intros; apply sort_values_perm).
  assert (Hc : forall tbl ch,
             Permutation (rows_of_chunk tbl ch)
                         (filter (fun r => Qeq_bool (ChunkMB r) ch) tbl))
    by (intros; apply sort_values_perm).
  split; [|split; [|split]].
  - apply (groups_of_own_keys Threads Z.eqb Z.ltb Z.eqb_refl Z.eqb_sym
             Z_eqb_trans _ chunk_point rows_of_threads Ht).
  - apply (groups_of_keys Threads Z.eqb Z.ltb Z.eqb_sym
             Z_eqb_trans _ chunk_point rows_of_threads Ht).
  - apply (groups_of_own_keys ChunkMB Qeq_bool Qlt_bool Qeq_bool_refl
             Qeq_bool_comm Qeq_bool_trans' _ threads_point rows_of_chunk Hc).
  - apply (groups_of_keys ChunkMB Qeq_bool Qlt_bool Qeq_bool_comm
             Qeq_bool_trans' _ threads_point rows_of_chunk Hc).
Qed.

Lemma four_panels_points_witness :
  let enc := [Row 2 4 230; Row 1 4 120; Row 1 (1 # 2) 60] in
  let dec := [Row 1 4 150; Row 8 4 99] in
  exists fig,
    plot_mylib_four_panels enc dec = Some fig
    /\ Permutation (panel_points (ax1 fig)) (map chunk_point enc)
    /\ Permutation (panel_points (ax2 fig))
                   (map chunk_point (filter (threads_in enc) dec))
    /\ Permutation (panel_points (ax3 fig)) (map threads_point enc)
    /\ Permutation (panel_points (ax4 fig))
                   (map threads_point (filter (chunk_in enc) dec)).
Proof.
  apply (four_panels_points [Row 2 4 230; Row 1 4 120; Row 1 (1 # 2) 60]
           [Row 1 4 150; Row 8 4 99]); reflexivity.
Defined.

(** * The best row of a table

    [tbl.loc[tbl["Throughput"].idxmax()]], as in the summary of [main], in
    [print_summary] and in [_plot_recommendations]. *)

Module Script.

(** What the scripts can raise besides the exceptions of the parsers. *)
Inductive error :=
| Builtin (e : exn)
| KeyError
| IndexError
| FileNotFoundError
| ModuleNotFoundError
| RuntimeError
| SystemExit (code : Z).

Inductive outcome (A : Type) :=
| Returns (a : A)
| Raises (e : error).

Arguments Returns {A} a.
Arguments Raises {A} e.

(** A run: what it printed and called, in order, and how it ended. *)
Definition io (event A : Type) : Type := list event * outcome A.

Definition ret {event A} (a : A) : io event A := ([], Returns a).

Definition raise {event A} (e : error) : io event A := ([], Raises e).

Definition emit {event} (ev : event) : io event unit := ([ev], Returns tt).

Definition of_outcome {event A} (o : outcome A) : io event A := ([], o).

Definition of_result {event A} (r : result A) : io event A :=
  match r with
  | Ok a => ret a
  | Raise e => raise (Builtin e)
  end.

Definition then_ {event A B} (m : io event A) (k : A -> io event B)
  : io event B :=
  match m with
  | (t, Returns a) => let (t', o) := k a in (t ++ t', o)
  | (t, Raises e) => (t, Raises e)
  end.

End Script.

Import Script.

Notation "x <~ m ;; k" := (then_ m (fun x => k))
  (at level 61, m at next level, right associativity).

Module Summary.

(** The position of the first maximum after [i], [bi] being that of the
    maximum [best] of what was seen. *)
Fixpoint argmax_from (best : Q) (bi i : nat) (l : list Q) : nat :=
  match l with
  | [] => bi
  | x :: l' =>
      if Frame.Qlt_bool best x then argmax_from x i (S i) l'
      else argmax_from best bi (S i) l'
  end.

(** [Series.idxmax] on the default index 0, 1, ...: the label of the first
    maximum; [ValueError] on an empty series. *)
Definition idxmax (l : list Q) : result nat :=
  match l with
  | [] => Raise ValueError
  | x :: l' => Ok (argmax_from x 0 1 l')
  end.

(** [tbl["Throughput"]]: the tables are made by [pd.DataFrame(rows)], and a
    frame made from no record has no column. *)
Definition column {A} (throughput : A -> Q) (tbl : list A)
  : outcome (list Q) :=
  match tbl with
  | [] => Raises KeyError
  | _ :: _ => Returns (map throughput tbl)
  end.

(** [tbl.loc[i]] *)
Definition loc {A} (tbl : list A) (i : nat) : outcome A :=
  match nth_error tbl i with
  | Some r => Returns r
  | None => Raises KeyError
  end.

(** [tbl.loc[tbl["Throughput"].idxmax()]] *)
Definition best_by {A} (throughput : A -> Q) (tbl : list A) : outcome A :=
  match column throughput tbl with
  | Raises e => Raises e
  | Returns col =>
      match idxmax col with
      | Raise e => Raises (Builtin e)
      | Ok i => loc tbl i
      end
  end.

Definition best_row (tbl : list row) : outcome row := best_by Throughput tbl.

End Summary.

Import Summary.

Lemma Qlt_bool_true a b : Frame.Qlt_bool a b = true -> (a < b)%Q.
Proof.
  unfold Frame.Qlt_bool. intros H. apply negb_true_iff in H.
  apply Qnot_le_lt. intros H'. apply Qle_bool_iff in H'. congruence.
Qed.

Lemma Qlt_bool_false a b : Frame.Qlt_bool a b = false -> (b <= a)%Q.
Proof.
  unfold Frame.Qlt_bool. intros H. apply negb_false_iff in H.
  now apply Qle_bool_iff.
Qed.

(** The first position of a maximum of [l]. *)
Definition first_max (l : list Q) (i : nat) (b : Q) : Prop :=
  nth_error l i = Some b
  /\ (forall x, In x l -> (x <= b)%Q)
  /\ (forall j x, (j < i)%nat -> nth_error l j = Some x -> (x < b)%Q).

Lemma argmax_from_first_max l :
  forall seen best bi,
    first_max seen bi best ->
    exists b,
      first_max (seen ++ l) (argmax_from best bi (length seen) l) b.
Proof.
  induction l as [|x l IH]; intros seen best bi (H1 & H2 & H3).
  - rewrite app_nil_r. exists best. repeat split; assumption.
  - cbn [argmax_from].
    replace (seen ++ x :: l) with ((seen ++ [x]) ++ l)
      by (now rewrite <- app_assoc).
    replace (S (length seen)) with (length (seen ++ [x]))
      by (rewrite length_app; cbn; lia).
    assert (Hbi : (bi < length seen)%nat)
      by (apply nth_error_Some; congruence).
    destruct (Frame.Qlt_bool best x) eqn:E.
    + apply Qlt_bool_true in E.
      apply (IH (seen ++ [x]) x (length seen)). repeat split.
      * rewrite nth_error_app2 by lia. now rewrite Nat.sub_diag.
      * intros y Hy. apply in_app_or in Hy as [Hy|[<-|[]]].
        -- apply Qlt_le_weak. eapply Qle_lt_trans; eauto.
        -- apply Qle_refl.
      * intros j y Hj Hy. rewrite nth_error_app1 in Hy by lia.
        eapply Qle_lt_trans; [|exact E]. apply H2.
        eapply nth_error_In; eauto.
    + apply Qlt_bool_false in E. apply IH. repeat split.
      * now rewrite nth_error_app1 by lia.
      * intros y Hy. apply in_app_or in Hy as [Hy|[<-|[]]]; auto.
      * intros j y Hj Hy. rewrite nth_error_app1 in Hy by lia. eauto.
Qed.

Lemma idxmax_first_max x l :
  exists i b, idxmax (x :: l) = Ok i /\ first_max (x :: l) i b.
Proof.
  destruct (argmax_from_first_max l [x] x 0%nat) as (b & H).
  - repeat split.
    + intros y [<-|[]]. apply Qle_refl.
    + intros j y Hj. lia.
  - eexists _, b. split; [reflexivity|exact H].
Qed.

(** Taking the best row of a table with a row does not fail. *)
Lemma best_by_returns {A} (throughput : A -> Q) (tbl : list A) :
  is_nil tbl = false -> exists r, best_by throughput tbl = Returns r.
Proof.
  destruct tbl as [|r0 tbl]; [discriminate|]. intros _.
  destruct (idxmax_first_max (throughput r0) (map throughput tbl))
    as (i & b & Hi & H1 & _).
  change (throughput r0 :: map throughput tbl)
    with (map throughput (r0 :: tbl)) in *.
  rewrite nth_error_map in H1.
  destruct (nth_error (r0 :: tbl) i) as [r|] eqn:E; [|discriminate].
  exists r. unfold best_by, column, loc. now rewrite Hi, E.
Qed.

(** X8: on a table with a row, the best row of the summaries,
    [tbl.loc[tbl["Throughput"].idxmax()]], is the first row of maximal
    throughput: no row has a larger throughput, and every row before it has
    a smaller one.  Taking it does not fail then. *)
Theorem best_row_first_max {A} (throughput : A -> Q) (tbl : list A) :
  is_nil tbl = false ->
  exists i r,
    best_by throughput tbl = Returns r
    /\ nth_error tbl i = Some r
    /\ (forall r', In r' tbl -> (throughput r' <= throughput r)%Q)
    /\ (forall j r', (j < i)%nat -> nth_error tbl j = Some r' ->
                     (throughput r' < throughput r)%Q).
Proof.
  destruct tbl as [|r0 tbl]; [discriminate|]. intros _.
  destruct (idxmax_first_max (throughput r0) (map throughput tbl))
    as (i & b & Hi & H1 & H2 & H3).
  change (throughput r0 :: map throughput tbl)
    with (map throughput (r0 :: tbl)) in *.
  rewrite nth_error_map in H1.
  destruct (nth_error (r0 :: tbl) i) as [r|] eqn:E; [|discriminate].
  cbn [option_map] in H1. assert (b = throughput r) by congruence. subst b.
  exists i, r. unfold best_by, column, loc. rewrite Hi, E.
  repeat split.
  - intros r' Hr. apply H2. now apply in_map.
  - intros j r' Hj Hr. apply (H3 j); [assumption|].
    rewrite nth_error_map, Hr. reflexivity.
Qed.

Lemma best_row_first_max_witness :
  exists i r,
    best_by Throughput [Row 1 4 120; Row 2 4 230; Row 4 4 230] = Returns r
    /\ nth_error [Row 1 4 120; Row 2 4 230; Row 4 4 230] i = Some r
    /\ (forall r', In r' [Row 1 4 120; Row 2 4 230; Row 4 4 230] ->
                   (Throughput r' <= Throughput r)%Q)
    /\ (forall j r', (j < i)%nat ->
                     nth_error [Row 1 4 120; Row 2 4 230; Row 4 4 230] j
                     = Some r' ->
                     (Throughput r' < Throughput r)%Q).
Proof.
  apply (best_row_first_max Throughput
           [Row 1 4 120; Row 2 4 230; Row 4 4 230]).
  reflexivity.
Defined.

(** * [main] of charts.py

    The plotting functions are parameters: a call is recorded with its
    tables, and it returns or raises as [draw] says.  A path stands for the
    file it names; [files] gives the text of the files that exist. *)

Module ChartsMain.

Inductive call :=
| FourPanels (enc dec : list row)
| AdvancedPlots (enc dec : list row)
| MegaAnalysis (enc dec : list row)
| OpenSSLComparison (enc dec : list row) (ossl : list ossl_row).

(** The lines printed by [main], each with the values it formats. *)
Inductive message :=
| InputNotFound (path : string)
| ParseFailed (path : string)
| Loaded (enc dec : nat)
| LoadedOpenSSL (points : nat)
| OpenSSLNotFound (path : string)
| SummaryTitle
| EncryptBest (r : row)
| DecryptBest (r : row)
| OpenSSLBest (mbps : Q) (bytes : Z).

Inductive event :=
| Printed (m : message)
| Call (c : call).

Definition MYLIB_INPUT_DEFAULT : string := "input.txt".
Definition OPENSSL_INPUT_DEFAULT : string := "input-openssl.txt".

(** [Series.max] of a series with a first value. *)
Definition series_max (x : Q) (l : list Q) : Q :=
  fold_left (fun m y => if Frame.Qlt_bool m y then y else m) l x.

Section Main.

Variable files : string -> option text.
Variable draw : call -> option error.

Definition print (m : message) : io event unit := emit (Printed m).

Definition plot (c : call) : io event unit :=
  ([Call c], match draw c with None => Returns tt | Some e => Raises e end).

Definition mylib_path (args : list string) : string :=
  match args with
  | a :: _ => a
  | [] => MYLIB_INPUT_DEFAULT
  end.

Definition openssl_path (args : list string) : string :=
  match args with
  | _ :: b :: _ => b
  | _ => OPENSSL_INPUT_DEFAULT
  end.

(** The optional OpenSSL part: the table it leaves in [ossl_df]. *)
Definition openssl_part (enc dec : list row) (path : string)
  : io event (list ossl_row) :=
  match files path with
  | Some txt =>
      ossl_df <~ of_result (parse_openssl_results txt) ;;
      _ <~ print (LoadedOpenSSL (length ossl_df)) ;;
      _ <~ plot (OpenSSLComparison enc dec ossl_df) ;;
      ret ossl_df
  | None =>
      _ <~ print (OpenSSLNotFound path) ;;
      ret []
  end.

Definition summary (enc dec : list row) (ossl_df : list ossl_row)
  : io event unit :=
  enc_best <~ of_outcome (best_row enc) ;;
  dec_best <~ of_outcome (best_row dec) ;;
  _ <~ print SummaryTitle ;;
  _ <~ print (EncryptBest enc_best) ;;
  _ <~ print (DecryptBest dec_best) ;;
  match ossl_df with
  | [] => ret tt
  | r :: rs =>
      let col := map ThroughputMBps ossl_df in
      i <~ of_result (idxmax col) ;;
      b <~ of_outcome (loc ossl_df i) ;;
      print (OpenSSLBest
               (series_max (ThroughputMBps r) (map ThroughputMBps rs))
               (BlockBytes b))
  end.

Definition main (argv : list string) : io event Z :=
  match files (mylib_path argv) with
  | None =>
      _ <~ print (InputNotFound (mylib_path argv)) ;;
      ret 1
  | Some txt =>
      tables <~ of_result (parse_mylib_results txt) ;;
      let (enc, dec) := (tables : list row * list row) in
      if is_nil enc || is_nil dec then
        _ <~ print (ParseFailed (mylib_path argv)) ;;
        ret 2
      else
        _ <~ print (Loaded (length enc) (length dec)) ;;
        _ <~ plot (FourPanels enc dec) ;;
        _ <~ plot (AdvancedPlots enc dec) ;;
        _ <~ plot (MegaAnalysis enc dec) ;;
        ossl_df <~ openssl_part enc dec (openssl_path argv) ;;
        _ <~ summary enc dec ossl_df ;;
        ret 0
  end.

End Main.

(** The tables a plotting function is called with. *)
Definition tables_of (c : call) : list row * list row :=
  match c with
  | FourPanels enc dec | AdvancedPlots enc dec | MegaAnalysis enc dec
  | OpenSSLComparison enc dec _ => (enc, dec)
  end.

Definition called_with (enc dec : list row) (ev : event) : Prop :=
  match ev with
  | Call c => tables_of c = (enc, dec)
  | Printed _ => True
  end.

End ChartsMain.

Import ChartsMain.

Lemma then_trace {E A B} (m : io E A) (k : A -> io E B) (P : E -> Prop) :
  Forall P (fst m) ->
  (forall a, Forall P (fst (k a))) ->
  Forall P (fst (then_ m k)).
Proof.
  destruct m as [t [a|e]]; cbn [fst then_]; intros H1 H2; [|assumption].
  specialize (H2 a). destruct (k a) as [t' o]. cbn [fst] in *.
  apply Forall_app. auto.
Qed.

Lemma of_result_trace {E A} (r : result A) (P : E -> Prop) :
  Forall P (fst (of_result (event := E) r)).
Proof. destruct r; constructor. Qed.

Lemma of_outcome_trace {E A} (o : outcome A) (P : E -> Prop) :
  Forall P (fst (of_outcome (event := E) o)).
Proof. constructor. Qed.

Section MainFacts.

Variable files : string -> option text.
Variable draw : call -> option error.

Lemma summary_trace enc dec ossl :
  Forall (called_with enc dec) (fst (summary enc dec ossl)).
Proof.
  unfold summary.
  do 2 (apply then_trace; [apply of_outcome_trace|intros ?]).
  do 3 (apply then_trace; [repeat constructor|intros ?]).
  destruct ossl; [constructor|].
  apply then_trace; [apply of_result_trace|intros ?].
  apply then_trace; [apply of_outcome_trace|intros ?].
  repeat constructor.
Qed.

Lemma openssl_part_trace enc dec path :
  Forall (called_with enc dec) (fst (openssl_part files draw enc dec path)).
Proof.
  unfold openssl_part. destruct (files path).
  - apply then_trace; [apply of_result_trace|intros ?].
    do 2 (apply then_trace; [repeat constructor|intros ?]). constructor.
  - apply then_trace; [repeat constructor|intros ?]. constructor.
Qed.

(** The run of [main] on tables that both hold a row. *)
Lemma main_with_data argv txt enc dec :
  files (mylib_path argv) = Some txt ->
  parse_mylib_results txt = Ok (enc, dec) ->
  is_nil enc = false -> is_nil dec = false ->
  exists rest,
    fst (ChartsMain.main files draw argv)
    = Printed (Loaded (length enc) (length dec)) :: Call (FourPanels enc dec)
        :: rest
    /\ Forall (called_with enc dec) rest.
Proof.
  intros Hf Hp He Hd. unfold main. rewrite Hf, Hp. cbn [of_result ret then_].
  rewrite He, Hd. cbn [orb].
  set (tail := _ <~ plot draw (AdvancedPlots enc dec) ;; _).
  assert (Ht : Forall (called_with enc dec) (fst tail)).
  { unfold tail.
    do 2 (apply then_trace; [repeat constructor|intros ?]).
    apply then_trace; [apply openssl_part_trace|intros ?].
    apply then_trace; [apply summary_trace|intros ?]. constructor. }
  unfold print, emit, plot. cbn [then_ app].
  destruct (draw (FourPanels enc dec)).
  - cbn [fst]. exists []. split; [reflexivity|constructor].
  - destruct tail as [t o]. cbn [fst app] in *. exists t. auto.
Qed.

End MainFacts.

Lemma is_nil_map {A B} (f : A -> B) l : is_nil (map f l) = is_nil l.
Proof. destruct l; reflexivity. Qed.

(** X9: [main] of charts.py draws only from two tables that hold rows.  If
    the input file is missing it prints an error and returns 1; if a chunk
    size or a throughput captured in a section is not a number the
    [ValueError] of the parser leaves [main], nothing being printed; if a
    section is missing or has no data line it prints an error and returns 2;
    otherwise it reports the two row counts and calls
    [plot_mylib_four_panels] first, and every plotting function afterwards,
    with exactly the two parsed tables. *)
Theorem main_draws_only_with_data (files : string -> option text)
    (draw : call -> option error) (argv : list string) :
  match files (mylib_path argv) with
  | None =>
      ChartsMain.main files draw argv
      = ([Printed (InputNotFound (mylib_path argv))], Returns 1)
  | Some txt =>
      let me := mylib_matches (enc_sec txt) in
      let md := mylib_matches (dec_sec txt) in
      if existsb bad_float (me ++ md) then
        ChartsMain.main files draw argv = ([], Raises (Builtin ValueError))
      else if is_nil me || is_nil md then
        ChartsMain.main files draw argv
        = ([Printed (ParseFailed (mylib_path argv))], Returns 2)
      else
        exists rest,
          fst (ChartsMain.main files draw argv)
          = Printed (Loaded (length me) (length md))
              :: Call (FourPanels (map mylib_row me) (map mylib_row md))
              :: rest
          /\ Forall (called_with (map mylib_row me) (map mylib_row md)) rest
  end.
Proof.
  destruct (files (mylib_path argv)) as [txt|] eqn:Hf.
  - cbv zeta.
    pose proof (both_cases _ _ _ _ _ _ (extract_cases (enc_sec txt))
                  (extract_cases (dec_sec txt))) as Hp.
    fold (parse_mylib_results txt) in Hp. rewrite <- existsb_app in Hp.
    destruct (existsb bad_float _) eqn:Eb.
    + unfold main. rewrite Hf, Hp. reflexivity.
    + destruct (is_nil _ || is_nil _) eqn:En.
      * unfold main. rewrite Hf, Hp. cbn [of_result ret then_].
        rewrite !is_nil_map, En. reflexivity.
      * apply orb_false_iff in En as [E1 E2].
        rewrite <- (length_map mylib_row (mylib_matches (enc_sec txt))).
        rewrite <- (length_map mylib_row (mylib_matches (dec_sec txt))).
        apply (main_with_data files draw argv txt); auto;
          now rewrite is_nil_map.
  - unfold main. rewrite Hf. reflexivity.
Qed.

Lemma snd_then {E A B} (m : io E A) (k : A -> io E B) :
  snd (then_ m k)
  = match snd m with
    | Returns a => snd (k a)
    | Raises e => Raises e
    end.
Proof. destruct m as [t [a|e]]; cbn [then_ snd]; [|reflexivity]. now destruct (k a). Qed.

Lemma summary_returns enc dec ossl :
  is_nil enc = false -> is_nil dec = false ->
  snd (summary enc dec ossl) = Returns tt.
Proof.
  intros He Hd. unfold summary.
  destruct (best_by_returns Throughput enc He) as (r & Er).
  destruct (best_by_returns Throughput dec Hd) as (s & Es).
  unfold best_row. rewrite Er, Es.
  unfold of_outcome, print, emit. repeat (rewrite snd_then; cbn [snd]).
  destruct ossl as [|o ossl]; [reflexivity|]. cbn [map].
  destruct (idxmax_first_max (ThroughputMBps o) (map ThroughputMBps ossl))
    as (k & b & -> & H & _).
  change (ThroughputMBps o :: map ThroughputMBps ossl)
    with (map ThroughputMBps (o :: ossl)) in H.
  rewrite nth_error_map in H. unfold loc, of_result, ret.
  destruct (nth_error (o :: ossl) k) eqn:E; [|discriminate].
  rewrite snd_then. cbn [snd]. rewrite E. reflexivity.
Qed.

(** X10: once both tables hold a row and the plotting functions return,
    [main] of charts.py returns 0 when there is no OpenSSL file or when it
    parses, the summary never failing; and when [parse_openssl_results]
    raises, its exception leaves [main]. *)
Theorem main_returns_0 (files : string -> option text)
    (draw : call -> option error) (argv : list string) (txt : text)
    (enc dec : list row) :
  (forall c, draw c = None) ->
  files (mylib_path argv) = Some txt ->
  parse_mylib_results txt = Ok (enc, dec) ->
  is_nil enc = false -> is_nil dec = false ->
  snd (ChartsMain.main files draw argv)
  = match files (openssl_path argv) with
    | None => Returns 0
    | Some otxt =>
        match parse_openssl_results otxt with
        | Ok _ => Returns 0
        | Raise e => Raises (Builtin e)
        end
    end.
Proof.
  intros Hdraw Hf Hp He Hd. unfold main. rewrite Hf, Hp.
  unfold of_result, ret. rewrite snd_then. cbn [snd].
  rewrite He, Hd. cbn [orb].
  unfold openssl_part, print, plot, emit.
  repeat (rewrite snd_then; rewrite ?Hdraw; cbn [snd]).
  destruct (files (openssl_path argv)) as [otxt|].
  - destruct (parse_openssl_results otxt) as [ossl|e].
    + unfold of_result, ret.
      repeat (rewrite snd_then; rewrite ?Hdraw; cbn [snd]).
      now rewrite summary_returns.
    + unfold of_result, raise. rewrite snd_then. reflexivity.
  - unfold ret. repeat (rewrite snd_then; cbn [snd]).
    now rewrite summary_returns.
Qed.

Definition sample_files (path : string) : option text :=
  if String.eqb path "input.txt" then Some small_log else None.

Lemma main_returns_0_witness :
  snd (ChartsMain.main sample_files (fun _ => None) [])
  = match sample_files (openssl_path []) with
    | None => Returns 0
    | Some otxt =>
        match parse_openssl_results otxt with
        | Ok _ => Returns 0
        | Raise e => Raises (Builtin e)
        end
    end.
Proof.
  apply (main_returns_0 sample_files (fun _ => None) [] small_log
           [Row 1 4 (241 # 2); Row 2 4 (2301 # 10)] [Row 1 4 150]);
    reflexivity.
Defined.

(** * [main] of simple_charts.py

    As for charts.py, the calls into matplotlib are parameters.  The body of
    the [try] is [attempt]; [main] adds the two handlers. *)

Module SimpleCharts.

Inductive call :=
| CreatePlots (encrypt_data decrypt_data : list TestParser.row)
| Savefig
| PltShow.

(** The lines printed, each with the values it formats. *)
Inductive message :=
| NoData
| LoadedTitle
| EncryptionRecords (n : nat)
| DecryptionRecords (n : nat)
| Saved
| Rule
| SummaryTitle
| TopResults
| BestThroughput (r : TestParser.row)
| BestSetting (r : TestParser.row)
| AverageValues
| Average (mean : Q)
| Faster (decrypt_mean encrypt_mean : Q)
| ChartsCreated
| ChartLine (n : nat)
| FileNotFound
| Error (e : error).

Inductive event :=
| Printed (m : message)
| Call (c : call).

(** [Series.mean] of a series that is not empty. *)
Definition mean (l : list Q) : Q :=
  (fold_right Qplus 0 l / inject_Z (Z.of_nat (length l)))%Q.

Section Main.

Variable files : string -> option text.
Variable draw : call -> option error.

Definition print (m : message) : io event unit := emit (Printed m).

Definition plot (c : call) : io event unit :=
  ([Call c], match draw c with None => Returns tt | Some e => Raises e end).

(** [parse_test_results(filename)], with the [open] of the file. *)
Definition parse_file (filename : string)
  : io event (list TestParser.row * list TestParser.row) :=
  match files filename with
  | None => raise FileNotFoundError
  | Some content => of_result (TestParser.parse_test_results content)
  end.

Definition print_summary (encrypt_data decrypt_data : list TestParser.row)
  : io event unit :=
  _ <~ print Rule ;;
  _ <~ print SummaryTitle ;;
  _ <~ print Rule ;;
  encrypt_best <~ of_outcome (best_by TestParser.Throughput encrypt_data) ;;
  decrypt_best <~ of_outcome (best_by TestParser.Throughput decrypt_data) ;;
  _ <~ print TopResults ;;
  _ <~ print (BestThroughput encrypt_best) ;;
  _ <~ print (BestSetting encrypt_best) ;;
  _ <~ print (BestThroughput decrypt_best) ;;
  _ <~ print (BestSetting decrypt_best) ;;
  _ <~ print AverageValues ;;
  _ <~ print (Average (mean (map TestParser.Throughput encrypt_data))) ;;
  _ <~ print (Average (mean (map TestParser.Throughput decrypt_data))) ;;
  _ <~ print (Faster (mean (map TestParser.Throughput decrypt_data))
                     (mean (map TestParser.Throughput encrypt_data))) ;;
  print Rule.

(** The body of the [try]. *)
Definition attempt : io event unit :=
  tables <~ parse_file "input.txt" ;;
  let (encrypt_data, decrypt_data) :=
    (tables : list TestParser.row * list TestParser.row) in
  if is_nil encrypt_data || is_nil decrypt_data then print NoData
  else
    _ <~ print LoadedTitle ;;
    _ <~ print (EncryptionRecords (length encrypt_data)) ;;
    _ <~ print (DecryptionRecords (length decrypt_data)) ;;
    _ <~ plot (CreatePlots encrypt_data decrypt_data) ;;
    _ <~ plot Savefig ;;
    _ <~ print Saved ;;
    _ <~ print_summary encrypt_data decrypt_data ;;
    _ <~ plot PltShow ;;
    _ <~ print ChartsCreated ;;
    _ <~ print (ChartLine 1) ;;
    _ <~ print (ChartLine 2) ;;
    _ <~ print (ChartLine 3) ;;
    print (ChartLine 4).

(** [except FileNotFoundError] and [except Exception]: [SystemExit] is no
    [Exception]. *)
Definition main : io event unit :=
  match attempt with
  | (t, Returns _) => (t, Returns tt)
  | (t, Raises FileNotFoundError) => (t ++ [Printed FileNotFound], Returns tt)
  | (t, Raises (SystemExit code)) => (t, Raises (SystemExit code))
  | (t, Raises e) => (t ++ [Printed (Error e)], Returns tt)
  end.

End Main.

End SimpleCharts.

(** A run that does not end in [SystemExit]. *)
Definition no_exit {E A} (m : io E A) : Prop :=
  forall code, snd m <> Raises (SystemExit code).

Lemma then_no_exit {E A B} (m : io E A) (k : A -> io E B) :
  no_exit m -> (forall a, no_exit (k a)) -> no_exit (then_ m k).
Proof.
  intros H1 H2 code. rewrite snd_then. destruct (snd m) eqn:E'.
  - apply H2.
  - intros H. apply (H1 code). congruence.
Qed.

Lemma emit_no_exit {E} (ev : E) : no_exit (emit ev).
Proof. intros code. discriminate. Qed.

Lemma of_result_no_exit {E A} (r : result A) :
  no_exit (of_result (event := E) r).
Proof. intros code. destruct r; discriminate. Qed.

Lemma best_by_no_exit {E A} (f : A -> Q) (tbl : list A) :
  no_exit (of_outcome (event := E) (best_by f tbl)).
Proof.
  intros code. destruct tbl as [|r tbl]; [discriminate|].
  destruct (best_by_returns f (r :: tbl) eq_refl) as (b & H).
  cbn [of_outcome snd]. rewrite H. discriminate.
Qed.

Section SimpleFacts.

Import SimpleCharts.

Variable files : string -> option text.
Variable draw : call -> option error.

Lemma simple_plot_no_exit c :
  (forall c code, draw c <> Some (SystemExit code)) -> no_exit (plot draw c).
Proof.
  intros H code. unfold plot. cbn [snd]. destruct (draw c) eqn:E.
  - intros H'. apply (H c code). congruence.
  - discriminate.
Qed.

Ltac solve_no_exit :=
  first [ apply emit_no_exit
        | apply simple_plot_no_exit; assumption
        | apply best_by_no_exit
        | apply of_result_no_exit
        | apply then_no_exit; [solve_no_exit | intros ?; solve_no_exit] ].

Lemma attempt_no_exit :
  (forall c code, draw c <> Some (SystemExit code)) ->
  no_exit (attempt files draw).
Proof.
  intros H. unfold attempt, parse_file, print_summary, print.
  apply then_no_exit.
  - destruct (files "input.txt"); [apply of_result_no_exit|].
    intros code. discriminate.
  - intros [enc dec]. destruct (is_nil enc || is_nil dec).
    + apply emit_no_exit.
    + solve_no_exit.
Qed.

End SimpleFacts.

Import SimpleCharts.

(** X11: [main] of simple_charts.py prints one line and stops, drawing
    nothing, in three cases: "file not found" when input.txt is missing; the
    [ValueError] of the parser, as an error line, when a throughput captured
    in a section is not a number; "failed to find data" when a section is
    missing or has no data line.  Otherwise it reports the two row counts and
    calls [create_plots] with the two parsed tables. *)
Theorem simple_main_cases (files : string -> option text)
    (draw : call -> option error) :
  match files "input.txt" with
  | None => SimpleCharts.main files draw = ([Printed FileNotFound], Returns tt)
  | Some txt =>
      let me := test_matches (TestParser.encrypt_section txt) in
      let md := test_matches (TestParser.decrypt_section txt) in
      if existsb bad_throughput (me ++ md) then
        SimpleCharts.main files draw = ([Printed (Error (Builtin ValueError))], Returns tt)
      else if is_nil me || is_nil md then
        SimpleCharts.main files draw = ([Printed NoData], Returns tt)
      else
        exists rest,
          fst (SimpleCharts.main files draw)
          = Printed LoadedTitle
              :: Printed (EncryptionRecords (length me))
              :: Printed (DecryptionRecords (length md))
              :: Call (CreatePlots (map test_row me) (map test_row md))
              :: rest
  end.
Proof.
  destruct (files "input.txt") as [txt|] eqn:Hf.
  - cbv zeta.
    pose proof (both_cases _ _ _ _ _ _
                  (extract_data_cases (TestParser.encrypt_section txt))
                  (extract_data_cases (TestParser.decrypt_section txt)))
      as Hp.
    fold (TestParser.parse_test_results txt) in Hp.
    rewrite <- existsb_app in Hp.
    destruct (existsb bad_throughput _) eqn:Eb.
    + unfold main, attempt, parse_file. rewrite Hf, Hp. reflexivity.
    + destruct (is_nil _ || is_nil _) eqn:En.
      * unfold main, attempt, parse_file. rewrite Hf, Hp.
        cbn [of_result ret then_]. rewrite !is_nil_map, En. reflexivity.
      * unfold main, attempt, parse_file. rewrite Hf, Hp.
        cbn [of_result ret then_]. rewrite !is_nil_map, En, !length_map.
        set (tail := _ <~ plot draw Savefig ;; _).
        unfold print, emit, plot. cbn [then_ app].
        destruct (draw (CreatePlots _ _)) as [e|].
        -- destruct e; cbn [fst app]; eexists; reflexivity.
        -- destruct tail as [t [a|e]]; [|destruct e];
             cbn [fst app]; eexists; reflexivity.
  - unfold main, attempt, parse_file. rewrite Hf. reflexivity.
Qed.

(** X12: [main] of simple_charts.py never lets an exception out, unless
    matplotlib raises [SystemExit]: whatever the file holds and whatever the
    plotting calls raise, it returns. *)
Theorem simple_main_returns (files : string -> option text)
    (draw : call -> option error) :
  (forall c code, draw c <> Some (SystemExit code)) ->
  snd (SimpleCharts.main files draw) = Returns tt.
Proof.
  intros H. pose proof (attempt_no_exit files draw H) as Hn.
  unfold main. destruct (attempt files draw) as [t [a|e]]; [reflexivity|].
  destruct e; try reflexivity. destruct (Hn code). reflexivity.
Qed.

Lemma simple_main_returns_witness :
  snd (SimpleCharts.main sample_files (fun _ => Some RuntimeError)) = Returns tt.
Proof.
  apply (simple_main_returns sample_files (fun _ => Some RuntimeError)).
  intros c code. discriminate.
Defined.

(** * all_charts.py

    The import of a module and the call of its [main] are parameters, and so
    are the presence of the input file, the parsed command line and the line
    typed at the menu. *)

Module AllCharts.

Inductive message :=
| MenuQuestion
| MenuOption (n : nat)
| DataFileNotFound
| Generating (set : string)
| Done
| DoneFile (name : string).

Inductive event :=
| Printed (m : message)
| Chdir
| Imported (module_name : string)
| CallMain (module_name : string).

(** The fields of the namespace that [parse_args] returns. *)
Record namespace :=
  Namespace { menu : bool; simple : bool; advanced : bool; mega : bool;
              all : bool }.

(** [str.strip] *)
Definition strip (s : text) : text :=
  rev (drop_while is_space (rev (drop_while is_space s))).

Fixpoint text_eqb (s t : text) : bool :=
  match s, t with
  | [], [] => true
  | a :: s', b :: t' => Ascii.eqb a b && text_eqb s' t'
  | _, _ => false
  end.

(** [mapping.get(choice, ["simple", "advanced", "mega"])] *)
Definition mapping_get (choice : text) : list string :=
  if text_eqb choice (T "1") then ["simple"]
  else if text_eqb choice (T "2") then ["advanced"]
  else if text_eqb choice (T "3") then ["mega"]
  else if text_eqb choice (T "4") then ["simple"; "advanced"; "mega"]
  else ["simple"; "advanced"; "mega"].

Section Main.

(** [INPUT_DEFAULT.exists()] *)
Variable input_exists : bool.

(** [importlib.import_module]: the module, as the end of the call of its
    [main] if it has one. *)
Variable import_module : string -> outcome (option (option error)).

Definition print (m : message) : io event unit := emit (Printed m).

Definition _run_module_main (module_name : string) : io event unit :=
  _ <~ emit (Imported module_name) ;;
  mod_main <~ of_outcome (import_module module_name) ;;
  match mod_main with
  | Some ending =>
      ([CallMain module_name],
       match ending with None => Returns tt | Some e => Raises e end)
  | None => raise RuntimeError
  end.

Definition generate_simple : io event unit :=
  _ <~ print (Generating "simple") ;; _run_module_main "simple_charts".

Definition generate_advanced : io event unit :=
  _ <~ print (Generating "advanced") ;; _run_module_main "advanced_analysis".

Definition generate_mega : io event unit :=
  _ <~ print (Generating "MEGA") ;; _run_module_main "mega_advanced_analysis".

(** The loop of [run_selected]. *)
Fixpoint run_sets (sets : list string) : io event unit :=
  match sets with
  | [] => ret tt
  | s :: sets' =>
      _ <~ (if String.eqb s "simple" then generate_simple
            else if String.eqb s "advanced" then generate_advanced
            else if String.eqb s "mega" then generate_mega
            else raise (Builtin ValueError)) ;;
      run_sets sets'
  end.

Definition run_selected (sets : list string) : io event unit :=
  _ <~ emit Chdir ;;
  _ <~ (if input_exists then ret tt
        else _ <~ print DataFileNotFound ;; raise (SystemExit 1)) ;;
  _ <~ run_sets sets ;;
  _ <~ print Done ;;
  _ <~ print (DoneFile "performance_charts.png") ;;
  _ <~ print (DoneFile "advanced_performance_analysis.png") ;;
  print (DoneFile "mega_performance_analysis.png").

(** [typed] is the line that [input] returns. *)
Definition interactive_menu (typed : text) : io event (list string) :=
  _ <~ print MenuQuestion ;;
  _ <~ print (MenuOption 1) ;;
  _ <~ print (MenuOption 2) ;;
  _ <~ print (MenuOption 3) ;;
  _ <~ print (MenuOption 4) ;;
  ret (mapping_get (strip typed)).

(** [main], after [parse_args]. *)
Definition main (args : namespace) (typed : text) : io event unit :=
  sets <~ (if menu args then interactive_menu typed
           else if simple args then ret ["simple"]
           else if advanced args then ret ["advanced"]
           else if mega args then ret ["mega"]
           else ret ["simple"; "advanced"; "mega"]) ;;
  run_selected sets.

End Main.

(** The modules imported in a run, in order. *)
Fixpoint imports (t : list event) : list string :=
  match t with
  | [] => []
  | Imported m :: t' => m :: imports t'
  | _ :: t' => imports t'
  end.

(** The module of a set. *)
Definition module_of (set : string) : string :=
  if String.eqb set "simple" then "simple_charts"
  else if String.eqb set "advanced" then "advanced_analysis"
  else "mega_advanced_analysis".

(** The sets that [main] selects. *)
Definition selected (args : namespace) (typed : text) : list string :=
  if menu args then mapping_get (strip typed)
  else if simple args then ["simple"]
  else if advanced args then ["advanced"]
  else if mega args then ["mega"]
  else ["simple"; "advanced"; "mega"].

End AllCharts.

Import AllCharts.

Lemma drop_while_spaces w s :
  forallb is_space w = true ->
  drop_while is_space (w ++ s) = drop_while is_space s.
Proof.
  induction w as [|a w IH]; [reflexivity|]. cbn [forallb app drop_while].
  intros H. apply andb_true_iff in H as [-> H]. auto.
Qed.

Lemma forallb_rev {A} (f : A -> bool) l : forallb f (rev l) = forallb f l.
Proof.
  induction l as [|a l IH]; [reflexivity|]. cbn [rev forallb].
  rewrite forallb_app, IH. cbn [forallb]. rewrite andb_true_r.
  apply andb_comm.
Qed.

Lemma strip_around w1 w2 c :
  forallb is_space w1 = true -> forallb is_space w2 = true ->
  strip (w1 ++ c :: w2) = if is_space c then [] else [c].
Proof.
  intros H1 H2. unfold strip. rewrite drop_while_spaces by assumption.
  cbn [drop_while]. destruct (is_space c) eqn:E.
  - rewrite <- (app_nil_r w2), drop_while_spaces by assumption.
    cbn [drop_while rev]. reflexivity.
  - cbn [rev].
    rewrite drop_while_spaces by (now rewrite forallb_rev).
    cbn [app drop_while]. rewrite E. reflexivity.
Qed.

Lemma mapping_get_cases choice :
  In (mapping_get choice)
     [["simple"]; ["advanced"]; ["mega"]; ["simple"; "advanced"; "mega"]].
Proof.
  unfold mapping_get.
  destruct (text_eqb choice (T "1")); [cbn; auto|].
  destruct (text_eqb choice (T "2")); [cbn; auto|].
  destruct (text_eqb choice (T "3")); [cbn; auto|].
  destruct (text_eqb choice (T "4")); cbn; auto.
Qed.

Lemma selected_cases args typed :
  In (selected args typed)
     [["simple"]; ["advanced"]; ["mega"]; ["simple"; "advanced"; "mega"]].
Proof.
  unfold selected. destruct (menu args); [apply mapping_get_cases|].
  destruct (simple args); [cbn; auto|].
  destruct (advanced args); [cbn; auto|].
  destruct (mega args); cbn; auto.
Qed.

Section AllChartsFacts.

Variable input_exists : bool.
Variable import_module : string -> outcome (option (option error)).

Lemma main_selected args typed :
  exists t,
    AllCharts.main input_exists import_module args typed
    = then_ (t, Returns (selected args typed))
            (run_selected input_exists import_module)
    /\ imports t = [].
Proof.
  unfold main, selected. destruct (menu args).
  - eexists. split; [reflexivity|reflexivity].
  - destruct (simple args); [exists []; auto|].
    destruct (advanced args); [exists []; auto|].
    destruct (mega args); exists []; auto.
Qed.

End AllChartsFacts.

Lemma imports_app t t' : imports (t ++ t') = imports t ++ imports t'.
Proof.
  induction t as [|ev t IH]; [reflexivity|].
  destruct ev; cbn [app imports]; now rewrite ?IH.
Qed.

(** ** The menu, for every line typed *)

Lemma text_eqb_eq s t : text_eqb s t = true -> s = t.
Proof.
  revert t. induction s as [|a s IH]; intros [|b t]; cbn [text_eqb];
    try discriminate; [reflexivity|].
  intros H. apply andb_true_iff in H as [H1 H2].
  apply Ascii.eqb_eq in H1. subst b. f_equal. auto.
Qed.

Lemma text_eqb_refl s : text_eqb s s = true.
Proof.
  induction s as [|a s IH]; [reflexivity|]. cbn [text_eqb].
  now rewrite Ascii.eqb_refl.
Qed.

(** The line holds the one character [c], with white space around it at
    most. *)
Definition only_choice (c : ascii) (typed : text) : Prop :=
  exists w1 w2,
    forallb is_space w1 = true /\ forallb is_space w2 = true
    /\ typed = w1 ++ c :: w2.

Lemma strip_one typed c : strip typed = [c] -> only_choice c typed.
Proof.
  unfold strip. intros H.
  apply (f_equal (@rev ascii)) in H. rewrite rev_involutive in H.
  cbn [rev app] in H.
  pose proof (take_drop_while is_space (rev (drop_while is_space typed)))
    as E.
  rewrite H in E. apply (f_equal (@rev ascii)) in E.
  rewrite rev_involutive, rev_app_distr in E. cbn [rev app] in E.
  exists (take_while is_space typed),
    (rev (take_while is_space (rev (drop_while is_space typed)))).
  split; [apply take_while_all|].
  split; [rewrite forallb_rev; apply take_while_all|].
  rewrite E. symmetry. apply take_drop_while.
Qed.

(** X13: the menu, for every line typed.  It always returns a selection.
    The selection is one set exactly when the line holds "1", "2" or "3"
    and otherwise white space only; every other line, the empty line, "4"
    and "12" among them, selects the three sets. *)
Theorem menu_choice (typed : text) :
  exists sets,
    snd (interactive_menu typed) = Returns sets
    /\ (only_choice "1" typed -> sets = ["simple"])
    /\ (only_choice "2" typed -> sets = ["advanced"])
    /\ (only_choice "3" typed -> sets = ["mega"])
    /\ (~ only_choice "1" typed -> ~ only_choice "2" typed ->
        ~ only_choice "3" typed -> sets = ["simple"; "advanced"; "mega"]).
Proof.
  exists (mapping_get (strip typed)).
  split.
  { unfold interactive_menu, print, emit, ret.
    repeat (rewrite snd_then; cbn [snd]). reflexivity. }
  assert (S : forall c, is_space c = false -> only_choice c typed ->
                        strip typed = [c]).
  { intros c Hc (w1 & w2 & H1 & H2 & ->).
    rewrite strip_around by assumption. now rewrite Hc. }
  split; [|split; [|split]].
  - intros H. now rewrite (S "1"%char eq_refl H).
  - intros H. now rewrite (S "2"%char eq_refl H).
  - intros H. now rewrite (S "3"%char eq_refl H).
  - intros N1 N2 N3. unfold mapping_get.
    destruct (text_eqb (strip typed) (T "1")) eqn:E1;
      [apply text_eqb_eq, strip_one in E1; contradiction|].
    destruct (text_eqb (strip typed) (T "2")) eqn:E2;
      [apply text_eqb_eq, strip_one in E2; contradiction|].
    destruct (text_eqb (strip typed) (T "3")) eqn:E3;
      [apply text_eqb_eq, strip_one in E3; contradiction|].
    destruct (text_eqb (strip typed) (T "4")); reflexivity.
Qed.

(** ** all_charts.py, whatever the modules do *)

(** The modules that a run tries to import, and the exception that ends it
    if one does: the import of a module may raise, the module may have no
    [main], and its [main] may raise. *)
Fixpoint first_failure (import_module : string -> outcome (option (option error)))
    (modules : list string) : list string * option error :=
  match modules with
  | [] => ([], None)
  | m :: modules' =>
      match import_module m with
      | Returns (Some None) =>
          let (tried, e) := first_failure import_module modules' in
          (m :: tried, e)
      | Returns (Some (Some e)) => ([m], Some e)
      | Returns None => ([m], Some RuntimeError)
      | Raises e => ([m], Some e)
      end
  end.

(** The sets that a run can select. *)
Definition known_sets (sets : list string) : Prop :=
  Forall (fun s => In s ["simple"; "advanced"; "mega"]) sets.

Lemma selected_known args typed : known_sets (selected args typed).
Proof.
  pose proof (selected_cases args typed) as H. unfold known_sets.
  destruct H as [<-|[<-|[<-|[<-|[]]]]];
    repeat (constructor; [cbn; tauto|]); constructor.
Qed.

Section AllChartsRuns.

Variable import_module : string -> outcome (option (option error)).

Lemma run_module_main_cases m :
  _run_module_main import_module m
  = match import_module m with
    | Returns (Some None) => ([Imported m; CallMain m], Returns tt)
    | Returns (Some (Some e)) => ([Imported m; CallMain m], Raises e)
    | Returns None => ([Imported m], Raises RuntimeError)
    | Raises e => ([Imported m], Raises e)
    end.
Proof.
  unfold _run_module_main, emit, of_outcome, raise.
  destruct (import_module m) as [[[e|]|]|e]; reflexivity.
Qed.

Lemma run_sets_first_failure sets :
  known_sets sets ->
  imports (fst (run_sets import_module sets))
  = fst (first_failure import_module (map module_of sets))
  /\ snd (run_sets import_module sets)
     = match snd (first_failure import_module (map module_of sets)) with
       | None => Returns tt
       | Some e => Raises e
       end.
Proof.
  induction 1 as [|s sets Hs _ IH]; [split; reflexivity|].
  cbn [run_sets map first_failure].
  assert (G : (if String.eqb s "simple" then generate_simple import_module
               else if String.eqb s "advanced"
                    then generate_advanced import_module
               else if String.eqb s "mega" then generate_mega import_module
               else raise (Builtin ValueError))
              = then_ (emit (Printed (Generating
                                        (if String.eqb s "mega" then "MEGA"
                                         else s))))
                      (fun _ => _run_module_main import_module (module_of s))).
  { destruct Hs as [<-|[<-|[<-|[]]]]; reflexivity. }
  rewrite G, run_module_main_cases. unfold emit.
  destruct IH as [IH1 IH2].
  destruct (import_module (module_of s)) as [[[e|]|]|e];
    cbn [then_ app fst snd imports]; try (split; reflexivity).
  destruct (run_sets import_module sets) as [t o].
  destruct (first_failure import_module (map module_of sets)) as [tried e].
  cbn [fst snd] in *. cbn [app imports]. rewrite IH1.
  split; [reflexivity|]. destruct o; exact IH2.
Qed.

End AllChartsRuns.

(** The modules as the repository has them: simple_charts can be imported,
    and its [main] ends as [simple_end] says; advanced_analysis and
    mega_advanced_analysis import charts_utils, which is not among the
    sources. *)
Definition repository_import (simple_end : option error) (m : string)
  : outcome (option (option error)) :=
  if String.eqb m "simple_charts" then Returns (Some simple_end)
  else Raises ModuleNotFoundError.

(** X14: [main] of all_charts.py, whatever the command line, the menu and
    the modules do.  Without the input file it ends in [SystemExit(1)]
    before it imports any module.  With it, the modules of the selected sets
    are imported in the order simple, advanced, mega, up to the first one
    that fails: its import raises, it has no [main] ([RuntimeError]), or its
    [main] raises.  That exception ends the run; when no module fails the
    run returns.  The loop of [run_selected] never meets an unknown set. *)
Theorem all_charts_main
    (import_module : string -> outcome (option (option error)))
    (args : namespace) (typed : text) :
  (snd (AllCharts.main false import_module args typed) = Raises (SystemExit 1)
   /\ imports (fst (AllCharts.main false import_module args typed)) = [])
  /\ imports (fst (AllCharts.main true import_module args typed))
     = fst (first_failure import_module
              (map module_of (selected args typed)))
  /\ snd (AllCharts.main true import_module args typed)
     = match snd (first_failure import_module
                    (map module_of (selected args typed))) with
       | None => Returns tt
       | Some e => Raises e
       end.
Proof.
  split.
  - destruct (main_selected false import_module args typed) as (t & -> & Ht).
    cbn [then_]. unfold run_selected, print, emit, raise.
    cbn [then_ app fst snd]. rewrite imports_app, Ht. auto.
  - destruct (main_selected true import_module args typed) as (t & -> & Ht).
    destruct (run_sets_first_failure import_module (selected args typed)
                (selected_known args typed)) as [H1 H2].
    cbn [then_]. unfold run_selected, print, emit, ret.
    destruct (run_sets import_module (selected args typed)) as [t' [[]|e]];
      cbn [fst snd] in H1, H2; cbn [then_ app fst snd];
      rewrite imports_app, Ht, <- H2; cbn [app imports];
      rewrite ?imports_app; cbn [imports]; rewrite ?app_nil_r; auto.
Qed.

Lemma all_charts_main_witness :
  imports (fst (AllCharts.main true (repository_import None)
                  (Namespace false false false false false) []))
  = ["simple_charts"; "advanced_analysis"]
  /\ snd (AllCharts.main true (repository_import None)
            (Namespace false false false false false) [])
     = Raises ModuleNotFoundError.
Proof.
  exact (proj2 (all_charts_main (repository_import None)
                  (Namespace false false false false false) [])).
Defined.

(** * The middle chunk size

    [mid_chunk = unique_chunks[len(unique_chunks)//2]], the chunk size at
    which [create_advanced_plots] and [_plot_scaling_eff] measure scaling. *)

Definition mid_chunk (encrypt_data : list row) : outcome Q :=
  let unique_chunks := unique_chunks encrypt_data in
  match nth_error unique_chunks (length unique_chunks / 2) with
  | Some ch => Returns ch
  | None => Raises IndexError
  end.

Lemma unique_incl {K} (eqb : K -> K -> bool) l x :
  In x (unique eqb l) -> In x l.
Proof.
  induction l as [|a l IH]; [auto|]. cbn [unique].
  intros [H|H]; [now left|]. right. apply IH.
  now apply filter_In in H as [H _].
Qed.

(** X15: after the guard on an empty encryption table, taking the middle
    chunk size never runs out of the list: it is defined, and it is one of
    the chunk sizes of the encryption table. *)
Theorem mid_chunk_defined (encrypt_data : list row) :
  is_nil encrypt_data = false ->
  exists ch r,
    mid_chunk encrypt_data = Returns ch
    /\ In r encrypt_data /\ ChunkMB r = ch.
Proof.
  intros H. unfold mid_chunk. cbv zeta.
  set (u := unique_chunks encrypt_data).
  assert (Hp : Permutation u (unique Qeq_bool (map ChunkMB encrypt_data)))
    by apply sort_values_perm.
  assert (Hl : (0 < length u)%nat).
  { rewrite (Permutation_length Hp).
    destruct encrypt_data; [discriminate|]. cbn. lia. }
  destruct (nth_error u (length u / 2)) as [ch|] eqn:E.
  - apply nth_error_In in E. apply (Permutation_in _ Hp) in E.
    apply unique_incl in E. apply in_map_iff in E as (r & E & Hr).
    exists ch, r. auto.
  - apply nth_error_None in E.
    pose proof (Nat.div_lt (length u) 2 Hl ltac:(lia)). lia.
Qed.

Lemma mid_chunk_defined_witness :
  exists ch r,
    mid_chunk [Row 1 4 120; Row 1 (1 # 2) 60; Row 2 8 230] = Returns ch
    /\ In r [Row 1 4 120; Row 1 (1 # 2) 60; Row 2 8 230] /\ ChunkMB r = ch.
Proof.
  apply (mid_chunk_defined [Row 1 4 120; Row 1 (1 # 2) 60; Row 2 8 230]).
  reflexivity.
Defined.

(** * The decrypt/encrypt ratios of [_plot_ratio] *)

(** One point of the scatter plot: threads, chunk size and ratio. *)
Record ratio_point := RatioPoint { r_threads : Z; r_chunk : Q; r_ratio : Q }.

(** [decrypt_data[(decrypt_data['Threads'] == er['Threads'])
                  & (decrypt_data['ChunkMB'] == er['ChunkMB'])]] *)
Definition same_setting (decrypt_data : list row) (er : row) : list row :=
  filter (fun dr => (Threads dr =? Threads er)%Z
                    && Qeq_bool (ChunkMB dr) (ChunkMB er))
         decrypt_data.

(** The loop over the rows of the encryption table. *)
Definition ratios (encrypt_data decrypt_data : list row) : list ratio_point :=
  flat_map
    (fun er =>
       match same_setting decrypt_data er with
       | dr0 :: _ =>
           if Qlt_bool 0 (Throughput er) then
             [RatioPoint (Threads er) (ChunkMB er)
                         (Throughput dr0 / Throughput er)]
           else []
       | [] => []
       end)
    encrypt_data.

(** X17: every point of the ratio plot comes from an encryption row of
    positive throughput and from a decryption row with the same thread count
    and chunk size, so the division never has a zero denominator: the ratio
    times the encryption throughput is the decryption throughput.  Encryption
    rows of throughput zero and rows without a decryption partner give no
    point. *)
Theorem ratio_points (encrypt_data decrypt_data : list row) (p : ratio_point) :
  In p (ratios encrypt_data decrypt_data) ->
  exists er dr,
    In er encrypt_data /\ In dr decrypt_data
    /\ Threads dr = Threads er /\ (ChunkMB dr == ChunkMB er)%Q
    /\ (0 < Throughput er)%Q
    /\ r_threads p = Threads er /\ r_chunk p = ChunkMB er
    /\ (r_ratio p * Throughput er == Throughput dr)%Q.
Proof.
  unfold ratios. intros H. apply in_flat_map in H as (er & Her & H).
  destruct (same_setting decrypt_data er) as [|dr l] eqn:E; [destruct H|].
  destruct (Qlt_bool 0 (Throughput er)) eqn:Ep; [|destruct H].
  destruct H as [<-|[]]. apply Qlt_bool_true in Ep.
  assert (Hd : In dr (same_setting decrypt_data er))
    by (rewrite E; now left).
  apply filter_In in Hd as [Hd Hs]. apply andb_true_iff in Hs as [H1 H2].
  apply Z.eqb_eq in H1. apply Qeq_bool_iff in H2.
  exists er, dr. cbn [r_threads r_chunk r_ratio]. repeat split; auto.
  rewrite Qmult_comm. apply Qmult_div_r. intros H0. rewrite H0 in Ep.
  now apply Qlt_irrefl in Ep.
Qed.

Lemma ratio_points_witness :
  exists er dr,
    In er [Row 1 4 120; Row 2 4 0] /\ In dr [Row 1 4 150; Row 2 4 99]
    /\ Threads dr = Threads er /\ (ChunkMB dr == ChunkMB er)%Q
    /\ (0 < Throughput er)%Q
    /\ r_threads (RatioPoint 1 4 (150 / 120)) = Threads er
    /\ r_chunk (RatioPoint 1 4 (150 / 120)) = ChunkMB er
    /\ (r_ratio (RatioPoint 1 4 (150 / 120)) * Throughput er
        == Throughput dr)%Q.
Proof.
  apply (ratio_points [Row 1 4 120; Row 2 4 0] [Row 1 4 150; Row 2 4 99]
           (RatioPoint 1 4 (150 / 120))).
  left. reflexivity.
Defined.

(** * The rows of the OpenSSL table *)

(** What every row of the table satisfies. *)
Definition ossl_row_ok (r : ossl_row) : Prop :=
  (0 <= BlockBytes r)%Z /\ (0 <= ThroughputMBps r)%Q /\ Label r = label.

Lemma Qdiv_nonneg a b : (0 <= a)%Q -> (0 <= b)%Q -> (0 <= a / b)%Q.
Proof.
  intros Ha Hb. unfold Qdiv. apply Qmult_le_0_compat; [assumption|].
  now apply Qinv_le_0_compat.
Qed.

Lemma Qred_nonneg a : (0 <= a)%Q -> (0 <= Qred a)%Q.
Proof. intros H. now rewrite Qred_correct. Qed.

Lemma Ok_inj {A} (a b : A) : Ok a = Ok b -> a = b.
Proof. congruence. Qed.

Lemma zip_rows_ok sizes vals :
  Forall (fun s => 0 <= s)%Z sizes -> Forall (fun v => 0 <= v)%Q vals ->
  Forall ossl_row_ok (zip_rows sizes vals).
Proof.
  intros Hs Hv. unfold zip_rows. apply Forall_forall. intros r Hr.
  apply in_map_iff in Hr as ([s v] & <- & Hr).
  rewrite Forall_forall in Hs, Hv. unfold ossl_row_ok.
  cbn [fst snd BlockBytes ThroughputMBps Label]. split; [|split].
  - apply Hs. eapply in_combine_l; eauto.
  - apply Hv. eapply in_combine_r; eauto.
  - reflexivity.
Qed.

Lemma block_row_ok m r : block_row m = Ok r -> ossl_row_ok r.
Proof.
  intros H.
  apply block_row_reported in H
    as (block & ops & secs & E1 & E2 & E3 & _ & _ & Hb & Ht & Hl).
  apply py_int_nonneg in E1, E2. apply py_float_nonneg in E3.
  split; [|split; [|assumption]].
  - now rewrite Hb.
  - rewrite Ht. apply Qdiv_nonneg; [|discriminate].
    apply Qdiv_nonneg; [|assumption].
    change 0%Q with (inject_Z 0). rewrite <- Zle_Qle. nia.
Qed.

Lemma sort_by_block_ok data :
  Forall ossl_row_ok data ->
  Sorted block_le (sort_by_block data)
  /\ Forall ossl_row_ok (sort_by_block data).
Proof.
  intros Hd. split; [apply sort_by_block_sorted|].
  rewrite Forall_forall in *. intros r Hr. apply Hd.
  eapply Permutation_in; [apply sort_by_block_perm|exact Hr].
Qed.

(** X18: whatever the input, a table that [parse_openssl_results] returns is
    in ascending order of block size, and each of its rows has a block size
    and a throughput that are not negative and the label
    "OpenSSL AES-128-GCM". *)
Theorem openssl_rows_invariant (txt : text) (rows : list ossl_row) :
  parse_openssl_results txt = Ok rows ->
  Sorted block_le rows /\ Forall ossl_row_ok rows.
Proof.
  intros H.
  assert (Hf : fallback txt = Ok rows ->
               Sorted block_le rows /\ Forall ossl_row_ok rows).
  { unfold fallback. intros F.
    destruct (for_each size_and_time _) as [st|]; [|discriminate].
    cbn [bind] in F.
    destruct (for_each block_row (finditer pat2 txt)) as [data|] eqn:D;
      [|discriminate].
    apply Ok_inj in F. subst rows. apply sort_by_block_ok.
    exact (for_each_Forall _ _ _ _ block_row_ok D). }
  destruct (search header_re txt) as [hm|] eqn:Eh;
    [destruct (search row_re txt) as [rm|] eqn:Er|].
  - destruct (for_each py_int (findall1 bytes_re (group 1 hm)))
      as [sizes|] eqn:Es;
      [|unfold parse_openssl_results in H; rewrite Eh, Er, Es in H;
        discriminate].
    destruct (for_each py_float (findall1 kval_re (group 1 rm)))
      as [vals|] eqn:Ev;
      [|unfold parse_openssl_results in H; rewrite Eh, Er, Es, Ev in H;
        discriminate].
    rewrite (parse_openssl_structured txt hm rm sizes vals Eh Er Es Ev) in H.
    apply Ok_inj in H. subst rows. apply sort_by_block_ok, zip_rows_ok.
    + exact (for_each_Forall _ _ _ _ py_int_nonneg Es).
    + apply Forall_forall. intros v Hv.
      apply in_map_iff in Hv as (q & <- & Hq).
      apply Qred_nonneg, Qdiv_nonneg; [|discriminate].
      pose proof (for_each_Forall _ _ _ _ py_float_nonneg Ev) as Hn.
      rewrite Forall_forall in Hn. auto.
  - apply Hf. rewrite <- H. unfold parse_openssl_results.
    now rewrite Eh, Er.
  - apply Hf. rewrite <- H. unfold parse_openssl_results.
    now rewrite Eh.
Qed.

Lemma openssl_rows_invariant_witness :
  Sorted block_le
    [OsslRow 16 (5193629 # 50000) "OpenSSL AES-128-GCM";
     OsslRow 64 205 "OpenSSL AES-128-GCM"]
  /\ Forall ossl_row_ok
       [OsslRow 16 (5193629 # 50000) "OpenSSL AES-128-GCM";
        OsslRow 64 205 "OpenSSL AES-128-GCM"].
Proof.
  apply (openssl_rows_invariant openssl_trailing_space).
  vm_compute. reflexivity.
Defined.

(** * The four panels of simple_charts.py

    [create_plots] has the loops of [plot_mylib_four_panels] and no guard:
    on a table made from no record the first look at a column raises. *)

Module SimplePlots.

Definition chunk_colors : list string :=
  ["#e41a1c"; "#377eb8"; "#4daf4a"; "#984ea3"; "#ff7f00"; "#ffff33";
   "#a65628"].

Record figure :=
  Figure { ax1 : list series; ax2 : list series;
           ax3 : list series; ax4 : list series;
           chunk_ticks : list Z; thread_ticks : list Z }.

Definition unique_threads (encrypt_data : list TestParser.row) : list Z :=
  sort_values id Z.ltb (unique Z.eqb (map TestParser.Threads encrypt_data)).

Definition unique_chunks (encrypt_data : list TestParser.row) : list Z :=
  sort_values id Z.ltb (unique Z.eqb (map TestParser.ChunkMB encrypt_data)).

(** [tbl[tbl['Threads'] == threads].sort_values('ChunkMB')] *)
Definition thread_data (tbl : list TestParser.row) (threads : Z)
  : list TestParser.row :=
  sort_values TestParser.ChunkMB Z.ltb
              (filter (fun r => (TestParser.Threads r =? threads)%Z) tbl).

Definition threads_series (tbl : list TestParser.row) (it : nat * Z)
  : series :=
  let d := thread_data tbl (snd it) in
  Series (map (fun r => inject_Z (TestParser.ChunkMB r)) d)
         (map TestParser.Throughput d) (ThreadsLegend (snd it))
         (color thread_colors (fst it)).

(** [tbl[tbl['ChunkMB'] == chunk_size].sort_values('Threads')] *)
Definition chunk_data (tbl : list TestParser.row) (chunk_size : Z)
  : list TestParser.row :=
  sort_values TestParser.Threads Z.ltb
              (filter (fun r => (TestParser.ChunkMB r =? chunk_size)%Z) tbl).

Definition chunk_series (tbl : list TestParser.row) (ic : nat * Z) : series :=
  let d := chunk_data tbl (snd ic) in
  Series (map (fun r => inject_Z (TestParser.Threads r)) d)
         (map TestParser.Throughput d) (ChunkLegend (snd ic))
         (color chunk_colors (fst ic)).

Definition create_plots (encrypt_data decrypt_data : list TestParser.row)
  : outcome figure :=
  if is_nil encrypt_data || is_nil decrypt_data then Raises KeyError
  else
    Returns
      (Figure
         (map (threads_series encrypt_data)
              (enumerate (unique_threads encrypt_data)))
         (map (threads_series decrypt_data)
              (enumerate (unique_threads encrypt_data)))
         (map (chunk_series encrypt_data)
              (enumerate (unique_chunks encrypt_data)))
         (map (chunk_series decrypt_data)
              (enumerate (unique_chunks encrypt_data)))
         (unique_chunks encrypt_data) (unique_threads encrypt_data)).

Definition chunk_point (r : TestParser.row) : Q * Q :=
  (inject_Z (TestParser.ChunkMB r), TestParser.Throughput r).

Definition threads_point (r : TestParser.row) : Q * Q :=
  (inject_Z (TestParser.Threads r), TestParser.Throughput r).

Definition threads_in (tbl : list TestParser.row) (r : TestParser.row)
  : bool :=
  existsb (fun r' => (TestParser.Threads r =? TestParser.Threads r')%Z) tbl.

Definition chunk_in (tbl : list TestParser.row) (r : TestParser.row) : bool :=
  existsb (fun r' => (TestParser.ChunkMB r =? TestParser.ChunkMB r')%Z) tbl.

End SimplePlots.

Lemma simple_points_threads tbl ks :
  panel_points (map (SimplePlots.threads_series tbl) (enumerate ks))
  = flat_map (fun t => map SimplePlots.chunk_point
                           (SimplePlots.thread_data tbl t)) ks.
Proof.
  unfold panel_points, enumerate. rewrite flat_map_map.
  apply flat_map_enumerate. intros i t.
  unfold points, SimplePlots.threads_series.
  cbn [s_x s_y snd]. apply combine_map.
Qed.

Lemma simple_points_chunk tbl ks :
  panel_points (map (SimplePlots.chunk_series tbl) (enumerate ks))
  = flat_map (fun ch => map SimplePlots.threads_point
                            (SimplePlots.chunk_data tbl ch)) ks.
Proof.
  unfold panel_points, enumerate. rewrite flat_map_map.
  apply flat_map_enumerate. intros i t.
  unfold points, SimplePlots.chunk_series.
  cbn [s_x s_y snd]. apply combine_map.
Qed.

(** X19: [create_plots] of simple_charts.py draws, like the figure of
    charts.py, every encryption measurement exactly once in the panel by
    chunk size and once in the panel by threads, and of the decryption
    measurements those whose thread count (second panel) or chunk size
    (fourth panel) occurs in the encryption table.  When a table holds no
    row it raises [KeyError], where [plot_mylib_four_panels] returns. *)
Theorem create_plots_points (encrypt_data decrypt_data : list TestParser.row) :
  if is_nil encrypt_data || is_nil decrypt_data then
    SimplePlots.create_plots encrypt_data decrypt_data = Raises KeyError
  else
    exists fig,
      SimplePlots.create_plots encrypt_data decrypt_data = Returns fig
      /\ Permutation (panel_points (SimplePlots.ax1 fig))
                     (map SimplePlots.chunk_point encrypt_data)
      /\ Permutation (panel_points (SimplePlots.ax2 fig))
                     (map SimplePlots.chunk_point
                          (filter (SimplePlots.threads_in encrypt_data)
                                  decrypt_data))
      /\ Permutation (panel_points (SimplePlots.ax3 fig))
                     (map SimplePlots.threads_point encrypt_data)
      /\ Permutation (panel_points (SimplePlots.ax4 fig))
                     (map SimplePlots.threads_point
                          (filter (SimplePlots.chunk_in encrypt_data)
                                  decrypt_data)).
Proof.
  unfold SimplePlots.create_plots.
  destruct (is_nil encrypt_data || is_nil decrypt_data); [reflexivity|].
  eexists. split; [reflexivity|].
  cbn [SimplePlots.ax1 SimplePlots.ax2 SimplePlots.ax3 SimplePlots.ax4].
  rewrite !simple_points_threads, !simple_points_chunk.
  unfold SimplePlots.unique_threads, SimplePlots.unique_chunks.
  assert (Ht : forall tbl t,
             Permutation (SimplePlots.thread_data tbl t)
                         (filter (fun r => (TestParser.Threads r =? t)%Z)
                                 tbl))
    by (intros; apply sort_values_perm).
  assert (Hc : forall tbl ch,
             Permutation (SimplePlots.chunk_data tbl ch)
                         (filter (fun r => (TestParser.ChunkMB r =? ch)%Z)
                                 tbl))
    by (intros; apply sort_values_perm).
  split; [|split; [|split]].
  - apply (groups_of_own_keys TestParser.Threads Z.eqb Z.ltb Z.eqb_refl
             Z.eqb_sym Z_eqb_trans _ SimplePlots.chunk_point
             SimplePlots.thread_data Ht).
  - apply (groups_of_keys TestParser.Threads Z.eqb Z.ltb Z.eqb_sym
             Z_eqb_trans _ SimplePlots.chunk_point
             SimplePlots.thread_data Ht).
  - apply (groups_of_own_keys TestParser.ChunkMB Z.eqb Z.ltb Z.eqb_refl
             Z.eqb_sym Z_eqb_trans _ SimplePlots.threads_point
             SimplePlots.chunk_data Hc).
  - apply (groups_of_keys TestParser.ChunkMB Z.eqb Z.ltb Z.eqb_sym
             Z_eqb_trans _ SimplePlots.threads_point
             SimplePlots.chunk_data Hc).
Qed.

(** * The row pattern as a scan

    The row pattern never has a choice to make: a field is a maximal run of
    its class, and what follows a run cannot begin inside the class.  A
    match is therefore what a reader finds that takes, from left to right,
    the longest run of digits, white space, a bar, white space, the longest
    run of the second class, white space, a bar, white space, and the
    longest run of digits and points. *)

(** A field: the longest run of a class, which must not be empty. *)
Definition field (f : ascii -> bool) (s : text) : option (text * text) :=
  if is_nil (take_while f s) then None
  else Some (take_while f s, drop_while f s).

(** A separator: white space, a bar, white space. *)
Definition sep (s : text) : option text :=
  match drop_while is_space s with
  | b :: s' => if Ascii.eqb b bar then Some (drop_while is_space s') else None
  | [] => None
  end.

(** The three fields of the triplet that begins at the head of [s], and the
    text after it. *)
Definition triplet_at (f2 : ascii -> bool) (s : text)
  : option (text * text * text * text) :=
  match field is_digit s with
  | Some (th, s1) =>
      match sep s1 with
      | Some s2 =>
          match field f2 s2 with
          | Some (ch, s3) =>
              match sep s3 with
              | Some s4 =>
                  match field is_digit_or_dot s4 with
                  | Some (thr, r) => Some (th, ch, thr, r)
                  | None => None
                  end
              | None => None
              end
          | None => None
          end
      | None => None
      end
  | None => None
  end.

(** The occurrences of the pattern in a text, as [re.findall] returns them:
    the text is read from left to right, and after an occurrence the reading
    resumes where it ended ([skip] counts the characters of an occurrence
    still to be passed over). *)
Fixpoint occ (f2 : ascii -> bool) (skip : nat) (s : text)
  : list (text * text * text) :=
  match skip with
  | S n =>
      match s with
      | [] => []
      | _ :: s' => occ f2 n s'
      end
  | O =>
      match triplet_at f2 s with
      | Some (m, r) =>
          m :: match s with
               | [] => []
               | _ :: s' => occ f2 (length s - length r - 1) s'
               end
      | None =>
          match s with
          | [] => []
          | _ :: s' => occ f2 0 s'
          end
      end
  end.

Definition occurrences (f2 : ascii -> bool) (s : text)
  : list (text * text * text) := occ f2 0 s.

Lemma starts_in_drop_while f s : starts_in f (drop_while f s) = false.
Proof.
  induction s as [|a s IH]; [reflexivity|]. cbn [drop_while].
  destruct (f a) eqn:E; [exact IH|]. exact E.
Qed.

Lemma take_while_nil f s : is_nil (take_while f s) = negb (starts_in f s).
Proof. destruct s as [|a s]; [reflexivity|]. simpl. now destruct (f a). Qed.

(** A repetition of a class in front of something that cannot begin inside
    the class. *)
Lemma run_star_exact f k pv s c :
  (forall pv' s', starts_in f s' = true -> k (Cursor pv' s') c = None) ->
  run (Star (Chr f)) k (Cursor pv s) c
  = k (Cursor (after pv (take_while f s)) (drop_while f s)) c.
Proof. intros H. rewrite run_star_chr. now apply greedy_chr_exact. Qed.

Lemma run_group_plus_exact f n k pv s c :
  (forall pv' s' c', starts_in f s' = true -> k (Cursor pv' s') c' = None) ->
  run (Group n (Plus (Chr f))) k (Cursor pv s) c
  = if is_nil (take_while f s) then None
    else k (Cursor (after pv (take_while f s)) (drop_while f s))
           ((n, take_while f s) :: c).
Proof.
  intros H. rewrite run_group. unfold Plus. rewrite run_cat.
  destruct s as [|a s]; [reflexivity|].
  change (run (Chr f) ?k' (Cursor pv (a :: s)) c)
    with (if f a then k' (step a s) c else None).
  cbn [take_while drop_while]. destruct (f a) eqn:E; [|reflexivity].
  cbn [is_nil]. unfold step. rewrite run_star_exact.
  - pose proof (between_app pv (after (Some a) (take_while f s))
                  (a :: take_while f s) (drop_while f s)) as B.
    cbn [app] in B. rewrite take_drop_while in B. rewrite B. reflexivity.
  - intros pv' s' Hs. now apply H.
Qed.

Lemma run_group_plus_final f n pv s c :
  option_map (fun o => (fst o, rest (snd o)))
             (run (Group n (Plus (Chr f))) final (Cursor pv s) c)
  = if is_nil (take_while f s) then None
    else Some ((n, take_while f s) :: c, drop_while f s).
Proof.
  destruct (is_nil (take_while f s)) eqn:E.
  - rewrite run_group. unfold Plus. rewrite run_cat.
    destruct s as [|a s]; [reflexivity|]. cbn [take_while] in E.
    change (run (Chr f) ?k' (Cursor pv (a :: s)) c)
      with (if f a then k' (step a s) c else None).
    destruct (f a); [discriminate|reflexivity].
  - pose proof (run_group_plus_longest f n final pv (take_while f s)
                  (drop_while f s) c _ E (take_while_all f s)
                  (starts_in_drop_while f s) eq_refl) as R.
    rewrite take_drop_while in R. rewrite R. reflexivity.
Qed.

Lemma bar_fails_on f k pv s c :
  f bar = false -> starts_in f s = true ->
  run (lit "|") k (Cursor pv s) c = None.
Proof.
  intros Hb Hs. unfold lit. rewrite run_lit.
  destruct s as [|a s]; [reflexivity|]. cbn [T list_ascii_of_string strip_prefix].
  destruct (Ascii.eqb "|" a) eqn:E; [|reflexivity].
  apply Ascii.eqb_eq in E. subst a. cbn [starts_in] in Hs.
  unfold bar in Hb. congruence.
Qed.

Lemma run_bar_cases k pv s c :
  run (lit "|") k (Cursor pv s) c
  = match s with
    | b :: s' => if Ascii.eqb b bar then k (Cursor (Some bar) s') c else None
    | [] => None
    end.
Proof.
  unfold lit. rewrite run_lit. destruct s as [|b s]; [reflexivity|].
  cbn [T list_ascii_of_string strip_prefix]. rewrite Ascii.eqb_sym.
  fold bar. destruct (Ascii.eqb b bar); reflexivity.
Qed.

Lemma space_not_bar : is_space bar = false.
Proof. reflexivity. Qed.

Lemma digit_or_dot_not_bar : is_digit_or_dot bar = false.
Proof. reflexivity. Qed.

Lemma starts_in_sub (f g : ascii -> bool) s :
  (forall a, f a = true -> g a = true) ->
  starts_in f s = true -> starts_in g s = true.
Proof. destruct s; simpl; auto. Qed.

(** White space and a bar cannot begin on a digit or a point. *)
Lemma ws_bar_fails r k pv s c :
  starts_in is_digit_or_dot s = true ->
  run (Star (Chr is_space) >> lit "|" >> r) k (Cursor pv s) c = None.
Proof.
  intros H. rewrite run_cat, run_star_chr.
  destruct s as [|a s]; [discriminate|]. cbn [starts_in] in H.
  cbn [greedy_chr]. rewrite (digit_or_dot_not_space a H).
  rewrite run_cat. eapply bar_fails_on; [exact digit_or_dot_not_bar|].
  exact H.
Qed.

Lemma group_fails_on_space f n k pv s c :
  (forall a, is_space a = true -> f a = false) ->
  starts_in is_space s = true ->
  run (Group n (Plus (Chr f))) k (Cursor pv s) c = None.
Proof.
  intros Hf H. rewrite run_group. unfold Plus. rewrite run_cat.
  destruct s as [|a s]; [discriminate|]. cbn [starts_in] in H.
  change (run (Chr f) ?k' (Cursor pv (a :: s)) c)
    with (if f a then k' (step a s) c else None).
  now rewrite (Hf a H).
Qed.

Section Scan.

Variable f2 : ascii -> bool.
Hypothesis f2_sub : forall a, f2 a = true -> is_digit_or_dot a = true.

(** What the pattern matches at a position is what the reader finds
    there. *)
Lemma match_at_triplet pv s :
  option_map (fun o => (triple (fst o), rest (snd o)))
             (match_at (triplet_re f2) pv s)
  = option_map (fun x => (fst x, snd x)) (triplet_at f2 s).
Proof.
  unfold match_at, triplet_re, triplet_at, field, sep.
  rewrite run_cat, run_group_plus_exact.
  2:{ intros. apply ws_bar_fails.
      eapply starts_in_sub; [apply digit_is_digit_or_dot|eassumption]. }
  destruct (is_nil (take_while is_digit s)); [reflexivity|].
  rewrite run_cat, run_star_exact.
  2:{ intros. rewrite run_cat.
      eapply bar_fails_on; [exact space_not_bar|eassumption]. }
  rewrite run_cat, run_bar_cases.
  destruct (drop_while is_space (drop_while is_digit s)) as [|b1 s1];
    [reflexivity|].
  destruct (Ascii.eqb b1 bar); [|reflexivity].
  rewrite run_cat, run_star_exact.
  2:{ intros. rewrite run_cat. apply group_fails_on_space; [|assumption].
      apply space_not_f2, f2_sub. }
  rewrite run_cat, run_group_plus_exact.
  2:{ intros. apply ws_bar_fails.
      eapply starts_in_sub; [apply f2_sub|eassumption]. }
  destruct (is_nil (take_while f2 (drop_while is_space s1))); [reflexivity|].
  rewrite run_cat, run_star_exact.
  2:{ intros. rewrite run_cat.
      eapply bar_fails_on; [exact space_not_bar|eassumption]. }
  rewrite run_cat, run_bar_cases.
  destruct (drop_while is_space (drop_while f2 (drop_while is_space s1)))
    as [|b2 s3]; [reflexivity|].
  destruct (Ascii.eqb b2 bar); [|reflexivity].
  rewrite run_cat, run_star_exact.
  2:{ intros. apply group_fails_on_space; [|assumption].
      apply space_not_digit_or_dot. }
  match goal with
  | |- option_map _ (run _ final (Cursor ?q ?t) ?c) = _ =>
      pose proof (run_group_plus_final is_digit_or_dot 3 q t c) as F;
      destruct (run (Group 3 (Plus (Chr is_digit_or_dot))) final
                    (Cursor q t) c) as [[c' p']|]
  end;
    destruct (is_nil (take_while is_digit_or_dot (drop_while is_space s3)));
    cbn [option_map fst snd] in *; try discriminate; [|reflexivity].
  inversion F; subst. reflexivity.
Qed.

Lemma scan_occ s :
  forall skip pv, map triple (scan (triplet_re f2) skip pv s) = occ f2 skip s.
Proof.
  induction s as [|a s IH]; intros skip pv.
  - destruct skip; [|reflexivity]. cbn [scan occ].
    pose proof (match_at_triplet pv []) as M.
    destruct (match_at (triplet_re f2) pv []) as [[c p]|];
      destruct (triplet_at f2 []) as [[m r]|];
      cbn [option_map fst snd] in M; try discriminate; [|reflexivity].
    inversion M; subst. reflexivity.
  - destruct skip; [|cbn [scan occ]; apply IH]. cbn [scan occ].
    pose proof (match_at_triplet pv (a :: s)) as M.
    destruct (match_at (triplet_re f2) pv (a :: s)) as [[c p]|];
      destruct (triplet_at f2 (a :: s)) as [[m r]|];
      cbn [option_map fst snd] in M; try discriminate; [|apply IH].
    inversion M; subst. cbn [map]. f_equal. apply IH.
Qed.

(** [re.findall] with the row pattern returns the occurrences that the
    reader finds. *)
Lemma findall3_occurrences s :
  findall3 (triplet_re f2) s = occurrences f2 s.
Proof. apply scan_occ. Qed.

End Scan.

(** ** Texts that stand apart

    Every occurrence holds a run of digits and points, and a digit or a
    point, a bar, and a digit or a point, with white space between them at
    most.  An occurrence can therefore be made of the end of one text and
    the beginning of the next only if such a run, or such a stretch around a
    bar, lies across the place where they meet.  Where neither does, the
    occurrences of the two texts put together are those of the first
    followed by those of the second. *)

(** White space aside, [s] begins with a digit or a point. *)
Definition begins_num (s : text) : bool :=
  starts_in is_digit_or_dot (drop_while is_space s).

(** White space aside, [s] begins with a bar and then a digit or a point. *)
Definition begins_bar_num (s : text) : bool :=
  match drop_while is_space s with
  | b :: s' => Ascii.eqb b bar && begins_num s'
  | [] => false
  end.

(** White space aside, [u] ends in a digit or a point; and in a digit or a
    point and then a bar. *)
Definition ends_num_ws (u : text) : bool := begins_num (rev u).

Definition ends_num_bar (u : text) : bool := begins_bar_num (rev u).

(** [u] and [v] stand apart: [u] does not end in a digit or a point that a
    digit or a point at the head of [v] continues, and no stretch made of a
    digit or a point, a bar, and a digit or a point lies across the place
    where [u] ends and [v] begins. *)
Definition apart (u v : text) : bool :=
  negb (starts_in is_digit_or_dot (rev u) && starts_in is_digit_or_dot v)
  && negb (ends_num_ws u && begins_bar_num v)
  && negb (ends_num_bar u && begins_num v).

Lemma drop_while_nil f s : drop_while f s = [] -> forallb f s = true.
Proof.
  induction s as [|a s IH]; [reflexivity|]. cbn [drop_while forallb].
  destruct (f a); [exact IH|discriminate].
Qed.

Lemma drop_while_cons f s b t :
  drop_while f s = b :: t -> s = take_while f s ++ b :: t /\ f b = false.
Proof.
  intros H. pose proof (take_drop_while f s) as E. rewrite H in E.
  split; [now symmetry|].
  pose proof (starts_in_drop_while f s) as S. now rewrite H in S.
Qed.

Lemma take_while_inside f s v :
  drop_while f s <> [] -> take_while f (s ++ v) = take_while f s.
Proof.
  induction s as [|a s IH]; cbn [drop_while take_while app]; [congruence|].
  destruct (f a); [|reflexivity]. intros H. f_equal. auto.
Qed.

Lemma drop_while_inside f s v :
  drop_while f s <> [] -> drop_while f (s ++ v) = drop_while f s ++ v.
Proof.
  induction s as [|a s IH]; cbn [drop_while app]; [congruence|].
  destruct (f a); [|reflexivity]. auto.
Qed.

Lemma drop_while_all f s v :
  forallb f s = true -> drop_while f (s ++ v) = drop_while f v.
Proof.
  induction s as [|a s IH]; cbn [forallb drop_while app]; [reflexivity|].
  intros H. apply andb_true_iff in H as [-> H]. auto.
Qed.

(** The text ends in a digit or a point. *)
Definition ends_num (p : text) : Prop :=
  exists p' y, p = p' ++ [y] /\ is_digit_or_dot y = true.

Lemma ends_num_app f p x :
  (forall a, f a = true -> is_digit_or_dot a = true) ->
  is_nil x = false -> forallb f x = true -> ends_num (p ++ x).
Proof.
  intros Hf Hn Hx. destruct (exists_last (l := x)) as (x' & y & ->).
  { intros ->. discriminate. }
  exists (p ++ x'), y. split; [now rewrite app_assoc|].
  rewrite forallb_app in Hx. apply andb_true_iff in Hx as [_ Hy].
  cbn [forallb] in Hy. apply andb_true_iff in Hy as [Hy _]. auto.
Qed.

Lemma ends_num_ws_app p w :
  ends_num p -> forallb is_space w = true -> ends_num_ws (p ++ w) = true.
Proof.
  intros (p' & y & -> & Hy) Hw. unfold ends_num_ws, begins_num.
  rewrite !rev_app_distr. cbn [rev app].
  rewrite drop_while_app; [exact Hy | now rewrite forallb_rev |].
  cbn [starts_in]. now apply digit_or_dot_not_space.
Qed.

Lemma ends_num_bar_app p w1 w2 :
  ends_num p -> forallb is_space w1 = true -> forallb is_space w2 = true ->
  ends_num_bar (p ++ w1 ++ bar :: w2) = true.
Proof.
  intros Hp H1 H2. unfold ends_num_bar, begins_bar_num.
  rewrite app_assoc, rev_app_distr. cbn [rev]. rewrite <- app_assoc.
  rewrite drop_while_app; [| now rewrite forallb_rev | reflexivity].
  cbn [app]. rewrite Ascii.eqb_refl. cbn [andb].
  apply (ends_num_ws_app p w1 Hp H1).
Qed.

Section Apart.

Variable f2 : ascii -> bool.
Hypothesis f2_sub : forall a, f2 a = true -> is_digit_or_dot a = true.

Variables u v : text.
Hypothesis Hap : apart u v = true.

Lemma apart_run p : u = p -> ends_num p -> starts_in is_digit_or_dot v = false.
Proof.
  intros -> (p' & y & -> & Hy). unfold apart in Hap.
  apply andb_true_iff in Hap as [H _]. apply andb_true_iff in H as [H _].
  apply negb_true_iff in H.
  rewrite rev_app_distr in H. cbn [rev app starts_in] in H.
  now rewrite Hy in H.
Qed.

Lemma field_none f z :
  (forall a, f a = true -> is_digit_or_dot a = true) ->
  starts_in is_digit_or_dot z = false -> field f z = None.
Proof.
  intros Hf Hz. unfold field. rewrite take_while_nil.
  destruct (starts_in f z) eqn:E; [|reflexivity].
  apply (starts_in_sub f is_digit_or_dot z Hf) in E. congruence.
Qed.

(** No field follows a separator read at the head of [v], when [u] ends in
    a digit or a point and white space. *)
Lemma apart_num_bar p w :
  u = p ++ w -> ends_num p -> forallb is_space w = true ->
  sep v = None
  \/ exists z, sep v = Some z
               /\ forall f, (forall a, f a = true -> is_digit_or_dot a = true)
                            -> field f z = None.
Proof.
  intros -> Hp Hw. unfold apart in Hap.
  apply andb_true_iff in Hap as [H _]. apply andb_true_iff in H as [_ H].
  apply negb_true_iff in H. rewrite (ends_num_ws_app p w Hp Hw) in H.
  cbn [andb] in H. unfold begins_bar_num in H. unfold sep.
  destruct (drop_while is_space v) as [|b t]; [now left|].
  destruct (Ascii.eqb b bar); [|now left]. cbn [andb] in H. right.
  eexists. split; [reflexivity|]. intros f Hf. now apply field_none.
Qed.

(** No field begins at the head of [v], white space aside, when [u] ends in
    a digit or a point, a bar and white space. *)
Lemma apart_bar_num p w1 w2 f :
  (forall a, f a = true -> is_digit_or_dot a = true) ->
  u = p ++ w1 ++ bar :: w2 -> ends_num p ->
  forallb is_space w1 = true -> forallb is_space w2 = true ->
  field f (drop_while is_space v) = None.
Proof.
  intros Hf -> Hp H1 H2. unfold apart in Hap.
  apply andb_true_iff in Hap as [_ H]. apply negb_true_iff in H.
  rewrite (ends_num_bar_app p w1 w2 Hp H1 H2) in H. cbn [andb] in H.
  now apply field_none.
Qed.

(** A field read inside [u] is read in the same way when [v] follows. *)
Lemma field_app f p t :
  (forall a, f a = true -> is_digit_or_dot a = true) ->
  u = p ++ t -> is_nil t = false ->
  (field f t = None /\ field f (t ++ v) = None)
  \/ exists x t',
       field f t = Some (x, t') /\ field f (t ++ v) = Some (x, t' ++ v)
       /\ u = (p ++ x) ++ t' /\ ends_num (p ++ x).
Proof.
  intros Hf Hu Ht. unfold field. rewrite !take_while_nil.
  destruct t as [|a t]; [discriminate|]. cbn [app starts_in].
  destruct (f a) eqn:Ea; cbn [negb]; [right|now left].
  assert (Hx : is_nil (take_while f (a :: t)) = false).
  { rewrite take_while_nil. cbn [starts_in]. now rewrite Ea. }
  assert (He : ends_num (p ++ take_while f (a :: t))).
  { eapply ends_num_app; eauto using take_while_all. }
  exists (take_while f (a :: t)), (drop_while f (a :: t)).
  split; [reflexivity|].
  split; [|split; [now rewrite <- app_assoc, take_drop_while|exact He]].
  destruct (drop_while f (a :: t)) as [|b t'] eqn:D.
  - (* the field ends where [u] ends *)
    apply drop_while_nil in D.
    pose proof (take_while_app f (a :: t) [] D eq_refl) as Ha.
    rewrite app_nil_r in Ha.
    assert (Hv : starts_in f v = false).
    { destruct (starts_in f v) eqn:S; [|reflexivity].
      apply (starts_in_sub f is_digit_or_dot v Hf) in S.
      rewrite (apart_run (p ++ a :: t)) in S; [discriminate|exact Hu|].
      now rewrite <- Ha. }
    change (a :: t ++ v) with ((a :: t) ++ v).
    rewrite take_while_app, drop_while_app by assumption.
    now rewrite Ha.
  - change (a :: t ++ v) with ((a :: t) ++ v).
    rewrite take_while_inside, drop_while_inside by (rewrite D; discriminate).
    now rewrite D.
Qed.

(** What follows a separator is no field. *)
Definition dead_end (o : option text) : Prop :=
  o = None
  \/ exists z, o = Some z
               /\ forall f, (forall a, f a = true -> is_digit_or_dot a = true)
                            -> field f z = None.

(** A separator read inside [u], after a field: either it is read in the
    same way when [v] follows, or no field follows it, with [v] and
    without. *)
Lemma sep_app p t :
  u = p ++ t -> ends_num p ->
  (exists p' t', sep t = Some t' /\ sep (t ++ v) = Some (t' ++ v)
                 /\ u = p' ++ t' /\ is_nil t' = false)
  \/ (dead_end (sep t) /\ dead_end (sep (t ++ v))).
Proof.
  intros Hu Hp.
  assert (Hnil : forall f, (forall a, f a = true -> is_digit_or_dot a = true)
                           -> field f [] = None) by reflexivity.
  destruct (drop_while is_space t) as [|b t1] eqn:D.
  - right. apply drop_while_nil in D. split.
    + left. unfold sep. now rewrite (drop_while_id _ _ D).
    + assert (E : sep (t ++ v) = sep v).
      { unfold sep. now rewrite drop_while_all. }
      rewrite E. apply (apart_num_bar p t Hu Hp D).
  - assert (Dv : drop_while is_space (t ++ v) = b :: t1 ++ v).
    { rewrite drop_while_inside by (rewrite D; discriminate).
      now rewrite D. }
    assert (St : sep t = if Ascii.eqb b bar
                         then Some (drop_while is_space t1) else None)
      by (unfold sep; now rewrite D).
    assert (Sv : sep (t ++ v)
                 = if Ascii.eqb b bar
                   then Some (drop_while is_space (t1 ++ v)) else None)
      by (unfold sep; now rewrite Dv).
    rewrite St, Sv. clear St Sv.
    destruct (Ascii.eqb b bar) eqn:Eb; [|right; split; now left].
    apply Ascii.eqb_eq in Eb. subst b.
    apply drop_while_cons in D as [Et _].
    destruct (drop_while is_space t1) as [|c t2] eqn:D1.
    + right. apply drop_while_nil in D1. split.
      * right. exists []. auto.
      * right. eexists. split; [reflexivity|]. intros f Hf.
        rewrite drop_while_all by exact D1.
        apply (apart_bar_num p (take_while is_space t) t1 f Hf);
          auto using take_while_all.
        rewrite <- Et. exact Hu.
    + left.
      exists (p ++ take_while is_space t ++ bar :: take_while is_space t1),
        (c :: t2).
      split; [reflexivity|].
      split; [|split; [|reflexivity]].
      * rewrite drop_while_inside by (rewrite D1; discriminate).
        now rewrite D1.
      * apply drop_while_cons in D1 as [Et1 _].
        rewrite <- !app_assoc. cbn [app]. rewrite <- Et1, <- Et. exact Hu.
Qed.

(** After a dead end the reading of a triplet stops. *)
Lemma dead_end_stops {A} f (o : option text) (k : text * text -> option A) :
  (forall a, f a = true -> is_digit_or_dot a = true) ->
  dead_end o ->
  match o with
  | Some z => match field f z with Some x => k x | None => None end
  | None => None
  end = None.
Proof.
  intros Hf [-> | (z & -> & Hz)]; [reflexivity|]. now rewrite (Hz f Hf).
Qed.

Lemma triplet_app p s :
  u = p ++ s -> is_nil s = false ->
  triplet_at f2 (s ++ v)
  = option_map (fun x => (fst x, snd x ++ v)) (triplet_at f2 s).
Proof.
  intros Hu Hs. unfold triplet_at.
  destruct (field_app is_digit p s digit_is_digit_or_dot Hu Hs)
    as [[-> ->]|(th & s1 & -> & -> & Hu1 & He1)]; [reflexivity|].
  destruct (sep_app _ _ Hu1 He1)
    as [(p2 & s2 & -> & -> & Hu2 & Hs2)|[D1 D2]].
  2:{ rewrite (dead_end_stops f2 (sep s1)),
        (dead_end_stops f2 (sep (s1 ++ v))) by assumption.
      reflexivity. }
  destruct (field_app f2 p2 s2 f2_sub Hu2 Hs2)
    as [[-> ->]|(ch & s3 & -> & -> & Hu3 & He3)]; [reflexivity|].
  destruct (sep_app _ _ Hu3 He3)
    as [(p4 & s4 & -> & -> & Hu4 & Hs4)|[D1 D2]].
  2:{ rewrite (dead_end_stops is_digit_or_dot (sep s3)),
        (dead_end_stops is_digit_or_dot (sep (s3 ++ v))) by auto.
      reflexivity. }
  destruct (field_app is_digit_or_dot p4 s4 (fun a H => H) Hu4 Hs4)
    as [[-> ->]|(thr & r & -> & -> & _ & _)]; reflexivity.
Qed.

Lemma occ_app s :
  forall p skip,
    u = p ++ s -> (skip <= length s)%nat ->
    occ f2 skip (s ++ v) = occ f2 skip s ++ occurrences f2 v.
Proof.
  induction s as [|a s IH]; intros p skip Hu Hk.
  - destruct skip; [reflexivity|]. cbn [length] in Hk. lia.
  - assert (Hu' : u = (p ++ [a]) ++ s) by (now rewrite <- app_assoc).
    destruct skip as [|n].
    + cbn [occ app]. change (a :: s ++ v) with ((a :: s) ++ v).
      rewrite (triplet_app p (a :: s) Hu eq_refl).
      destruct (triplet_at f2 (a :: s)) as [[m r]|];
        cbn [option_map fst snd app].
      * f_equal.
        replace (length (a :: s ++ v) - length (r ++ v) - 1)%nat
          with (length (a :: s) - length r - 1)%nat
          by (cbn [length]; rewrite !length_app; lia).
        apply (IH (p ++ [a])); [exact Hu'|]. cbn [length]. lia.
      * apply (IH (p ++ [a])); [exact Hu'|]. lia.
    + cbn [occ app]. apply (IH (p ++ [a])); [exact Hu'|].
      cbn [length] in Hk. lia.
Qed.

End Apart.

(** The occurrences in two texts that stand apart. *)
Lemma occurrences_app f2 u v :
  (forall a, f2 a = true -> is_digit_or_dot a = true) ->
  apart u v = true ->
  occurrences f2 (u ++ v) = occurrences f2 u ++ occurrences f2 v.
Proof.
  intros Hf H. apply (occ_app f2 Hf u v H u [] 0%nat); [reflexivity|].
  apply Nat.le_0_l.
Qed.

Lemma for_each_app {A B} (f : A -> result B) l1 l2 :
  for_each f (l1 ++ l2)
  = (r1 <- for_each f l1 ;; r2 <- for_each f l2 ;; Ok (r1 ++ r2)).
Proof.
  induction l1 as [|a l1 IH]; cbn [app for_each bind].
  - destruct (for_each f l2); reflexivity.
  - destruct (f a) as [b|e]; [|reflexivity]. cbn [bind]. rewrite IH.
    destruct (for_each f l1) as [r1|]; [|reflexivity]. cbn [bind].
    destruct (for_each f l2); reflexivity.
Qed.

Lemma id_sub (a : ascii) : is_digit_or_dot a = true -> is_digit_or_dot a = true.
Proof. auto. Qed.

(** The rows of a body are made of the occurrences of the pattern in it. *)
Lemma rows_of_body_occurrences body :
  Charts.rows_of_body body
  = for_each Charts.make_row (occurrences is_digit_or_dot body).
Proof.
  unfold Charts.rows_of_body.
  now rewrite pat_triplet, (findall3_occurrences _ id_sub).
Qed.

Lemma extract_data_occurrences body :
  TestParser.extract_data body
  = for_each TestParser.make_row (occurrences is_digit body).
Proof.
  rewrite extract_data_all.
  now rewrite pattern_triplet, (findall3_occurrences _ digit_is_digit_or_dot).
Qed.

(** ** Row counts, for every text *)

(** One row for each occurrence: the parser raises [ValueError] when [bad]
    holds of an occurrence, and otherwise returns two tables with as many
    rows as their sections hold occurrences. *)
Definition one_row_each {M R} (res : result (list R * list R))
    (bad : M -> bool) (m1 m2 : list M) : Prop :=
  if existsb bad (m1 ++ m2) then res = Raise ValueError
  else exists enc dec,
         res = Ok (enc, dec)
         /\ length enc = length m1 /\ length dec = length m2
         /\ (m1 <> [] -> enc <> []) /\ (m2 <> [] -> dec <> []).

Lemma map_nonempty {A B} (g : A -> B) l : l <> [] -> map g l <> [].
Proof. destruct l; [congruence|discriminate]. Qed.

Lemma one_row_each_rows {M R} (res : result (list R * list R))
    (bad : M -> bool) (row : M -> R) m1 m2 :
  res = (if existsb bad (m1 ++ m2) then Raise ValueError
         else Ok (map row m1, map row m2)) ->
  one_row_each res bad m1 m2.
Proof.
  intros ->. unfold one_row_each. destruct (existsb bad (m1 ++ m2));
    [reflexivity|].
  eexists _, _. split; [reflexivity|]. rewrite !length_map.
  auto using map_nonempty.
Qed.

(** C1, amended: for every input text, each parser returns one row for each
    occurrence of its row pattern in the body of a section, occurrences
    being what [re.findall] returns: found from left to right without
    overlap, whether on one line or not.  So the two tables hold together as
    many rows as the two sections hold occurrences, and a section with an
    occurrence gives a table that is not empty.  The parser returns unless
    a captured field is not a number ([parse_mylib_results]: chunk size or
    throughput; [parse_test_results]: throughput), and then it raises
    [ValueError]. *)
Theorem C1_row_count (txt : text) :
  one_row_each (Charts.parse_mylib_results txt) bad_float
    (mylib_matches (Charts.enc_sec txt)) (mylib_matches (Charts.dec_sec txt))
  /\ one_row_each (TestParser.parse_test_results txt) bad_throughput
       (test_matches (TestParser.encrypt_section txt))
       (test_matches (TestParser.decrypt_section txt)).
Proof.
  split.
  - apply (one_row_each_rows _ _ mylib_row).
    unfold Charts.parse_mylib_results. rewrite existsb_app.
    apply both_cases; apply extract_cases.
  - apply (one_row_each_rows _ _ test_row).
    unfold TestParser.parse_test_results. rewrite existsb_app.
    apply both_cases; apply extract_data_cases.
Qed.

(** ** Malformed lines, in any body *)

Lemma apart_newline u : apart u nl = true.
Proof.
  assert (N1 : starts_in is_digit_or_dot nl = false) by reflexivity.
  assert (N2 : begins_bar_num nl = false) by reflexivity.
  assert (N3 : begins_num nl = false) by reflexivity.
  unfold apart. rewrite N1, N2, N3, !andb_false_r. reflexivity.
Qed.

Lemma occurrences_newline f2 : occurrences f2 nl = [].
Proof. reflexivity. Qed.

Lemma occurrences_line_end f2 u :
  (forall a, f2 a = true -> is_digit_or_dot a = true) ->
  occurrences f2 (u ++ nl) = occurrences f2 u.
Proof.
  intros Hf. rewrite (occurrences_app f2 u nl Hf (apart_newline u)).
  rewrite occurrences_newline. apply app_nil_r.
Qed.

(** The occurrences of a body with a line that holds none. *)
Lemma occurrences_skip f2 before bad after :
  (forall a, f2 a = true -> is_digit_or_dot a = true) ->
  apart before (bad ++ newline :: after) = true ->
  apart (bad ++ nl) after = true ->
  occurrences f2 bad = [] ->
  occurrences f2 (before ++ bad ++ newline :: after)
  = occurrences f2 before ++ occurrences f2 after.
Proof.
  intros Hf A1 A2 Hb. rewrite (occurrences_app f2 _ _ Hf A1). f_equal.
  change (bad ++ newline :: after) with (bad ++ nl ++ after).
  rewrite app_assoc, (occurrences_app f2 _ _ Hf A2).
  now rewrite (occurrences_line_end f2 bad Hf), Hb.
Qed.

(** C3, amended: a line of a section body that holds no occurrence of the
    row pattern is skipped, provided it stands apart from the text before
    it and from the text after it: the outcome is that of the rows before
    the line followed by the rows after it, in this order, so the line adds
    no row, takes none away and raises nothing.  To stand apart means that
    the line cannot make an occurrence together with its neighbours: where
    the two texts meet, no digit or point follows on a digit or point, and
    no digit or point, bar, and digit or point, with white space between
    them at most, lie across the meeting place. *)
Theorem C3_malformed_line (before bad after : text) :
  apart before (bad ++ newline :: after) = true ->
  apart (bad ++ nl) after = true ->
  (findall3 Charts.pat bad = [] ->
   Charts.rows_of_body (before ++ bad ++ newline :: after)
   = (rb <- Charts.rows_of_body before ;;
      ra <- Charts.rows_of_body after ;; Ok (rb ++ ra)))
  /\ (findall3 TestParser.pattern bad = [] ->
      TestParser.extract_data (before ++ bad ++ newline :: after)
      = (rb <- TestParser.extract_data before ;;
         ra <- TestParser.extract_data after ;; Ok (rb ++ ra))).
Proof.
  intros A1 A2. split; intros Hb.
  - rewrite pat_triplet, (findall3_occurrences _ id_sub) in Hb.
    rewrite !rows_of_body_occurrences.
    rewrite (occurrences_skip _ _ _ _ id_sub A1 A2 Hb).
    apply for_each_app.
  - rewrite pattern_triplet,
      (findall3_occurrences _ digit_is_digit_or_dot) in Hb.
    rewrite !extract_data_occurrences.
    rewrite (occurrences_skip _ _ _ _ digit_is_digit_or_dot A1 A2 Hb).
    apply for_each_app.
Qed.

Definition rows_before : text := unlines ["run 2 of 3"; "1 | 4 | 120.5"].
Definition rows_after : text := unlines ["2 | 4 | 230.1"].

(** The two malformed lines of the specification: a line without bars and a
    line with a field that is not a number. *)
Definition line_no_bars : text := T "1 4 120.5".
Definition line_no_number : text := T "2 | abc | 3".

Lemma C3_malformed_line_witness :
  (Charts.rows_of_body (rows_before ++ line_no_bars ++ newline :: rows_after)
   = (rb <- Charts.rows_of_body rows_before ;;
      ra <- Charts.rows_of_body rows_after ;; Ok (rb ++ ra))
   /\ TestParser.extract_data
        (rows_before ++ line_no_bars ++ newline :: rows_after)
      = (rb <- TestParser.extract_data rows_before ;;
         ra <- TestParser.extract_data rows_after ;; Ok (rb ++ ra)))
  /\ (Charts.rows_of_body
        (rows_before ++ line_no_number ++ newline :: rows_after)
      = (rb <- Charts.rows_of_body rows_before ;;
         ra <- Charts.rows_of_body rows_after ;; Ok (rb ++ ra))
      /\ TestParser.extract_data
           (rows_before ++ line_no_number ++ newline :: rows_after)
         = (rb <- TestParser.extract_data rows_before ;;
            ra <- TestParser.extract_data rows_after ;; Ok (rb ++ ra))).
Proof.
  split.
  - destruct (C3_malformed_line rows_before line_no_bars rows_after
                eq_refl eq_refl) as [H1 H2].
    split; [apply H1|apply H2]; vm_compute; reflexivity.
  - destruct (C3_malformed_line rows_before line_no_number rows_after
                eq_refl eq_refl) as [H1 H2].
    split; [apply H1|apply H2]; vm_compute; reflexivity.
Defined.

(** ** Numeric fields, in any text *)

(** A data line that nothing continues is an occurrence, and the reading
    resumes after it. *)
Lemma occurrences_line f2 d s :
  (forall a, f2 a = true -> is_digit_or_dot a = true) ->
  line_ok f2 d = true -> starts_in is_digit_or_dot s = false ->
  occurrences f2 (line_text d s) = fields d :: occurrences f2 s.
Proof.
  intros Hf Hd Hs. rewrite <- !(findall3_occurrences f2 Hf).
  unfold findall3, finditer.
  destruct (match_at_line f2 Hf d s None Hd Hs) as [pv' Hm].
  destruct (line_text_cons f2 d s Hd) as (a & u & Hu).
  rewrite Hu in *. unfold scan at 1; fold scan. rewrite Hm.
  cbn [rest length map group Nat.eqb]. unfold fields. f_equal.
  rewrite length_app.
  replace (S (length u + length s) - length s - 1)%nat with (length u)
    by lia.
  rewrite scan_skip.
  change (map (fun c => (group 1 c, group 2 c, group 3 c))) with (map triple).
  now rewrite !(scan_occ f2 Hf).
Qed.

(** The occurrences of a body with a data line that stands apart from the
    text before it and that the text after it does not continue. *)
Lemma occurrences_data_line f2 before d after :
  (forall a, f2 a = true -> is_digit_or_dot a = true) ->
  apart before (line_text d after) = true ->
  starts_in is_digit_or_dot after = false ->
  line_ok f2 d = true ->
  occurrences f2 (before ++ line_text d after)
  = occurrences f2 before ++ fields d :: occurrences f2 after.
Proof.
  intros Hf A1 A2 Hd. rewrite (occurrences_app f2 _ _ Hf A1).
  now rewrite (occurrences_line f2 d after Hf Hd A2).
Qed.

(** The rows of the tables hold the numbers of the occurrences: the parser
    raises [ValueError] when [bad] holds of an occurrence, and otherwise
    returns two tables whose rows are those that [denotes] relates to the
    occurrences of their sections, one by one. *)
Definition rows_denote {M R} (res : result (list R * list R))
    (bad : M -> bool) (denotes : M -> R -> Prop) (m1 m2 : list M) : Prop :=
  if existsb bad (m1 ++ m2) then res = Raise ValueError
  else exists enc dec,
         res = Ok (enc, dec)
         /\ Forall2 denotes m1 enc /\ Forall2 denotes m2 dec.

Lemma Forall2_map_row {M R} (denotes : M -> R -> Prop) (row : M -> R) l :
  (forall m, In m l -> denotes m (row m)) -> Forall2 denotes l (map row l).
Proof.
  induction l as [|m l IH]; intros H; constructor.
  - apply H. now left.
  - apply IH. intros. apply H. now right.
Qed.

Lemma rows_denote_rows {M R} (res : result (list R * list R))
    (bad : M -> bool) (denotes : M -> R -> Prop) (row : M -> R) m1 m2 :
  res = (if existsb bad (m1 ++ m2) then Raise ValueError
         else Ok (map row m1, map row m2)) ->
  (forall m, In m (m1 ++ m2) -> denotes m (row m)) ->
  rows_denote res bad denotes m1 m2.
Proof.
  intros -> H. unfold rows_denote. destruct (existsb bad (m1 ++ m2));
    [reflexivity|].
  eexists _, _. split; [reflexivity|].
  split; apply Forall2_map_row; intros; apply H; apply in_or_app; auto.
Qed.

Lemma test_row_digits m :
  all_digits (snd (fst m)) = true -> test_denotes m (test_row m).
Proof.
  destruct m as [[th ch] thr]. cbn [fst snd]. intros H.
  unfold test_denotes, test_row.
  cbn [TestParser.Threads TestParser.ChunkMB TestParser.Throughput].
  split; [reflexivity|]. split; [|apply float_value_spec].
  symmetry. now apply digits_number_value.
Qed.

Lemma test_matches_digits sec m :
  In m (test_matches sec) -> all_digits (snd (fst m)) = true.
Proof.
  unfold test_matches. destruct m as [[th ch] thr].
  rewrite pattern_triplet. intros H.
  now apply findall3_fields in H as (_ & [_ H] & _).
Qed.

(** C4, amended.  For every input text, [parse_mylib_results] returns for
    every occurrence of its row pattern a row that holds the thread count,
    the chunk size and the throughput written in the occurrence, whether the
    two numbers are written as integers or with a decimal point, unless a
    captured chunk size or throughput is not a number, when it raises
    [ValueError].  [parse_test_results] does so for the occurrences of its
    own pattern, whose chunk size is a string of digits: a chunk size written
    with a decimal point is not read.  A data line of a section body is such
    an occurrence, and its row stands between the rows of the text before it
    and those of the text after it, when the line stands apart from the text
    before it (that text does not end in a digit or a point, nor, white
    space aside, in a digit or a point followed by a bar) and the text after
    it does not begin with a digit or a point. *)
Theorem C4_numeric_fields (txt before after : text) (d : line) :
  rows_denote (Charts.parse_mylib_results txt) bad_float mylib_denotes
    (mylib_matches (Charts.enc_sec txt)) (mylib_matches (Charts.dec_sec txt))
  /\ rows_denote (TestParser.parse_test_results txt) bad_throughput
       test_denotes
       (test_matches (TestParser.encrypt_section txt))
       (test_matches (TestParser.decrypt_section txt))
  /\ (apart before (line_text d after) = true ->
      starts_in is_digit_or_dot after = false ->
      is_number (l_throughput d) = true ->
      (line_ok is_digit_or_dot d = true -> is_number (l_chunk d) = true ->
       exists r,
         mylib_denotes (fields d) r
         /\ Charts.rows_of_body (before ++ line_text d after)
            = (rb <- Charts.rows_of_body before ;;
               ra <- Charts.rows_of_body after ;; Ok (rb ++ r :: ra)))
      /\ (line_ok is_digit d = true ->
          exists r,
            test_denotes (fields d) r
            /\ TestParser.extract_data (before ++ line_text d after)
               = (rb <- TestParser.extract_data before ;;
                  ra <- TestParser.extract_data after ;;
                  Ok (rb ++ r :: ra)))).
Proof.
  split; [|split].
  - apply (rows_denote_rows _ _ _ mylib_row).
    + unfold Charts.parse_mylib_results. rewrite existsb_app.
      apply both_cases; apply extract_cases.
    + intros m _. apply mylib_row_denotes.
  - apply (rows_denote_rows _ _ _ test_row).
    + unfold TestParser.parse_test_results. rewrite existsb_app.
      apply both_cases; apply extract_data_cases.
    + intros m Hm. apply test_row_digits.
      apply in_app_or in Hm as [Hm|Hm]; eapply test_matches_digits; eauto.
  - intros A1 A2 Ht. split.
    + intros Hd Hc. exists (mylib_row (fields d)).
      split; [apply mylib_row_denotes|].
      rewrite !rows_of_body_occurrences.
      rewrite (occurrences_data_line _ _ _ _ id_sub A1 A2 Hd).
      rewrite for_each_app. cbn [for_each].
      destruct (line_ok_threads _ _ Hd) as (H1 & H2 & _).
      unfold fields at 1. unfold Charts.make_row at 2.
      rewrite py_int_digits, !py_float_number by assumption. cbn [bind].
      destruct (for_each Charts.make_row
                  (occurrences is_digit_or_dot before)); [|reflexivity].
      cbn [bind].
      destruct (for_each Charts.make_row
                  (occurrences is_digit_or_dot after)); reflexivity.
    + intros Hd. exists (test_row (fields d)).
      destruct (line_ok_threads _ _ Hd) as (H1 & H2 & H3 & H4).
      split; [now apply test_row_digits|].
      rewrite !extract_data_occurrences.
      rewrite (occurrences_data_line _ _ _ _ digit_is_digit_or_dot A1 A2 Hd).
      rewrite for_each_app. cbn [for_each].
      unfold fields at 1. unfold TestParser.make_row at 2.
      rewrite !py_int_digits, py_float_number by assumption. cbn [bind].
      destruct (for_each TestParser.make_row (occurrences is_digit before));
        [|reflexivity].
      cbn [bind].
      destruct (for_each TestParser.make_row (occurrences is_digit after));
        reflexivity.
Qed.

Definition line_decimal : line :=
  Line (T "2") (T " ") (T " ") (T "0.5") (T " ") (T " ") (T "100.0").

Definition line_integer : line :=
  Line (T "2") (T " ") (T " ") (T "4") (T " ") (T " ") (T "230.1").

(** A line with a bar after the data line, which the pattern does not
    read. *)
Definition rows_below : text := unlines [""; "| next | 7"].

Lemma C4_numeric_fields_witness :
  (exists r,
     mylib_denotes (fields line_decimal) r
     /\ Charts.rows_of_body (rows_before ++ line_text line_decimal rows_below)
        = (rb <- Charts.rows_of_body rows_before ;;
           ra <- Charts.rows_of_body rows_below ;; Ok (rb ++ r :: ra)))
  /\ (exists r,
        test_denotes (fields line_integer) r
        /\ TestParser.extract_data
             (rows_before ++ line_text line_integer rows_below)
           = (rb <- TestParser.extract_data rows_before ;;
              ra <- TestParser.extract_data rows_below ;;
              Ok (rb ++ r :: ra))).
Proof.
  split.
  - apply (proj2 (proj2 (C4_numeric_fields [] rows_before rows_below
                           line_decimal)));
      reflexivity.
  - apply (proj2 (proj2 (C4_numeric_fields [] rows_before rows_below
                           line_integer)));
      reflexivity.
Defined.

(** ** The two implementations, on every text *)

(** The two patterns differ in the class of the chunk size.  Where the
    pattern of charts.py reads a chunk size without a point, the pattern of
    test_parser.py reads the same triplet; where it reads one with a point,
    or nothing, the pattern of test_parser.py reads nothing. *)

























(** ** The OpenSSL table, whatever its values *)

Lemma zip_rows_map sizes (ks : list text) :
  zip_rows sizes (map (fun k => Qred (float_value k / inject_Z 1000)) ks)
  = map (fun sk => OsslRow (fst sk)
                     (Qred (float_value (snd sk) / inject_Z 1000)) label)
        (combine sizes ks).
Proof.
  unfold zip_rows. revert ks.
  induction sizes as [|s sizes IH]; intros [|k ks]; try reflexivity.
  cbn [map combine fst snd]. f_equal. apply IH.
Qed.

(** C7, amended: when the header line and the AES-128-GCM row are recognised,
    the sizes of the header (the numbers before "bytes") and the values of
    the row (the numbers before "k") are paired by position up to the length
    of the shorter list, each value is divided by 1000, and every row is
    labelled "OpenSSL AES-128-GCM"; the table holds these rows in ascending
    order of size, which is the order of the header when its sizes increase.
    The parser raises, and then [ValueError], exactly when one of the values
    is not a number. *)
Theorem C7_zip_by_position (txt : text) (hm rm : caps) :
  search header_re txt = Some hm -> search row_re txt = Some rm ->
  let sizes := map int_value (findall1 bytes_re (group 1 hm)) in
  let ks := findall1 kval_re (group 1 rm) in
  let zipped :=
    map (fun sk => OsslRow (fst sk)
                     (Qred (float_value (snd sk) / inject_Z 1000)) label)
        (combine sizes ks) in
  if forallb is_number ks
  then exists rows,
         parse_openssl_results txt = Ok rows
         /\ length rows = Nat.min (length sizes) (length ks)
         /\ Permutation rows zipped
         /\ Sorted block_le rows
         /\ (Sorted Z.lt sizes -> rows = zipped)
  else parse_openssl_results txt = Raise ValueError.
Proof.
  intros Hh Hr sizes ks zipped.
  assert (Hs : for_each py_int (findall1 bytes_re (group 1 hm)) = Ok sizes).
  { apply for_each_map. intros g Hg.
    apply findall1_bytes_digits in Hg as [N D]. now apply py_int_digits. }
  pose proof (for_each_py_float ks) as Hk. fold ks.
  destruct (forallb is_number ks).
  - exists (sort_by_block zipped).
    split.
    { rewrite (parse_openssl_structured txt hm rm _ _ Hh Hr Hs Hk).
      now rewrite map_map, zip_rows_map. }
    split; [|split; [apply sort_by_block_perm|split]].
    + rewrite (Permutation_length (sort_by_block_perm zipped)).
      unfold zipped. now rewrite length_map, length_combine.
    + apply sort_by_block_sorted.
    + intros Hsorted. apply sort_by_block_id. unfold zipped.
      rewrite <- zip_rows_map. now apply zip_rows_sorted.
  - unfold parse_openssl_results. rewrite Hh, Hr, Hs. cbn [bind].
    fold ks. now rewrite Hk.
Qed.

Lemma C7_zip_by_position_witness :
  exists rows,
    parse_openssl_results openssl_trailing_space = Ok rows
    /\ length rows = 2%nat
    /\ Permutation rows
         [OsslRow 16 (5193629 # 50000) label; OsslRow 64 205 label]
    /\ Sorted block_le rows
    /\ (Sorted Z.lt [16; 64] ->
        rows = [OsslRow 16 (5193629 # 50000) label; OsslRow 64 205 label]).
Proof.
  exact (C7_zip_by_position openssl_trailing_space
           [(1%nat, T "16 bytes 64 bytes ")]
           [(1%nat, T "103872.58k 205000.00k")]
           eq_refl eq_refl).
Defined.

(** * The texts cut in two: rows and occurrences *)

(** X20: [re.findall] with either row pattern returns, for every text, the
    occurrences that a reader without choices finds: at each position the
    longest run of digits, white space, a bar, white space, the longest run
    of the class of the chunk size, white space, a bar, white space and the
    longest run of digits and points; after an occurrence the reading
    resumes where it ended. *)
Theorem row_patterns_scan (s : text) :
  findall3 Charts.pat s = occurrences is_digit_or_dot s
  /\ findall3 TestParser.pattern s = occurrences is_digit s.
Proof.
  split.
  - rewrite pat_triplet. apply findall3_occurrences. auto.
  - rewrite pattern_triplet. apply findall3_occurrences.
    apply digit_is_digit_or_dot.
Qed.

(** X21: the rows of two texts that stand apart are the rows of the first
    followed by the rows of the second, for both loops: a body can be cut
    wherever no run of digits and points goes on across the cut and no
    digit or point, bar, and digit or point, with white space between them
    at most, lie across it. *)
Theorem rows_of_texts_apart (u v : text) :
  apart u v = true ->
  Charts.rows_of_body (u ++ v)
  = (ru <- Charts.rows_of_body u ;; rv <- Charts.rows_of_body v ;;
     Ok (ru ++ rv))
  /\ TestParser.extract_data (u ++ v)
     = (ru <- TestParser.extract_data u ;; rv <- TestParser.extract_data v ;;
        Ok (ru ++ rv)).
Proof.
  intros H. split.
  - rewrite !rows_of_body_occurrences.
    rewrite (occurrences_app _ _ _ id_sub H). apply for_each_app.
  - rewrite !extract_data_occurrences.
    rewrite (occurrences_app _ _ _ digit_is_digit_or_dot H).
    apply for_each_app.
Qed.

Lemma rows_of_texts_apart_witness :
  Charts.rows_of_body (rows_before ++ rows_after)
  = (ru <- Charts.rows_of_body rows_before ;;
     rv <- Charts.rows_of_body rows_after ;; Ok (ru ++ rv))
  /\ TestParser.extract_data (rows_before ++ rows_after)
     = (ru <- TestParser.extract_data rows_before ;;
        rv <- TestParser.extract_data rows_after ;; Ok (ru ++ rv)).
Proof. apply (rows_of_texts_apart rows_before rows_after). reflexivity. Defined.

(** * The header line of the OpenSSL table

    The header pattern asks for white space after the last "bytes" and then
    for the end of a line.  A header line that ends right after "bytes", as
    in the table of the docstring, is therefore recognised only when an
    empty line or the end of the text follows it. *)

Lemma run_bol_sound k p c o : run BolM k p c = Some o -> k p c = Some o.
Proof.
  cbn [run]. destruct (prev p) as [a|]; [|auto].
  destruct (Ascii.eqb a newline); [auto|discriminate].
Qed.

(** The position is the end of a line. *)
Definition at_line_end (s : text) : bool :=
  match s with
  | [] => true
  | a :: _ => Ascii.eqb a newline
  end.

Lemma run_eol_sound k p c o :
  run EolM k p c = Some o -> at_line_end (rest p) = true /\ k p c = Some o.
Proof.
  cbn [run]. unfold at_line_end. destruct (rest p) as [|a s]; [auto|].
  destruct (Ascii.eqb a newline); [auto|discriminate].
Qed.

(** One size of the header: digits, white space, "bytes", white space. *)
Definition size_re : regex :=
  Plus (Chr is_digit) >> Plus (Chr is_space) >> lit "bytes"
  >> Plus (Chr is_space).

(** [v] follows, in [s0], the word "bytes" and white space. *)
Definition after_bytes (s0 v : text) : Prop :=
  exists u w, s0 = u ++ T "bytes" ++ w ++ v /\ field_of is_space w.

Lemma size_sound s0 u0 k pv s c o :
  s0 = u0 ++ s ->
  run size_re k (Cursor pv s) c = Some o ->
  exists pv' v, after_bytes s0 v /\ k (Cursor pv' v) c = Some o.
Proof.
  intros Hs H. unfold size_re in H. rewrite run_cat in H.
  apply run_plus_sound in H as (g & s1 & pv1 & -> & _ & _ & H).
  rewrite run_cat in H.
  apply run_plus_sound in H as (w1 & s2 & pv2 & -> & _ & _ & H).
  rewrite run_cat in H. unfold lit at 1 in H.
  apply run_lit_sound in H as (s3 & -> & H).
  apply run_plus_sound in H as (w & v & pv' & -> & N & F & H).
  exists pv', v. split; [|exact H].
  exists (u0 ++ g ++ w1), w. split; [|split; assumption].
  subst s0. now rewrite <- !app_assoc.
Qed.

Lemma after_bytes_suffix s0 v : after_bytes s0 v -> exists u0, s0 = u0 ++ v.
Proof.
  intros (u & w & -> & _). exists (u ++ T "bytes" ++ w).
  now rewrite <- !app_assoc.
Qed.

Lemma sizes_loop_sound s0 k n :
  forall pv v c o,
    after_bytes s0 v ->
    greedy_loop (run size_re) k n (Cursor pv v) c = Some o ->
    exists pv' v' c', after_bytes s0 v' /\ k (Cursor pv' v') c' = Some o.
Proof.
  induction n as [|n IH]; intros pv v c o Hv H; cbn [greedy_loop] in H.
  - eauto.
  - match type of H with
    | orelse ?x _ = _ => destruct x as [o'|] eqn:E
    end; cbn [orelse] in H; [|eauto].
    assert (o' = o) by congruence. subst o'.
    destruct (after_bytes_suffix _ _ Hv) as [u0 Hu].
    apply (size_sound s0 u0 _ _ _ _ _ Hu) in E as (pv1 & v1 & Hv1 & E).
    destruct (shorter (Cursor pv1 v1) (Cursor pv v)); [|discriminate].
    eauto.
Qed.

Lemma run_star r k p c :
  run (Star r) k p c = greedy_loop (run r) k (length (rest p)) p c.
Proof. reflexivity. Qed.

Lemma header_sound pv s c p :
  match_at header_re pv s = Some (c, p) ->
  exists u w v,
    s = u ++ T "bytes" ++ w ++ v /\ field_of is_space w
    /\ at_line_end v = true.
Proof.
  unfold match_at, header_re. rewrite run_cat. intros H.
  apply run_bol_sound in H. rewrite run_cat in H. unfold lit at 1 in H.
  apply run_lit_sound in H as (s1 & Hs1 & H). rewrite run_cat in H.
  apply run_plus_sound in H as (w0 & s2 & pv2 & Hs2 & _ & _ & H).
  rewrite run_cat, run_group in H. fold size_re in H.
  unfold Plus at 1 in H. rewrite (run_cat size_re (Star size_re)) in H.
  assert (Hs : s = (T "type" ++ w0) ++ s2).
  { subst s s1. now rewrite <- app_assoc. }
  apply (size_sound s _ _ _ _ _ _ Hs) in H as (pv3 & v3 & Hv3 & H).
  rewrite run_star in H.
  apply (sizes_loop_sound s) in H as (pv4 & v4 & c4 & Hv4 & H);
    [|exact Hv3].
  cbv beta in H. rewrite run_cat in H.
  apply run_star_sound in H as (w2 & v & pv5 & -> & F2 & H).
  apply run_eol_sound in H as [He _]. cbn [rest] in He.
  destruct Hv4 as (u & w & -> & [N F]).
  exists u, (w ++ w2), v. split; [now rewrite <- !app_assoc|].
  split; [|exact He]. split.
  - destruct w; [discriminate|reflexivity].
  - now rewrite forallb_app, F, F2.
Qed.

Lemma search_from_sound r :
  forall s pv o,
    search_from r pv s = Some o ->
    exists u s' pv', s = u ++ s' /\ match_at r pv' s' = Some o.
Proof.
  induction s as [|a s IH]; intros pv o H; cbn [search_from] in H.
  - destruct (match_at r pv []) eqn:E; [|discriminate].
    exists [], [], pv. split; [reflexivity|congruence].
  - destruct (match_at r pv (a :: s)) eqn:E.
    + exists [], (a :: s), pv. split; [reflexivity|congruence].
    + apply IH in H as (u & s' & pv' & -> & H).
      exists (a :: u), s', pv'. auto.
Qed.

(** X22: whenever [parse_openssl_results] recognises the header line, the
    text holds the word "bytes" followed by white space, a line break
    included, that reaches the end of a line or of the text.  So a header
    line that ends right after "bytes" and is followed by the line of the
    values, as in the docstring and in the output of OpenSSL, is not
    recognised, and the summary table is not read. *)
Theorem header_needs_space (txt : text) (hm : caps) :
  search header_re txt = Some hm ->
  exists u w v,
    txt = u ++ T "bytes" ++ w ++ v
    /\ is_nil w = false /\ forallb is_space w = true
    /\ at_line_end v = true.
Proof.
  unfold search. intros H.
  destruct (search_from header_re None txt) as [[c p]|] eqn:E;
    [|discriminate].
  apply search_from_sound in E as (u0 & s & pv & -> & E).
  apply header_sound in E as (u & w & v & -> & [N F] & He).
  exists (u0 ++ u), w, v. rewrite <- app_assoc. auto.
Qed.

Lemma header_needs_space_witness :
  exists u w v,
    openssl_trailing_space = u ++ T "bytes" ++ w ++ v
    /\ is_nil w = false /\ forallb is_space w = true
    /\ at_line_end v = true.
Proof.
  apply (header_needs_space openssl_trailing_space
           [(1%nat, T "16 bytes 64 bytes ")]).
  vm_compute. reflexivity.
Defined.
